(** * Gold dashboard: the indicator computation of the two scripts

    [gold_dashboard.py] and [gold_dashboard_streamlit.py] fetch a frame of
    OHLCV bars and add three columns to it, two simple moving averages of
    the closing price and an RSI oscillator, with a handful of pandas calls.
    This development embeds those calls and the two scripts' use of them.

    Numbers.  The scripts compute on IEEE doubles.  Here a double is an
    exact rational or one of the three special values NaN, +inf, -inf, with
    the IEEE rules for the special values (x/0, inf-inf, comparisons with
    NaN, ...).  Rounding is not modelled and the two zeros are not told
    apart: a zero divisor is taken as +0.  For the RSI the sign of a zero
    [avg_loss] only flips the sign of the infinite [rs], and
    100 - 100/(1 + rs) is 100 for either sign. *)

From Stdlib Require Import QArith Qminmax Qabs Lqa Lia.
From stdpp Require Import gmap strings list fin_maps.

Local Open Scope Q_scope.

(** ** Doubles *)

Inductive Float : Type :=
  | NaN
  | PosInf
  | NegInf
  | Num (q : Q).

Definition Qltb (a b : Q) : bool := negb (Qle_bool b a).

Definition isna (x : Float) : bool :=
  match x with NaN => true | _ => false end.

(** [x == x] on doubles: false exactly for NaN. *)
Definition notna (x : Float) : bool := negb (isna x).

Definition fneg (x : Float) : Float :=
  match x with
  | NaN => NaN
  | PosInf => NegInf
  | NegInf => PosInf
  | Num a => Num (- a)
  end.

Definition fadd (x y : Float) : Float :=
  match x, y with
  | NaN, _ | _, NaN => NaN
  | PosInf, NegInf | NegInf, PosInf => NaN
  | PosInf, _ | _, PosInf => PosInf
  | NegInf, _ | _, NegInf => NegInf
  | Num a, Num b => Num (a + b)
  end.

Definition fsub (x y : Float) : Float := fadd x (fneg y).

Definition fmul (x y : Float) : Float :=
  match x, y with
  | NaN, _ | _, NaN => NaN
  | Num a, Num b => Num (a * b)
  | Num a, PosInf | PosInf, Num a =>
      if Qeq_bool a 0 then NaN else if Qltb 0 a then PosInf else NegInf
  | Num a, NegInf | NegInf, Num a =>
      if Qeq_bool a 0 then NaN else if Qltb 0 a then NegInf else PosInf
  | PosInf, PosInf | NegInf, NegInf => PosInf
  | PosInf, NegInf | NegInf, PosInf => NegInf
  end.

(** numpy's true division: a zero divisor gives an infinity, or NaN for 0/0;
    it does not raise. *)
Definition fdiv (x y : Float) : Float :=
  match x, y with
  | NaN, _ | _, NaN => NaN
  | Num a, Num b =>
      if Qeq_bool b 0
      then (if Qeq_bool a 0 then NaN else if Qltb 0 a then PosInf else NegInf)
      else Num (a / b)
  | Num _, PosInf | Num _, NegInf => Num 0
  | PosInf, Num b => if Qltb b 0 then NegInf else PosInf
  | NegInf, Num b => if Qltb b 0 then PosInf else NegInf
  | PosInf, PosInf | PosInf, NegInf | NegInf, PosInf | NegInf, NegInf => NaN
  end.

(** [x < y]; every comparison with NaN is false. *)
Definition flt (x y : Float) : bool :=
  match x, y with
  | NaN, _ | _, NaN => false
  | Num a, Num b => Qltb a b
  | NegInf, NegInf => false
  | NegInf, _ => true
  | _, NegInf => false
  | PosInf, _ => false
  | Num _, PosInf => true
  end.

Definition fgt (x y : Float) : bool := flt y x.

(** [x != y] is [negb (feqb x y)]; NaN differs from everything. *)
Definition feqb (x y : Float) : bool :=
  match x, y with
  | Num a, Num b => Qeq_bool a b
  | PosInf, PosInf | NegInf, NegInf => true
  | _, _ => false
  end.

(** Equality of doubles up to the representation of the rational. *)
Definition feq (x y : Float) : Prop :=
  match x, y with
  | NaN, NaN | PosInf, PosInf | NegInf, NegInf => True
  | Num a, Num b => a == b
  | _, _ => False
  end.

(** ** pandas Series of doubles, by position *)

Abbreviation Series := (list Float).

(** [of_reals] is a column of finite prices. *)
Definition of_reals (qs : list Q) : Series := Num <$> qs.

(** [s.diff()]: the first position has no predecessor. *)
Definition diff (s : Series) : Series :=
  match s with
  | [] => []
  | _ :: tl => NaN :: zip_with fsub tl s
  end.

(** [s.clip(lower=lo)] and [s.clip(upper=hi)]: NaN is kept. *)
Definition clip_lower (lo : Float) (s : Series) : Series :=
  (fun x => if isna x || negb (flt x lo) then x else lo) <$> s.

Definition clip_upper (hi : Float) (s : Series) : Series :=
  (fun x => if isna x || negb (fgt x hi) then x else hi) <$> s.

(** [s > c] and [s < c], the boolean masks. *)
Definition gt_scalar (s : Series) (c : Float) : list bool := (fun x => fgt x c) <$> s.
Definition lt_scalar (s : Series) (c : Float) : list bool := (fun x => flt x c) <$> s.

(** [s.where(cond, other)]: keep where the mask holds, else [other]. *)
Definition series_where (s : Series) (cond : list bool) (other : Float) : Series :=
  zip_with (fun x (c : bool) => if c then x else other) s cond.

(** [-s], [a / b], [c + s], [c / s], [c - s]. *)
Definition series_neg (s : Series) : Series := fneg <$> s.
Definition series_div (a b : Series) : Series := zip_with fdiv a b.
Definition scalar_add (c : Float) (s : Series) : Series := fadd c <$> s.
Definition scalar_div (c : Float) (s : Series) : Series := fdiv c <$> s.
Definition scalar_sub (c : Float) (s : Series) : Series := fsub c <$> s.

(** *** [s.rolling(w).mean()]

    The window at position [i] is the positions [i-w+1 .. i] that exist.
    [min_periods] defaults to the window size: the mean is taken over the
    non-NaN entries of the window when there are at least [w] of them. *)

Definition window (w i : nat) (s : Series) : Series :=
  drop (S i - w) (take (S i) s).

Definition fsum (s : Series) : Float := foldr fadd (Num 0) s.

Definition window_mean (minp : nat) (win : Series) : Float :=
  let obs := filter (fun x => notna x = true) win in
  if (minp <=? length obs)%nat && (0 <? length obs)%nat
  then fdiv (fsum obs) (Num (inject_Z (Z.of_nat (length obs))))
  else NaN.

Definition rolling_mean (w : nat) (s : Series) : Series :=
  (fun i => window_mean w (window w i s)) <$> seq 0 (length s).

(** *** [s.ewm(span=p).mean()]

    pandas runs one pass over the column with three running values: the
    weighted mean so far, the weight of the past and the number of
    observations.  The defaults are in force: [adjust=True] (a new
    observation has weight 1 and the mean is renormalised by the total
    weight), [ignore_na=False] (the past decays over a NaN position too)
    and [min_periods=0], which the pass raises to 1. *)

Record ewm_state : Type := EwmState {
  weighted : Float;
  old_wt : Q;
  nobs : nat
}.

Section Ewm.
Variable span : nat.

Definition com : Q := (inject_Z (Z.of_nat span) - 1) / 2.
Definition alpha : Q := 1 / (1 + com).
Definition old_wt_factor : Q := 1 - alpha.
Definition new_wt : Q := 1.
Definition minp : nat := 1.

Definition ewm_init (x0 : Float) : ewm_state :=
  {| weighted := x0; old_wt := 1; nobs := if notna x0 then 1 else 0 |}.

Definition ewm_step (st : ewm_state) (cur : Float) : ewm_state :=
  let is_observation := notna cur in
  let nobs' := (nobs st + (if is_observation then 1 else 0))%nat in
  if notna (weighted st) then
    let decayed := old_wt st * old_wt_factor in
    if is_observation then
      {| weighted :=
           (if negb (feqb (weighted st) cur)
            then fdiv (fadd (fmul (Num decayed) (weighted st))
                            (fmul (Num new_wt) cur))
                      (Num (decayed + new_wt))
            else weighted st);
         old_wt := decayed + new_wt;
         nobs := nobs' |}
    else {| weighted := weighted st; old_wt := decayed; nobs := nobs' |}
  else if is_observation then
    {| weighted := cur; old_wt := old_wt st; nobs := nobs' |}
  else {| weighted := weighted st; old_wt := old_wt st; nobs := nobs' |}.

Definition ewm_out (st : ewm_state) : Float :=
  if (minp <=? nobs st)%nat then weighted st else NaN.

Fixpoint ewm_loop (st : ewm_state) (s : Series) : Series :=
  match s with
  | [] => []
  | cur :: tl => let st' := ewm_step st cur in ewm_out st' :: ewm_loop st' tl
  end.

Definition ewm_mean (s : Series) : Series :=
  match s with
  | [] => []
  | x0 :: tl => ewm_out (ewm_init x0) :: ewm_loop (ewm_init x0) tl
  end.
End Ewm.

(** ** The indicator columns

    Both scripts compute the same two moving averages and the same RSI
    formula; they differ in how gain and loss are cut out of the delta and
    in how they are smoothed.  The literals 20, 50 and 14 of the scripts
    are the arguments [fast], [slow] and [p] here. *)

Definition sma (w : nat) (close : Series) : Series := rolling_mean w close.

(** [100 - (100 / (1 + rs))] with [rs = avg_gain / avg_loss]. *)
Definition rsi_of (avg_gain avg_loss : Series) : Series :=
  scalar_sub (Num 100)
    (scalar_div (Num 100) (scalar_add (Num 1) (series_div avg_gain avg_loss))).

(** [gold_dashboard.py], lines 43-53. *)
Module Dashboard.
Section Columns.
Variable p : nat.
Variable close : Series.

Definition delta : Series := diff close.
Definition gain : Series := clip_lower (Num 0) delta.
Definition loss : Series := series_neg (clip_upper (Num 0) delta).
Definition avg_gain : Series := ewm_mean p gain.
Definition avg_loss : Series := ewm_mean p loss.
Definition rs : Series := series_div avg_gain avg_loss.
Definition RSI : Series := rsi_of avg_gain avg_loss.
End Columns.
End Dashboard.

(** [gold_dashboard_streamlit.py], lines 75-83. *)
Module Streamlit.
Section Columns.
Variable p : nat.
Variable close : Series.

Definition delta : Series := diff close.
Definition gain : Series :=
  series_where delta (gt_scalar delta (Num 0)) (Num 0).
Definition loss : Series :=
  series_neg (series_where delta (lt_scalar delta (Num 0)) (Num 0)).
Definition avg_gain : Series := rolling_mean p gain.
Definition avg_loss : Series := rolling_mean p loss.
Definition rs : Series := series_div avg_gain avg_loss.
Definition RSI : Series := rsi_of avg_gain avg_loss.
End Columns.
End Streamlit.

(** ** The scripts: frames in a store, errors

    A DataFrame is an object: [df['SMA_20'] = ...] changes the frame that
    [df] names.  Frames live in a store and the scripts hold locations.
    A run either ends with an exception or returns a value and a store. *)

Inductive error : Type :=
  | EmptyInput         (* [st.error(...)] then [st.stop()] on an empty frame *)
  | KeyError
  | IndexError
  | ValueError         (* raised by pandas on a bad window or span *)
  | ZeroDivisionError.

Inductive result (A : Type) : Type :=
  | Raise (e : error)
  | Ret (a : A).
Arguments Raise {A} e.
Arguments Ret {A} a.

Record DataFrame : Type := Frame {
  index : list Z;                  (* the timestamps, one per row *)
  columns : gmap string Series
}.

Definition loc : Type := nat.
Abbreviation heap := (gmap loc DataFrame).

Definition M (A : Type) : Type := heap → result (A * heap).

Definition ret {A} (a : A) : M A := fun h => Ret (a, h).
Definition raise {A} (e : error) : M A := fun _ => Raise e.
Definition bind {A B} (m : M A) (k : A → M B) : M B :=
  fun h => match m h with
           | Raise e => Raise e
           | Ret (a, h') => k a h'
           end.

Notation "x <<- m ;; k" := (bind m (fun x => k))
  (at level 100, m at next level, right associativity).
Notation "m ;;; k" := (bind m (fun _ => k))
  (at level 100, right associativity).

(** A new frame object, as returned by [yf.download] or [data[[...]]]. *)
Definition new_frame (df : DataFrame) : M loc :=
  fun h => let l := fresh (dom h) in Ret (l, <[l := df]> h).

Definition read_frame (l : loc) : M DataFrame :=
  fun h => match h !! l with
           | Some df => Ret (df, h)
           | None => Raise KeyError
           end.

(** [df.empty]: some axis has length 0. *)
Definition frame_empty (df : DataFrame) : bool :=
  bool_decide (index df = []) || bool_decide (columns df = ∅).

(** [df[c]]. *)
Definition getitem (l : loc) (c : string) : M Series :=
  df <<- read_frame l ;;
  match columns df !! c with
  | Some s => ret s
  | None => raise KeyError
  end.

(** [df[c] = s]: the frame at [l] is updated in place. *)
Definition setitem (l : loc) (c : string) (s : Series) : M unit :=
  df <<- read_frame l ;;
  fun h => Ret (tt, <[l := Frame (index df) (<[c := s]> (columns df))]> h).

(** [len(df)]. *)
Definition len (l : loc) : M nat :=
  df <<- read_frame l ;; ret (length (index df)).

(** [s.rolling(w)] and [s.ewm(span=p)] check their argument. *)
Definition rolling (w : Z) (s : Series) : M Series :=
  if (w <? 0)%Z then raise ValueError else ret (rolling_mean (Z.to_nat w) s).

Definition ewm (span : Z) (s : Series) : M Series :=
  if (span <? 1)%Z then raise ValueError else ret (ewm_mean (Z.to_nat span) s).

(** [s.iloc[k]], a negative [k] counting from the end. *)
Definition iloc (s : Series) (k : Z) : M Float :=
  let pos := (if k <? 0 then Z.of_nat (length s) + k else k)%Z in
  if (pos <? 0)%Z then raise IndexError
  else match s !! Z.to_nat pos with
       | Some x => ret x
       | None => raise IndexError
       end.

(** [x / y] on Python floats raises on a zero divisor. *)
Definition py_truediv (x y : Float) : M Float :=
  if feqb y (Num 0) then raise ZeroDivisionError else ret (fdiv x y).

Module DashboardScript.
(** [get_data], with the frame that [yf.download] returns as [fetched]
    and the literals 20, 50 and 14 as [fast], [slow] and [p]. *)
Definition get_data_with (fast slow p : Z) (fetched : DataFrame) : M loc :=
  df <<- new_frame fetched ;;
  d <<- read_frame df ;;
  if frame_empty d then raise EmptyInput else
  close <<- getitem df "Close" ;;
  sma_fast <<- rolling fast close ;;
  setitem df "SMA_20" sma_fast ;;;
  close <<- getitem df "Close" ;;
  sma_slow <<- rolling slow close ;;
  setitem df "SMA_50" sma_slow ;;;
  close <<- getitem df "Close" ;;
  let delta := diff close in
  let gain := clip_lower (Num 0) delta in
  let loss := series_neg (clip_upper (Num 0) delta) in
  avg_gain <<- ewm p gain ;;
  avg_loss <<- ewm p loss ;;
  let rs := series_div avg_gain avg_loss in
  setitem df "RSI"
    (scalar_sub (Num 100) (scalar_div (Num 100) (scalar_add (Num 1) rs))) ;;;
  ret df.

Definition get_data : DataFrame → M loc := get_data_with 20 50 14.
End DashboardScript.

Module StreamlitScript.
Definition ohlcv : list string := ["Open"; "High"; "Low"; "Close"; "Volume"].

(** [data[['Open', ...]]]: a new frame with the listed columns. *)
Definition select (l : loc) (names : list string) : M loc :=
  df <<- read_frame l ;;
  if forallb (fun c => bool_decide (is_Some (columns df !! c))) names
  then new_frame (Frame (index df)
                    (filter (fun kv => kv.1 ∈ names) (columns df)))
  else raise KeyError.

Definition get_gold_data (fetched : DataFrame) : M loc :=
  data <<- new_frame fetched ;;
  d <<- read_frame data ;;
  if frame_empty d then new_frame (Frame [] ∅)
  else select data ohlcv.

(** Lines 74-83, with the literals as arguments. *)
Definition add_indicators_with (fast slow p : Z) (data : loc) : M unit :=
  close <<- getitem data "Close" ;;
  sma_fast <<- rolling fast close ;;
  setitem data "SMA_20" sma_fast ;;;
  close <<- getitem data "Close" ;;
  sma_slow <<- rolling slow close ;;
  setitem data "SMA_50" sma_slow ;;;
  close <<- getitem data "Close" ;;
  let delta := diff close in
  let gain := series_where delta (gt_scalar delta (Num 0)) (Num 0) in
  let loss := series_neg (series_where delta (lt_scalar delta (Num 0)) (Num 0)) in
  avg_gain <<- rolling p gain ;;
  avg_loss <<- rolling p loss ;;
  let rs := series_div avg_gain avg_loss in
  setitem data "RSI"
    (scalar_sub (Num 100) (scalar_div (Num 100) (scalar_add (Num 1) rs))).

Record change : Type := Change {
  current_price : Float;
  prev_close : Float;
  price_change : Float;
  percent_change : Float
}.

(** Lines 86-89. *)
Definition current_values (data : loc) : M change :=
  close <<- getitem data "Close" ;;
  current_price <<- iloc close (-1) ;;
  n <<- len data ;;
  prev_close <<- (if (1 <? n)%nat
                  then (close <<- getitem data "Close" ;; iloc close (-2))
                  else ret current_price) ;;
  let price_change := fsub current_price prev_close in
  q <<- py_truediv price_change prev_close ;;
  ret (Change current_price prev_close price_change (fmul q (Num 100))).

(** Lines 68-89. *)
Definition main_with (fast slow p : Z) (fetched : DataFrame) : M (loc * change) :=
  data <<- get_gold_data fetched ;;
  d <<- read_frame data ;;
  if frame_empty d then raise EmptyInput else
  add_indicators_with fast slow p data ;;;
  ch <<- current_values data ;;
  ret (data, ch).

Definition main : DataFrame → M (loc * change) := main_with 20 50 14.
End StreamlitScript.

(** ** Reference notions on real prices

    What the statements below compare the columns with: sums and means of
    rationals, the slice [l[a .. b]] with both ends included, the deltas
    and their positive and negative parts, and the weights of the
    exponential mean. *)

Definition Qsum (l : list Q) : Q := foldr Qplus 0 l.

Definition arith_mean (l : list Q) : Q :=
  Qsum l / inject_Z (Z.of_nat (length l)).

Definition between (l : list Q) (a b : nat) : list Q :=
  drop a (take (S b) l).

(** [deltasQ l !! j] is [l[j+1] - l[j]], the delta at position [j+1]. *)
Definition deltasQ (l : list Q) : list Q :=
  match l with
  | [] => []
  | _ :: tl => zip_with Qminus tl l
  end.

(** The pass of [ewm_loop] on finite observations, from a finite mean [a]
    with past weight [w]; [f] is the decay [old_wt_factor]. *)
Fixpoint ewmQ (f a w : Q) (xs : list Q) : list Q :=
  match xs with
  | [] => []
  | x :: tl =>
      let a' := if negb (Qeq_bool a x)
                then (w * f * a + 1 * x) / (w * f + 1)
                else a in
      a' :: ewmQ f a' (w * f + 1) tl
  end.

Definition ewm_reals (f : Q) (xs : list Q) : list Q :=
  match xs with
  | [] => []
  | x :: tl => x :: ewmQ f x 1 tl
  end.

(** [geom f n] is 1 + f + ... + f^(n-1). *)
Fixpoint geom (f : Q) (n : nat) : Q :=
  match n with
  | O => 0
  | S n' => 1 + f * geom f n'
  end.

(** A frame of bars whose five columns all hold the given prices. *)
Definition bars (closes : list Q) : DataFrame :=
  Frame (Z.of_nat <$> seq 0 (length closes))
    (list_to_map ((fun c => (c, of_reals closes)) <$> StreamlitScript.ohlcv)).

Definition scenario : list Q := [10; 11; 12; 11; 10; 9; 10; 11; 12; 13; 14].

(** The RSI at one position, from the two smoothed averages there. *)
Definition rsi_at (g l : Float) : Float :=
  fsub (Num 100) (fdiv (Num 100) (fadd (Num 1) (fdiv g l))).

(** Gain and loss at a finite delta [d], as each script cuts them out:
    [delta.where(delta > 0, 0)] and [-delta.where(delta < 0, 0)] in the
    Streamlit script, [delta.clip(lower=0)] and [-delta.clip(upper=0)] in
    the other. *)
Definition where_gain (d : Q) : Q := if Qltb 0 d then d else 0.
Definition where_loss (d : Q) : Q := - (if Qltb d 0 then d else 0).
Definition clip_gain (d : Q) : Q := if negb (Qltb d 0) then d else 0.
Definition clip_loss (d : Q) : Q := - (if negb (Qltb 0 d) then d else 0).

(** The weight of the past after [n] more observations, starting from
    [w]: each observation decays it by [f] and adds the new weight 1. *)
Fixpoint past_weight (f w : Q) (n : nat) : Q :=
  match n with
  | O => w
  | S n' => past_weight f (w * f + 1) n'
  end.

(** The Streamlit script's gain and loss columns on finite prices; the
    entry at position 0 is the replacement value of [where]. *)
Definition where_gains (closes : list Q) : list Q :=
  match closes with
  | [] => []
  | _ :: _ => 0 :: (where_gain <$> deltasQ closes)
  end.

Definition where_losses (closes : list Q) : list Q :=
  match closes with
  | [] => []
  | _ :: _ => 0 :: (where_loss <$> deltasQ closes)
  end.

(** The prices do not fall (do not rise) from position [a] to position
    [b], and they rise (fall) somewhere in between. *)
Definition non_decreasing (l : list Q) (a b : nat) : Prop :=
  ∀ j x y, (a ≤ j < b)%nat → l !! j = Some x → l !! S j = Some y → x <= y.

Definition non_increasing (l : list Q) (a b : nat) : Prop :=
  ∀ j x y, (a ≤ j < b)%nat → l !! j = Some x → l !! S j = Some y → y <= x.

Definition rises_in (l : list Q) (a b : nat) : Prop :=
  ∃ j x y, (a ≤ j < b)%nat ∧ l !! j = Some x ∧ l !! S j = Some y ∧ x < y.

Definition falls_in (l : list Q) (a b : nat) : Prop :=
  ∃ j x y, (a ≤ j < b)%nat ∧ l !! j = Some x ∧ l !! S j = Some y ∧ y < x.

(** The share of the newest observation in the exponential mean of span
    [p] once [n] observations have been seen. *)
Definition blend_share (p n : nat) : Q := 1 / geom (old_wt_factor p) n.

(** The two smoothing rules the specification names, and one RSI pass
    under a rule: the same rule smooths the gain and the loss. *)
Inductive Smoothing : Type := SIMPLE | EXPONENTIAL.

Definition smooth (rule : Smoothing) (p : nat) (s : Series) : Series :=
  match rule with
  | SIMPLE => rolling_mean p s
  | EXPONENTIAL => ewm_mean p s
  end.

Definition rsi_pass (rule : Smoothing) (p : nat) (gain loss : Series) : Series :=
  rsi_of (smooth rule p gain) (smooth rule p loss).

(** Price series used in the examples: a flat one, a dip followed by a
    long rise, a bump followed by a long fall, a short rise and a short
    fall. *)
Definition flat_closes : list Q := replicate 15 5.
Definition dip_then_rise : list Q :=
  [6; 5; 6; 7; 8; 9; 10; 11; 12; 13; 14; 15; 16; 17; 18; 19; 20].
Definition bump_then_fall : list Q :=
  [19; 20; 19; 18; 17; 16; 15; 14; 13; 12; 11; 10; 9; 8; 7; 6; 5].
Definition short_rise : list Q := [1; 2; 3; 4].
Definition short_fall : list Q := [4; 3; 2; 1].

(** The frame [d] once the three indicator columns are assigned. *)
Definition with_indicators (d : DataFrame) (sma_fast sma_slow rsi : Series)
    : DataFrame :=
  Frame (index d)
    (<["RSI" := rsi]> (<["SMA_50" := sma_slow]>
       (<["SMA_20" := sma_fast]> (columns d)))).

Definition indicator_names : list string := ["SMA_20"; "SMA_50"; "RSI"].

(** ** The rest of the two pages

    What the scripts do with the frame after the indicators: the values
    of the metric cards, and the news list of [gold_dashboard.py].  The
    page chrome (markdown, charts, the cache decorators) is outside. *)

(** [x >= y] on doubles. *)
Definition fge (x y : Float) : bool :=
  match x, y with
  | NaN, _ | _, NaN => false
  | _, _ => negb (flt x y)
  end.

(** [s.min()] and [s.max()]: NaN entries are skipped, and the result is
    NaN when nothing is left. *)
Definition fmin2 (x y : Float) : Float := if flt y x then y else x.
Definition fmax2 (x y : Float) : Float := if flt x y then y else x.

Definition series_min (s : Series) : Float :=
  match filter (fun x => notna x = true) s with
  | [] => NaN
  | x :: tl => foldl fmin2 x tl
  end.

Definition series_max (s : Series) : Float :=
  match filter (fun x => notna x = true) s with
  | [] => NaN
  | x :: tl => foldl fmax2 x tl
  end.

Module DashboardPage.
Record metrics : Type := Metrics {
  current_price : Float;
  price_change : Float;
  pct_change : Float;
  change_class : string;
  rsi : Float;
  rsi_class : string
}.

(** [gold_dashboard.py], lines 77-79, 92 and 103-104. *)
Definition page_values (data : loc) : M metrics :=
  close <<- getitem data "Close" ;;
  current_price <<- iloc close (-1) ;;
  close <<- getitem data "Close" ;;
  prev <<- iloc close (-2) ;;
  let price_change := fsub current_price prev in
  q <<- py_truediv price_change current_price ;;
  let pct_change := fmul q (Num 100) in
  let change_class :=
    if fge price_change (Num 0) then "positive" else "negative" in
  col <<- getitem data "RSI" ;;
  rsi <<- iloc col (-1) ;;
  let rsi_class :=
    if fgt rsi (Num 70) then "negative"
    else if flt rsi (Num 30) then "positive" else "gold-text" in
  ret (Metrics current_price price_change pct_change change_class
         rsi rsi_class).

(** Lines 75-104: the frame of [get_data], then the card values. *)
Definition run (fetched : DataFrame) : M metrics :=
  data <<- DashboardScript.get_data fetched ;;
  page_values data.
End DashboardPage.

Module StreamlitPage.
Record cards : Type := Cards {
  change : StreamlitScript.change;
  rsi_value : Float;
  change_class : string;
  change_icon : string;
  rsi_class : string;
  range_low : Float;
  range_high : Float
}.

(** [gold_dashboard_streamlit.py], lines 90, 107-108, 122 and 138. *)
Definition card_values (data : loc) (ch : StreamlitScript.change) : M cards :=
  col <<- getitem data "RSI" ;;
  rsi_value <<- iloc col (-1) ;;
  let change_class :=
    if fge (StreamlitScript.price_change ch) (Num 0)
    then "positive" else "negative" in
  let change_icon :=
    if fge (StreamlitScript.price_change ch) (Num 0) then "▲" else "▼" in
  let rsi_class :=
    if fgt rsi_value (Num 70) then "negative"
    else if flt rsi_value (Num 30) then "positive" else "neutral" in
  low <<- getitem data "Low" ;;
  high <<- getitem data "High" ;;
  ret (Cards ch rsi_value change_class change_icon rsi_class
         (series_min low) (series_max high)).

(** Lines 68-138. *)
Definition run (fetched : DataFrame) : M cards :=
  r <<- StreamlitScript.main fetched ;;
  card_values r.1 r.2.
End StreamlitPage.

(** *** [get_news]

    Python strings are sequences of code points.  The request, the HTML
    parser and the CSS selection are outside; their outcome is either an
    exception or the list of anchors that [soup.select('h3.title a')]
    matched, each with its text and its attributes. *)

Abbreviation pystr := (list N).

Definition pystr_of (s : string) : pystr :=
  Ascii.N_of_ascii <$> String.list_ascii_of_string s.

(** The code points that [str.isspace] accepts; [str.strip()] removes
    them from both ends. *)
Definition py_isspace (c : N) : bool :=
  ((9 <=? c) && (c <=? 13) || (28 <=? c) && (c <=? 32)
   || (c =? 133) || (c =? 160) || (c =? 5760)
   || (8192 <=? c) && (c <=? 8202)
   || (c =? 8232) || (c =? 8233) || (c =? 8239) || (c =? 8287)
   || (c =? 12288))%N.

Fixpoint lstrip (s : pystr) : pystr :=
  match s with
  | [] => []
  | c :: tl => if py_isspace c then lstrip tl else s
  end.

Definition rstrip (s : pystr) : pystr := reverse (lstrip (reverse s)).
Definition strip (s : pystr) : pystr := rstrip (lstrip s).

Record anchor : Type := Anchor {
  text : pystr;
  attrs : gmap string pystr
}.

Record news_item : Type := NewsItem {
  title : pystr;
  url : pystr
}.

Definition kitco : pystr := pystr_of "https://www.kitco.com".

(** One element of the comprehension; [a['href']] raises when the
    anchor has no such attribute. *)
Definition news_entry (a : anchor) : option news_item :=
  match attrs a !! "href" with
  | Some href => Some (NewsItem (strip (text a)) (kitco ++ href))
  | None => None
  end.

(** [selected] is [None] when the request or the parser raised; any
    exception inside the [try] gives the empty list. *)
Definition get_news (selected : option (list anchor)) : list news_item :=
  match selected with
  | None => []
  | Some anchors =>
      match mapM news_entry (take 5 anchors) with
      | Some items => items
      | None => []
      end
  end.

(** Reference notions for the statements on the added code. *)

(** All the closes from position [a] to position [b] are equal. *)
Definition flat_on (l : list Q) (a b : nat) : Prop :=
  ∀ j x y, (a ≤ j < b)%nat → l !! j = Some x → l !! S j = Some y → x == y.

(** The observations weighted by powers of [f], the newest with weight 1:
    x_k + f x_(k-1) + ... + f^k x_0. *)
Definition decayed_sum (f : Q) (xs : list Q) : Q :=
  foldl (fun acc x => f * acc + x) 0 xs.

(** A frame whose five columns hold different series. *)
Definition ohlcv_frame (o hi lo c v : list Q) : DataFrame :=
  Frame (Z.of_nat <$> seq 0 (length c))
    (<["Open" := of_reals o]> (<["High" := of_reals hi]>
       (<["Low" := of_reals lo]> (<["Close" := of_reals c]>
          (<["Volume" := of_reals v]> ∅))))).

(** * Properties *)

(** ** Arithmetic on doubles *)

Lemma Qltb_lt (a b : Q) : Qltb a b = true ↔ a < b.
Proof.
  unfold Qltb. rewrite negb_true_iff. split.
  - intros H. apply Qnot_le_lt. intros Hle.
    apply Qle_bool_iff in Hle. congruence.
  - intros H. destruct (Qle_bool b a) eqn:E; [|done].
    apply Qle_bool_iff in E. exfalso. apply (Qlt_not_le _ _ H E).
Qed.

Lemma Qltb_ge (a b : Q) : Qltb a b = false ↔ b <= a.
Proof.
  unfold Qltb. rewrite negb_false_iff. apply Qle_bool_iff.
Qed.

Lemma Qeq_bool_false (a b : Q) : ¬ a == b → Qeq_bool a b = false.
Proof.
  intros H. destruct (Qeq_bool a b) eqn:E; [|done].
  apply Qeq_bool_iff in E. contradiction.
Qed.

Lemma Qeq_bool_true (a b : Q) : a == b → Qeq_bool a b = true.
Proof. apply Qeq_bool_iff. Qed.

Lemma inject_nat_pos (n : nat) : (0 < n)%nat → 0 < inject_Z (Z.of_nat n).
Proof.
  intros H. change 0 with (inject_Z 0). rewrite <- Zlt_Qlt. lia.
Qed.

Lemma fdiv_num (a b : Q) : ¬ b == 0 → fdiv (Num a) (Num b) = Num (a / b).
Proof. intros H. simpl. by rewrite Qeq_bool_false. Qed.

(** ** Sums *)

Lemma Qsum_nonneg (l : list Q) : Forall (fun x => 0 <= x) l → 0 <= Qsum l.
Proof.
  induction 1 as [|x l Hx _ IH]; simpl; [apply Qle_refl|]. lra.
Qed.

Lemma Qsum_zero (l : list Q) : Forall (fun x => x == 0) l → Qsum l == 0.
Proof.
  induction 1 as [|x l Hx _ IH]; simpl; [reflexivity|]. lra.
Qed.

Lemma Qsum_pos (l : list Q) :
  Forall (fun x => 0 <= x) l → Exists (fun x => 0 < x) l → 0 < Qsum l.
Proof.
  intros Hall Hex. induction Hex as [x l Hx|x l Hex IH]; simpl.
  - apply Forall_cons in Hall as [_ Hl]. apply Qsum_nonneg in Hl. lra.
  - apply Forall_cons in Hall as [Hx Hl]. specialize (IH Hl). lra.
Qed.

Lemma Qsum_const (k : Q) (l : list Q) :
  Forall (fun x => x == k) l → Qsum l == inject_Z (Z.of_nat (length l)) * k.
Proof.
  induction 1 as [|x l Hx _ IH].
  - cbn [Qsum foldr length Z.of_nat]. change (inject_Z 0) with 0. ring.
  - cbn [Qsum foldr length]. fold (Qsum l). rewrite Nat2Z.inj_succ.
    unfold Z.succ. rewrite inject_Z_plus. rewrite IH, Hx.
    change (inject_Z 1) with 1. ring.
Qed.

(** ** Columns of finite prices *)

Lemma of_reals_length (l : list Q) : length (of_reals l) = length l.
Proof. apply length_fmap. Qed.

Lemma of_reals_lookup (l : list Q) (i : nat) :
  of_reals l !! i = Num <$> l !! i.
Proof. apply list_lookup_fmap. Qed.

Lemma fsum_of_reals (l : list Q) : fsum (of_reals l) = Num (Qsum l).
Proof.
  induction l as [|x l IH]; [done|].
  change (fsum (of_reals (x :: l))) with (fadd (Num x) (fsum (of_reals l))).
  by rewrite IH.
Qed.

Lemma filter_notna_of_reals (l : list Q) :
  filter (fun x => notna x = true) (of_reals l) = of_reals l.
Proof.
  induction l as [|x l IH]; [done|].
  change (of_reals (x :: l)) with (Num x :: of_reals l).
  rewrite filter_cons_True by done. by rewrite IH.
Qed.

(** ** The rolling mean *)

Lemma rolling_mean_length (w : nat) (s : Series) :
  length (rolling_mean w s) = length s.
Proof. unfold rolling_mean. by rewrite length_fmap, length_seq. Qed.

Lemma rolling_mean_lookup (w i : nat) (s : Series) :
  (i < length s)%nat →
  rolling_mean w s !! i = Some (window_mean w (window w i s)).
Proof.
  intros Hi. unfold rolling_mean.
  rewrite list_lookup_fmap, lookup_seq_lt by done. done.
Qed.

Lemma rolling_mean_lookup_ge (w i : nat) (s : Series) :
  (length s ≤ i)%nat → rolling_mean w s !! i = None.
Proof.
  intros Hi. apply lookup_ge_None. by rewrite rolling_mean_length.
Qed.

Lemma window_length (w i : nat) (s : Series) :
  (i < length s)%nat → length (window w i s) = Nat.min w (S i).
Proof.
  intros Hi. unfold window. rewrite length_drop, length_take. lia.
Qed.

Lemma window_of_reals (w i : nat) (l : list Q) :
  window w i (of_reals l) = of_reals (drop (S i - w) (take (S i) l)).
Proof.
  unfold window, of_reals. by rewrite fmap_drop, fmap_take.
Qed.

(** Fewer than [w] entries in the window: undefined. *)
Lemma window_mean_short (w : nat) (win : Series) :
  (length win < w)%nat → window_mean w win = NaN.
Proof.
  intros Hlen. unfold window_mean.
  pose proof (length_filter (fun x => notna x = true) win) as Hf.
  destruct (Nat.leb_spec w (length (filter (fun x => notna x = true) win)));
    [lia|done].
Qed.

Lemma window_mean_of_reals (w : nat) (l : list Q) :
  (0 < length l)%nat → (w ≤ length l)%nat →
  window_mean w (of_reals l) = Num (arith_mean l).
Proof.
  intros Hpos Hw. unfold window_mean.
  rewrite filter_notna_of_reals, of_reals_length, fsum_of_reals.
  destruct (Nat.leb_spec w (length l)); [|lia].
  destruct (Nat.ltb_spec 0 (length l)); [|lia].
  cbn [andb]. rewrite fdiv_num; [done|].
  pose proof (inject_nat_pos (length l) Hpos). lra.
Qed.

Lemma rolling_mean_undefined (w i : nat) (s : Series) :
  (i < length s)%nat → (S i < w)%nat → rolling_mean w s !! i = Some NaN.
Proof.
  intros Hi Hw. rewrite rolling_mean_lookup by done.
  rewrite window_mean_short; [done|]. rewrite window_length by done. lia.
Qed.

Lemma rolling_mean_defined (w i : nat) (l : list Q) :
  (0 < w)%nat → (i < length l)%nat → (w ≤ S i)%nat →
  rolling_mean w (of_reals l) !! i
  = Some (Num (arith_mean (between l (S i - w) i))).
Proof.
  intros Hw Hi Hwi. rewrite rolling_mean_lookup by (by rewrite of_reals_length).
  rewrite window_of_reals. unfold between.
  rewrite window_mean_of_reals; [done| |];
    rewrite length_drop, length_take; lia.
Qed.

Lemma between_length (l : list Q) (a b : nat) :
  (b < length l)%nat → length (between l a b) = (S b - a)%nat.
Proof. intros H. unfold between. rewrite length_drop, length_take. lia. Qed.

Lemma between_lookup (l : list Q) (a b k : nat) :
  (a + k ≤ b)%nat → between l a b !! k = l !! (a + k)%nat.
Proof.
  intros H. unfold between. rewrite lookup_drop, lookup_take_lt by lia. done.
Qed.

Lemma between_Forall (P : Q → Prop) (l : list Q) (a b : nat) :
  (∀ j x, (a ≤ j ≤ b)%nat → l !! j = Some x → P x) →
  Forall P (between l a b).
Proof.
  intros H. apply Forall_lookup. intros k x Hk.
  assert (a + k ≤ b)%nat as Hle.
  { apply lookup_lt_Some in Hk. unfold between in Hk.
    rewrite length_drop, length_take in Hk. lia. }
  rewrite between_lookup in Hk by done. apply (H (a + k)%nat); [lia|done].
Qed.

Lemma arith_mean_const (k : Q) (l : list Q) :
  (0 < length l)%nat → Forall (fun x => x == k) l → arith_mean l == k.
Proof.
  intros Hpos Hall. unfold arith_mean. rewrite (Qsum_const k l Hall).
  pose proof (inject_nat_pos _ Hpos). field. lra.
Qed.

(** ** The RSI formula, position by position *)

Lemma rsi_of_lookup (ag al : Series) (i : nat) :
  rsi_of ag al !! i
  = match ag !! i, al !! i with
    | Some g, Some l => Some (rsi_at g l)
    | _, _ => None
    end.
Proof.
  unfold rsi_of, scalar_sub, scalar_div, scalar_add, series_div.
  rewrite !list_lookup_fmap, lookup_zip_with.
  destruct (ag !! i) as [g|]; [|done].
  destruct (al !! i) as [l|]; done.
Qed.

Lemma rsi_at_nan_gain (l : Float) : rsi_at NaN l = NaN.
Proof. done. Qed.

Lemma rsi_at_nan_loss (g : Float) : rsi_at g NaN = NaN.
Proof. by destruct g. Qed.

(** No loss and some gain: [rs] is infinite and the RSI is 100. *)
Lemma rsi_at_saturated (g l : Q) :
  0 < g → l == 0 → ∃ r, rsi_at (Num g) (Num l) = Num r ∧ r == 100.
Proof.
  intros Hg Hl. unfold rsi_at.
  cbn [fdiv]. rewrite (Qeq_bool_true l 0 Hl).
  rewrite (Qeq_bool_false g 0) by lra.
  rewrite (proj2 (Qltb_lt 0 g) Hg). cbn.
  eexists. split; [reflexivity|]. reflexivity.
Qed.

(** Neither gain nor loss: [rs] is 0/0 and the RSI is undefined. *)
Lemma rsi_at_flat (g l : Q) :
  g == 0 → l == 0 → rsi_at (Num g) (Num l) = NaN.
Proof.
  intros Hg Hl. unfold rsi_at. cbn [fdiv].
  by rewrite (Qeq_bool_true l 0 Hl), (Qeq_bool_true g 0 Hg).
Qed.

Lemma rsi_at_regular (g l : Q) :
  0 <= g → 0 < l →
  rsi_at (Num g) (Num l) = Num (100 + - (100 / (1 + g / l))).
Proof.
  intros Hg Hl. unfold rsi_at.
  rewrite fdiv_num by lra. cbn [fadd].
  assert (0 <= g / l) as Hr.
  { apply Qle_shift_div_l; [done|]. lra. }
  rewrite fdiv_num by lra. done.
Qed.

Lemma rsi_value_bounds (g l : Q) :
  0 <= g → 0 < l →
  0 <= 100 + - (100 / (1 + g / l)) <= 100.
Proof.
  intros Hg Hl.
  assert (0 <= g / l) as Hr.
  { apply Qle_shift_div_l; [done|]. lra. }
  assert (0 <= 100 / (1 + g / l)) as H1.
  { apply Qle_shift_div_l; lra. }
  assert (100 / (1 + g / l) <= 100) as H2.
  { apply Qle_shift_div_r; [lra|]. nra. }
  lra.
Qed.

Lemma rsi_value_floor (g l : Q) :
  g == 0 → 0 < l → 100 + - (100 / (1 + g / l)) == 0.
Proof.
  intros Hg Hl. rewrite Hg. field. lra.
Qed.

Lemma rsi_at_bounded (g l : Q) :
  0 <= g → 0 <= l →
  rsi_at (Num g) (Num l) = NaN
  ∨ ∃ r, rsi_at (Num g) (Num l) = Num r ∧ 0 <= r <= 100.
Proof.
  intros Hg Hl.
  destruct (Qlt_le_dec 0 l) as [Hpos|Hle].
  - right. eexists. split; [by apply rsi_at_regular|].
    by apply rsi_value_bounds.
  - assert (l == 0) as Hl0 by lra.
    destruct (Qlt_le_dec 0 g) as [Hgpos|Hgle].
    + right. destruct (rsi_at_saturated g l Hgpos Hl0) as (r & Hr & Heq).
      exists r. split; [done|]. rewrite Heq. lra.
    + left. apply rsi_at_flat; [lra|done].
Qed.

(** ** Deltas, gains and losses of finite prices *)

Lemma deltasQ_length (l : list Q) : length (deltasQ l) = pred (length l).
Proof.
  destruct l as [|q l]; [done|]. cbn [deltasQ]. rewrite length_zip_with.
  cbn [length]. lia.
Qed.

Lemma deltasQ_lookup (l : list Q) (j : nat) (a b : Q) :
  l !! j = Some a → l !! S j = Some b → deltasQ l !! j = Some (b - a).
Proof.
  intros Ha Hb. destruct l as [|q l]; [done|]. cbn [deltasQ].
  rewrite lookup_zip_with.
  change ((q :: l) !! S j) with (l !! j) in Hb. by rewrite Hb, Ha.
Qed.

Lemma deltasQ_lookup_inv (l : list Q) (j : nat) (d : Q) :
  deltasQ l !! j = Some d →
  ∃ a b, l !! j = Some a ∧ l !! S j = Some b ∧ d = b - a.
Proof.
  intros Hd. destruct l as [|q l]; [done|]. cbn [deltasQ] in Hd.
  rewrite lookup_zip_with in Hd.
  change ((q :: l) !! S j) with (l !! j).
  destruct (l !! j) as [b|]; [|done]. cbn in Hd.
  destruct ((q :: l) !! j) as [a|]; [|done]. cbn in Hd.
  exists a, b. by inversion Hd.
Qed.

Lemma zip_fsub_reals (a b : list Q) :
  zip_with fsub (of_reals a) (of_reals b) = of_reals (zip_with Qminus a b).
Proof.
  revert b. induction a as [|x a IH]; intros [|y b]; try done.
  cbn [of_reals fmap list_fmap zip_with]. f_equal. apply IH.
Qed.

Lemma diff_of_reals (q : Q) (l : list Q) :
  diff (of_reals (q :: l)) = NaN :: of_reals (deltasQ (q :: l)).
Proof.
  change (of_reals (q :: l)) with (Num q :: of_reals l) at 1.
  cbn [diff]. f_equal.
  change (Num q :: of_reals l) with (of_reals (q :: l)).
  apply zip_fsub_reals.
Qed.

Lemma where_gain_nonneg (d : Q) : 0 <= where_gain d.
Proof.
  unfold where_gain. destruct (Qltb 0 d) eqn:E; [|lra].
  apply Qltb_lt in E. lra.
Qed.

Lemma where_loss_nonneg (d : Q) : 0 <= where_loss d.
Proof.
  unfold where_loss. destruct (Qltb d 0) eqn:E; [|lra].
  apply Qltb_lt in E. lra.
Qed.

Lemma where_gain_rise (d : Q) : 0 < d → 0 < where_gain d.
Proof.
  intros H. unfold where_gain. by rewrite (proj2 (Qltb_lt 0 d) H).
Qed.

Lemma where_loss_fall (d : Q) : d < 0 → 0 < where_loss d.
Proof.
  intros H. unfold where_loss. rewrite (proj2 (Qltb_lt d 0) H). lra.
Qed.

Lemma where_gain_no_rise (d : Q) : d <= 0 → where_gain d == 0.
Proof.
  intros H. unfold where_gain. by rewrite (proj2 (Qltb_ge 0 d) H).
Qed.

Lemma where_loss_no_fall (d : Q) : 0 <= d → where_loss d == 0.
Proof.
  intros H. unfold where_loss. by rewrite (proj2 (Qltb_ge d 0) H).
Qed.

Lemma clip_gain_nonneg (d : Q) : 0 <= clip_gain d.
Proof.
  unfold clip_gain. destruct (Qltb d 0) eqn:E; cbn; [lra|].
  by apply Qltb_ge in E.
Qed.

Lemma clip_loss_nonneg (d : Q) : 0 <= clip_loss d.
Proof.
  unfold clip_loss. destruct (Qltb 0 d) eqn:E; cbn; [lra|].
  apply Qltb_ge in E. lra.
Qed.

Lemma clip_gain_rise (d : Q) : 0 < d → 0 < clip_gain d.
Proof.
  intros H. unfold clip_gain. rewrite (proj2 (Qltb_ge d 0)) by lra. done.
Qed.

Lemma clip_loss_fall (d : Q) : d < 0 → 0 < clip_loss d.
Proof.
  intros H. unfold clip_loss. rewrite (proj2 (Qltb_ge 0 d)) by lra.
  cbn. lra.
Qed.

Lemma clip_gain_no_rise (d : Q) : d <= 0 → clip_gain d == 0.
Proof.
  intros H. unfold clip_gain. destruct (Qltb d 0) eqn:E; cbn; [done|].
  apply Qltb_ge in E. lra.
Qed.

Lemma clip_loss_no_fall (d : Q) : 0 <= d → clip_loss d == 0.
Proof.
  intros H. unfold clip_loss. destruct (Qltb 0 d) eqn:E; cbn; [done|].
  apply Qltb_ge in E. lra.
Qed.

(** The Streamlit script's gain and loss on finite prices: position 0,
    where the delta is NaN, gets the replacement value 0. *)
Lemma where_gain_reals (D : list Q) :
  series_where (of_reals D) (gt_scalar (of_reals D) (Num 0)) (Num 0)
  = of_reals (where_gain <$> D).
Proof.
  induction D as [|d D IH]; [done|].
  cbn [of_reals fmap list_fmap gt_scalar series_where zip_with].
  f_equal; [|apply IH].
  unfold where_gain. cbn. by destruct (Qltb 0 d).
Qed.

Lemma where_loss_reals (D : list Q) :
  series_neg (series_where (of_reals D) (lt_scalar (of_reals D) (Num 0)) (Num 0))
  = of_reals (where_loss <$> D).
Proof.
  induction D as [|d D IH]; [done|].
  cbn [of_reals fmap list_fmap lt_scalar series_where series_neg zip_with].
  f_equal; [|apply IH].
  unfold where_loss. cbn. by destruct (Qltb d 0).
Qed.

Lemma streamlit_gain_reals (q : Q) (l : list Q) :
  Streamlit.gain (of_reals (q :: l))
  = of_reals (0 :: (where_gain <$> deltasQ (q :: l))).
Proof.
  unfold Streamlit.gain, Streamlit.delta. rewrite diff_of_reals.
  cbn [gt_scalar fmap list_fmap series_where zip_with].
  cbn [fgt flt]. change (of_reals (0 :: ?x)) with (Num 0 :: of_reals x).
  f_equal. apply where_gain_reals.
Qed.

Lemma streamlit_loss_reals (q : Q) (l : list Q) :
  Streamlit.loss (of_reals (q :: l))
  = of_reals (0 :: (where_loss <$> deltasQ (q :: l))).
Proof.
  unfold Streamlit.loss, Streamlit.delta. rewrite diff_of_reals.
  cbn [lt_scalar fmap list_fmap series_where series_neg zip_with].
  cbn [flt fneg]. change (of_reals (0 :: ?x)) with (Num 0 :: of_reals x).
  f_equal. apply where_loss_reals.
Qed.

(** The other script keeps the NaN of position 0. *)
Lemma clip_gain_reals (D : list Q) :
  clip_lower (Num 0) (of_reals D) = of_reals (clip_gain <$> D).
Proof.
  induction D as [|d D IH]; [done|].
  cbn [of_reals fmap list_fmap clip_lower].
  f_equal; [|apply IH].
  unfold clip_gain. cbn. by destruct (Qltb d 0).
Qed.

Lemma clip_loss_reals (D : list Q) :
  series_neg (clip_upper (Num 0) (of_reals D)) = of_reals (clip_loss <$> D).
Proof.
  induction D as [|d D IH]; [done|].
  cbn [of_reals fmap list_fmap clip_upper series_neg].
  f_equal; [|apply IH].
  unfold clip_loss. cbn. by destruct (Qltb 0 d).
Qed.

Lemma dashboard_gain_reals (q : Q) (l : list Q) :
  Dashboard.gain (of_reals (q :: l))
  = NaN :: of_reals (clip_gain <$> deltasQ (q :: l)).
Proof.
  unfold Dashboard.gain, Dashboard.delta. rewrite diff_of_reals.
  change (clip_lower (Num 0) (NaN :: ?x)) with (NaN :: clip_lower (Num 0) x).
  f_equal. apply clip_gain_reals.
Qed.

Lemma dashboard_loss_reals (q : Q) (l : list Q) :
  Dashboard.loss (of_reals (q :: l))
  = NaN :: of_reals (clip_loss <$> deltasQ (q :: l)).
Proof.
  unfold Dashboard.loss, Dashboard.delta. rewrite diff_of_reals.
  change (series_neg (clip_upper (Num 0) (NaN :: ?x)))
    with (NaN :: series_neg (clip_upper (Num 0) x)).
  f_equal. apply clip_loss_reals.
Qed.

(** ** The exponential mean *)

Lemma inject_nat_ge1 (n : nat) : (1 ≤ n)%nat → 1 <= inject_Z (Z.of_nat n).
Proof.
  intros H. change 1 with (inject_Z 1). rewrite <- Zle_Qle. lia.
Qed.

Lemma inject_nat_ge2 (n : nat) : (2 ≤ n)%nat → 2 <= inject_Z (Z.of_nat n).
Proof.
  intros H. change 2 with (inject_Z 2). rewrite <- Zle_Qle. lia.
Qed.

(** The smoothing factor of span [p] is 2/(p+1). *)
Lemma alpha_span (p : nat) :
  (1 ≤ p)%nat → alpha p == 2 / (inject_Z (Z.of_nat p) + 1).
Proof.
  intros Hp. pose proof (inject_nat_ge1 p Hp) as H.
  unfold alpha, com. field. lra.
Qed.

Lemma alpha_range (p : nat) : (1 ≤ p)%nat → 0 < alpha p <= 1.
Proof.
  intros Hp. pose proof (inject_nat_ge1 p Hp) as H.
  rewrite (alpha_span p Hp). split.
  - apply Qlt_shift_div_l; lra.
  - apply Qle_shift_div_r; lra.
Qed.

Lemma old_wt_factor_nonneg (p : nat) : (1 ≤ p)%nat → 0 <= old_wt_factor p.
Proof.
  intros Hp. pose proof (alpha_range p Hp). unfold old_wt_factor. lra.
Qed.

Lemma old_wt_factor_pos (p : nat) : (2 ≤ p)%nat → 0 < old_wt_factor p.
Proof.
  intros Hp. pose proof (inject_nat_ge2 p Hp) as H.
  unfold old_wt_factor. rewrite alpha_span by lia.
  assert (2 / (inject_Z (Z.of_nat p) + 1) < 1); [|lra].
  apply Qlt_shift_div_r; lra.
Qed.

Lemma ewmQ_length (f a w : Q) (xs : list Q) :
  length (ewmQ f a w xs) = length xs.
Proof.
  revert a w. induction xs as [|x xs IH]; intros a w; [done|].
  cbn [ewmQ length]. by rewrite IH.
Qed.

(** On finite observations, from a finite mean, the pass stays finite. *)
Lemma ewm_loop_reals (p : nat) (xs : list Q) (a w : Q) (m : nat) :
  (1 ≤ m)%nat → 0 <= w → 0 <= old_wt_factor p →
  ewm_loop p {| weighted := Num a; old_wt := w; nobs := m |} (of_reals xs)
  = of_reals (ewmQ (old_wt_factor p) a w xs).
Proof.
  intros Hm Hw Hf. revert a w m Hm Hw.
  induction xs as [|x xs IH]; intros a w m Hm Hw; [done|].
  assert (0 <= w * old_wt_factor p) as Hd by nra.
  change (of_reals (x :: xs)) with (Num x :: of_reals xs).
  cbn [ewm_loop ewmQ]. unfold ewm_step.
  cbn [weighted old_wt nobs notna isna negb feqb fmul fadd].
  change (of_reals (?y :: ?ys)) with (Num y :: of_reals ys).
  unfold new_wt.
  rewrite fdiv_num by lra.
  assert (ewm_out
            {| weighted :=
                 if negb (Qeq_bool a x)
                 then Num ((w * old_wt_factor p * a + 1 * x)
                           / (w * old_wt_factor p + 1))
                 else Num a;
               old_wt := w * old_wt_factor p + 1;
               nobs := m + 1 |}
          = Num (if negb (Qeq_bool a x)
                 then (w * old_wt_factor p * a + 1 * x)
                      / (w * old_wt_factor p + 1)
                 else a)) as Hout.
  { unfold ewm_out, minp. cbn [nobs weighted].
    destruct (Nat.leb_spec 1 (m + 1)); [|lia].
    by destruct (negb (Qeq_bool a x)). }
  rewrite Hout. f_equal.
  destruct (negb (Qeq_bool a x)); apply IH; (lia || lra).
Qed.

(** A column that starts with one NaN, as gain and loss do in
    [gold_dashboard.py]: the mean is seeded at position 1. *)
Lemma ewm_mean_reals (p : nat) (xs : list Q) :
  0 <= old_wt_factor p →
  ewm_mean p (NaN :: of_reals xs)
  = NaN :: of_reals (ewm_reals (old_wt_factor p) xs).
Proof.
  intros Hf. cbn [ewm_mean]. f_equal.
  destruct xs as [|x xs]; [done|].
  change (of_reals (x :: xs)) with (Num x :: of_reals xs).
  cbn [ewm_loop ewm_reals].
  change (of_reals (?y :: ?ys)) with (Num y :: of_reals ys).
  f_equal. unfold ewm_step, ewm_init. cbn.
  apply ewm_loop_reals; [lia|lra|done].
Qed.

Lemma dashboard_avg_gain_reals (p : nat) (q : Q) (l : list Q) :
  (1 ≤ p)%nat →
  Dashboard.avg_gain p (of_reals (q :: l))
  = NaN :: of_reals (ewm_reals (old_wt_factor p)
                       (clip_gain <$> deltasQ (q :: l))).
Proof.
  intros Hp. unfold Dashboard.avg_gain. rewrite dashboard_gain_reals.
  apply ewm_mean_reals. by apply old_wt_factor_nonneg.
Qed.

Lemma dashboard_avg_loss_reals (p : nat) (q : Q) (l : list Q) :
  (1 ≤ p)%nat →
  Dashboard.avg_loss p (of_reals (q :: l))
  = NaN :: of_reals (ewm_reals (old_wt_factor p)
                       (clip_loss <$> deltasQ (q :: l))).
Proof.
  intros Hp. unfold Dashboard.avg_loss. rewrite dashboard_loss_reals.
  apply ewm_mean_reals. by apply old_wt_factor_nonneg.
Qed.

(** *** The pass on finite observations *)

Section EwmQ.
Variable f : Q.
Hypothesis f_nonneg : 0 <= f.

(** One step is a blend of the mean so far and the new observation,
    also where pandas skips the arithmetic because the two are equal. *)
Lemma ewm_blend (a w x : Q) :
  0 <= w →
  (if negb (Qeq_bool a x) then (w * f * a + 1 * x) / (w * f + 1) else a)
  == (w * f * a + x) / (w * f + 1).
Proof.
  intros Hw. assert (0 <= w * f) as Hd by nra.
  destruct (Qeq_bool a x) eqn:E; cbn [negb].
  - apply Qeq_bool_iff in E. rewrite <- E. field. lra.
  - field. lra.
Qed.

Lemma ewm_blend_nonneg (a w x : Q) :
  0 <= w → 0 <= a → 0 <= x →
  0 <= (if negb (Qeq_bool a x) then (w * f * a + 1 * x) / (w * f + 1) else a).
Proof.
  intros Hw Ha Hx. assert (0 <= w * f) as Hd by nra.
  destruct (negb (Qeq_bool a x)); [|done].
  apply Qle_shift_div_l; [lra|]. nra.
Qed.

Lemma ewmQ_nonneg (xs : list Q) (a w : Q) :
  0 <= a → 0 <= w → Forall (fun x => 0 <= x) xs →
  Forall (fun x => 0 <= x) (ewmQ f a w xs).
Proof.
  intros Ha Hw Hxs. revert a w Ha Hw.
  induction Hxs as [|x xs Hx _ IH]; intros a w Ha Hw; [constructor|].
  assert (0 <= w * f) as Hd by nra.
  pose proof (ewm_blend_nonneg a w x Hw Ha Hx) as Hb.
  cbn [ewmQ]. constructor; [done|]. apply IH; [done|lra].
Qed.

Lemma ewm_reals_nonneg (xs : list Q) :
  Forall (fun x => 0 <= x) xs → Forall (fun x => 0 <= x) (ewm_reals f xs).
Proof.
  intros Hxs. destruct Hxs as [|x xs Hx Hxs]; [constructor|].
  cbn [ewm_reals]. constructor; [done|]. apply ewmQ_nonneg; [done|lra|done].
Qed.

(** Nothing but zeros so far: the mean is zero. *)
Lemma ewmQ_zero (xs : list Q) (a w : Q) (k : nat) (r : Q) :
  0 <= w → a == 0 →
  (∀ j x, (j ≤ k)%nat → xs !! j = Some x → x == 0) →
  ewmQ f a w xs !! k = Some r → r == 0.
Proof.
  revert a w k. induction xs as [|x xs IH]; intros a w k Hw Ha Hz Hr;
    [done|].
  assert (0 <= w * f) as Hd by nra.
  assert (x == 0) as Hx by (apply (Hz 0%nat); [lia|done]).
  assert ((if negb (Qeq_bool a x)
           then (w * f * a + 1 * x) / (w * f + 1) else a) == 0) as Hb.
  { rewrite ewm_blend by done. rewrite Ha, Hx. field. lra. }
  cbn [ewmQ] in Hr. destruct k as [|k].
  - inversion Hr; subst r. done.
  - change ((?y :: ?ys) !! S k) with (ys !! k) in Hr.
    revert Hr. apply IH; [lra|done|].
    intros j y Hj Hy. apply (Hz (S j)); [lia|done].
Qed.

Lemma ewm_reals_zero (xs : list Q) (k : nat) (r : Q) :
  (∀ j x, (j ≤ k)%nat → xs !! j = Some x → x == 0) →
  ewm_reals f xs !! k = Some r → r == 0.
Proof.
  intros Hz Hr. destruct xs as [|x xs]; [done|].
  assert (x == 0) as Hx by (apply (Hz 0%nat); [lia|done]).
  cbn [ewm_reals] in Hr. destruct k as [|k].
  - inversion Hr; subst r. done.
  - change ((?y :: ?ys) !! S k) with (ys !! k) in Hr.
    apply (ewmQ_zero xs x 1 k); [lra|done| |done].
    intros j y Hj Hy. apply (Hz (S j)); [lia|done].
Qed.

Hypothesis f_pos : 0 < f.

Lemma ewm_blend_pos (a w x : Q) :
  0 < w → 0 <= a → 0 <= x → 0 < a ∨ 0 < x →
  0 < (if negb (Qeq_bool a x) then (w * f * a + 1 * x) / (w * f + 1) else a).
Proof.
  intros Hw Ha Hx Hpos. assert (0 < w * f) as Hd by nra.
  destruct (Qeq_bool a x) eqn:E; cbn [negb].
  - apply Qeq_bool_iff in E. destruct Hpos; lra.
  - apply Qlt_shift_div_l; [lra|]. destruct Hpos; nra.
Qed.

(** A positive mean stays positive: the past never loses all weight. *)
Lemma ewmQ_pos_stays (xs : list Q) (a w : Q) :
  0 < a → 0 < w → Forall (fun x => 0 <= x) xs →
  Forall (fun x => 0 < x) (ewmQ f a w xs).
Proof.
  intros Ha Hw Hxs. revert a w Ha Hw.
  induction Hxs as [|x xs Hx _ IH]; intros a w Ha Hw; [constructor|].
  assert (0 < w * f) as Hd by nra.
  assert (0 < (if negb (Qeq_bool a x)
               then (w * f * a + 1 * x) / (w * f + 1) else a)) as Hb.
  { apply ewm_blend_pos; [done|lra|done|by left]. }
  cbn [ewmQ]. constructor; [done|]. apply IH; [done|lra].
Qed.

(** One positive observation makes the mean positive from then on. *)
Lemma ewmQ_pos (xs : list Q) (a w : Q) (j k : nat) (xj r : Q) :
  0 <= a → 0 < w → Forall (fun x => 0 <= x) xs →
  xs !! j = Some xj → 0 < xj → (j ≤ k)%nat →
  ewmQ f a w xs !! k = Some r → 0 < r.
Proof.
  intros Ha Hw Hxs. revert a w j k Ha Hw.
  induction Hxs as [|x xs Hx Hxs IH]; intros a w j k Ha Hw Hj Hxj Hjk Hr;
    [done|].
  assert (0 < w * f) as Hd by nra.
  cbn [ewmQ] in Hr. destruct j as [|j].
  - inversion Hj; subst xj.
    assert (0 < (if negb (Qeq_bool a x)
                 then (w * f * a + 1 * x) / (w * f + 1) else a)) as Hb.
    { apply ewm_blend_pos; [done|done|done|by right]. }
    destruct k as [|k].
    + inversion Hr; subst r. done.
    + change ((?y :: ?ys) !! S k) with (ys !! k) in Hr.
      assert (0 < w * f + 1) as Hw' by lra.
      pose proof (ewmQ_pos_stays xs _ _ Hb Hw' Hxs) as Hall.
      rewrite Forall_lookup in Hall. by apply (Hall k).
  - destruct k as [|k]; [lia|].
    change ((?y :: ?ys) !! S k) with (ys !! k) in Hr.
    change ((x :: xs) !! S j) with (xs !! j) in Hj.
    revert Hr. apply (IH _ _ j); [|lra|done|done|lia].
    apply ewm_blend_nonneg; [lra|done|done].
Qed.

Lemma ewm_reals_pos (xs : list Q) (j k : nat) (xj r : Q) :
  Forall (fun x => 0 <= x) xs →
  xs !! j = Some xj → 0 < xj → (j ≤ k)%nat →
  ewm_reals f xs !! k = Some r → 0 < r.
Proof.
  intros Hxs Hj Hxj Hjk Hr. destruct Hxs as [|x xs Hx Hxs]; [done|].
  cbn [ewm_reals] in Hr. destruct k as [|k].
  - inversion Hr; subst r. assert (j = 0)%nat as -> by lia.
    inversion Hj; subst xj. done.
  - change ((?y :: ?ys) !! S k) with (ys !! k) in Hr.
    destruct j as [|j].
    + inversion Hj; subst xj.
      pose proof (ewmQ_pos_stays xs x 1 Hxj ltac:(lra) Hxs) as Hall.
      rewrite Forall_lookup in Hall. by apply (Hall k).
    + change ((x :: xs) !! S j) with (xs !! j) in Hj.
      apply (ewmQ_pos xs x 1 j k xj); [done|lra|done|done|done|lia|done].
Qed.
End EwmQ.

(** *** The weights of the pass *)

Section EwmWeights.
Variable f : Q.
Hypothesis f_nonneg : 0 <= f.

Lemma geom_nonneg (n : nat) : 0 <= geom f n.
Proof.
  induction n as [|n IH]; cbn [geom]; [lra|]. nra.
Qed.

Lemma geom_ge1 (n : nat) : 1 <= geom f (S n).
Proof.
  pose proof (geom_nonneg n). cbn [geom]. nra.
Qed.

Lemma past_weight_proper (n : nat) (w w' : Q) :
  w == w' → past_weight f w n == past_weight f w' n.
Proof.
  revert w w'. induction n as [|n IH]; intros w w' Hw; [done|].
  cbn [past_weight]. apply IH. by rewrite Hw.
Qed.

Lemma past_weight_geom (m n : nat) :
  past_weight f (geom f m) n == geom f (m + n).
Proof.
  revert m. induction n as [|n IH]; intros m.
  - by rewrite Nat.add_0_r.
  - cbn [past_weight].
    rewrite (past_weight_proper n _ (geom f (S m))).
    + rewrite IH. by replace (S m + n)%nat with (m + S n)%nat by lia.
    + cbn [geom]. ring.
Qed.

(** Seeded with weight 1, after [n] more observations the past weighs
    1 + f + ... + f^n. *)
Lemma past_weight_seed (n : nat) : past_weight f 1 n == geom f (S n).
Proof.
  rewrite (past_weight_proper n 1 (geom f 1)).
  - apply past_weight_geom.
  - cbn [geom]. ring.
Qed.

Lemma ewmQ_blend_step (xs : list Q) (a w : Q) (k : nat) (r r' x : Q) :
  0 <= w →
  ewmQ f a w xs !! k = Some r →
  ewmQ f a w xs !! S k = Some r' →
  xs !! S k = Some x →
  r' == (past_weight f w (S k) * f * r + x)
        / (past_weight f w (S k) * f + 1).
Proof.
  revert a w k. induction xs as [|x0 xs IH]; intros a w k Hw Hr Hr' Hx;
    [done|].
  assert (0 <= w * f) as Hd by nra.
  cbn [ewmQ] in Hr, Hr'.
  change ((?y :: ?ys) !! S k) with (ys !! k) in Hr', Hx.
  destruct k as [|k].
  - inversion Hr as [Ha']. destruct xs as [|x1 xs]; [done|].
    inversion Hx; subst x1. cbn [ewmQ] in Hr'. inversion Hr' as [Hb].
    cbn [past_weight]. apply ewm_blend; [done|lra].
  - change ((?y :: ?ys) !! S k) with (ys !! k) in Hr.
    change (past_weight f w (S (S k)))
      with (past_weight f (w * f + 1) (S k)).
    revert Hr Hr' Hx. apply IH. lra.
Qed.

(** From the second observation on, the mean is a blend of the mean
    before and the new observation; the share of the new observation
    is one over the total weight so far. *)
Lemma ewm_reals_blend (xs : list Q) (k : nat) (r r' x : Q) :
  ewm_reals f xs !! k = Some r →
  ewm_reals f xs !! S k = Some r' →
  xs !! S k = Some x →
  r' == (1 - 1 / geom f (S (S k))) * r + (1 / geom f (S (S k))) * x.
Proof.
  intros Hr Hr' Hx. destruct xs as [|x0 xs]; [done|].
  cbn [ewm_reals] in Hr, Hr'.
  change ((?y :: ?ys) !! S k) with (ys !! k) in Hr', Hx.
  pose proof (geom_ge1 k) as Hg1.
  assert (geom f (S (S k)) == geom f (S k) * f + 1) as Hg
    by (cbn [geom]; ring).
  assert (r' == (geom f (S k) * f * r + x) / (geom f (S k) * f + 1)) as Hb.
  { destruct k as [|k].
    - inversion Hr; subst r. destruct xs as [|x1 xs]; [done|].
      inversion Hx; subst x1. cbn [ewmQ] in Hr'. inversion Hr' as [Hb].
      rewrite ewm_blend by (done || lra). cbn [geom]. field. nra.
    - change ((?y :: ?ys) !! S k) with (ys !! k) in Hr.
      rewrite (ewmQ_blend_step xs x0 1 k r r' x ltac:(lra) Hr Hr' Hx).
      rewrite (past_weight_seed (S k)). reflexivity. }
  rewrite Hb, Hg. field. nra.
Qed.
End EwmWeights.

(** ** The smoothed columns on finite prices *)

Lemma arith_mean_nonneg (l : list Q) :
  (0 < length l)%nat → Forall (fun x => 0 <= x) l → 0 <= arith_mean l.
Proof.
  intros Hpos Hall. unfold arith_mean.
  pose proof (inject_nat_pos _ Hpos). pose proof (Qsum_nonneg l Hall).
  apply Qle_shift_div_l; [done|]. lra.
Qed.

Lemma arith_mean_zero (l : list Q) :
  (0 < length l)%nat → Forall (fun x => x == 0) l → arith_mean l == 0.
Proof.
  intros Hpos Hall. unfold arith_mean.
  pose proof (inject_nat_pos _ Hpos). rewrite (Qsum_zero l Hall).
  field. lra.
Qed.

Lemma arith_mean_pos (l : list Q) :
  Forall (fun x => 0 <= x) l → Exists (fun x => 0 < x) l → 0 < arith_mean l.
Proof.
  intros Hall Hex. unfold arith_mean.
  assert (0 < length l)%nat as Hpos.
  { destruct Hex; cbn [length]; lia. }
  pose proof (inject_nat_pos _ Hpos). pose proof (Qsum_pos l Hall Hex).
  apply Qlt_shift_div_l; [done|]. lra.
Qed.

Lemma between_cons (x : Q) (l : list Q) (a b : nat) :
  between (x :: l) (S a) (S b) = between l a b.
Proof. done. Qed.

Lemma between_Forall_all (P : Q → Prop) (l : list Q) (a b : nat) :
  Forall P l → Forall P (between l a b).
Proof.
  intros H. unfold between. by apply Forall_drop, Forall_take.
Qed.

(** A property of the deltas between positions [a] and [b+1] of the
    prices carries over to the slice of a column computed from them. *)
Lemma between_deltas_Forall (f : Q → Q) (P : Q → Prop) (l : list Q) (a b : nat) :
  (∀ j x y, (a ≤ j ≤ b)%nat → l !! j = Some x → l !! S j = Some y →
            P (f (y - x))) →
  Forall P (between (f <$> deltasQ l) a b).
Proof.
  intros H. apply between_Forall. intros j v Hj Hv.
  rewrite list_lookup_fmap in Hv.
  destruct (deltasQ l !! j) as [d|] eqn:Hd; [|done].
  inversion Hv; subst v.
  apply deltasQ_lookup_inv in Hd as (x & y & Hx & Hy & ->).
  by apply (H j).
Qed.

Lemma between_deltas_Exists (f : Q → Q) (P : Q → Prop) (l : list Q)
    (a b j : nat) (x y : Q) :
  (a ≤ j ≤ b)%nat → l !! j = Some x → l !! S j = Some y → P (f (y - x)) →
  Exists P (between (f <$> deltasQ l) a b).
Proof.
  intros Hj Hx Hy HP. apply Exists_exists. exists (f (y - x)).
  split; [|done]. apply list_elem_of_lookup. exists (j - a)%nat.
  rewrite between_lookup by lia. replace (a + (j - a))%nat with j by lia.
  rewrite list_lookup_fmap. by rewrite (deltasQ_lookup l j x y Hx Hy).
Qed.

Lemma where_gains_length (closes : list Q) :
  length (where_gains closes) = length closes.
Proof.
  destruct closes as [|q l]; [done|]. unfold where_gains.
  cbn [length]. rewrite length_fmap, deltasQ_length. done.
Qed.

Lemma where_losses_length (closes : list Q) :
  length (where_losses closes) = length closes.
Proof.
  destruct closes as [|q l]; [done|]. unfold where_losses.
  cbn [length]. rewrite length_fmap, deltasQ_length. done.
Qed.

Lemma streamlit_gain_eq (closes : list Q) :
  Streamlit.gain (of_reals closes) = of_reals (where_gains closes).
Proof.
  destruct closes as [|q l]; [done|]. apply streamlit_gain_reals.
Qed.

Lemma streamlit_loss_eq (closes : list Q) :
  Streamlit.loss (of_reals closes) = of_reals (where_losses closes).
Proof.
  destruct closes as [|q l]; [done|]. apply streamlit_loss_reals.
Qed.

Lemma fmap_nonneg (f : Q → Q) (l : list Q) :
  (∀ d, 0 <= f d) → Forall (fun x => 0 <= x) (f <$> l).
Proof.
  intros H. apply Forall_fmap, Forall_true. intros d. apply H.
Qed.

Lemma where_gains_nonneg (closes : list Q) :
  Forall (fun x => 0 <= x) (where_gains closes).
Proof.
  destruct closes as [|q l]; [constructor|]. unfold where_gains.
  constructor; [lra|]. apply fmap_nonneg, where_gain_nonneg.
Qed.

Lemma where_losses_nonneg (closes : list Q) :
  Forall (fun x => 0 <= x) (where_losses closes).
Proof.
  destruct closes as [|q l]; [constructor|]. unfold where_losses.
  constructor; [lra|]. apply fmap_nonneg, where_loss_nonneg.
Qed.

(** Before position [p-1] the window is short. *)
Lemma streamlit_avg_gain_early (closes : list Q) (p i : nat) :
  (i < length closes)%nat → (S i < p)%nat →
  Streamlit.avg_gain p (of_reals closes) !! i = Some NaN.
Proof.
  intros Hi Hp. unfold Streamlit.avg_gain.
  apply rolling_mean_undefined; [|done].
  by rewrite streamlit_gain_eq, of_reals_length, where_gains_length.
Qed.

Lemma streamlit_avg_loss_early (closes : list Q) (p i : nat) :
  (i < length closes)%nat → (S i < p)%nat →
  Streamlit.avg_loss p (of_reals closes) !! i = Some NaN.
Proof.
  intros Hi Hp. unfold Streamlit.avg_loss.
  apply rolling_mean_undefined; [|done].
  by rewrite streamlit_loss_eq, of_reals_length, where_losses_length.
Qed.

(** From position [p-1] on, the mean of the last [p] entries of the
    column, the replacement value at position 0 included. *)
Lemma streamlit_avg_gain_window (closes : list Q) (p i : nat) :
  (0 < p)%nat → (i < length closes)%nat → (p ≤ S i)%nat →
  Streamlit.avg_gain p (of_reals closes) !! i
  = Some (Num (arith_mean (between (where_gains closes) (S i - p) i))).
Proof.
  intros Hp Hi Hpi. unfold Streamlit.avg_gain. rewrite streamlit_gain_eq.
  apply rolling_mean_defined; [done| |done]. by rewrite where_gains_length.
Qed.

Lemma streamlit_avg_loss_window (closes : list Q) (p i : nat) :
  (0 < p)%nat → (i < length closes)%nat → (p ≤ S i)%nat →
  Streamlit.avg_loss p (of_reals closes) !! i
  = Some (Num (arith_mean (between (where_losses closes) (S i - p) i))).
Proof.
  intros Hp Hi Hpi. unfold Streamlit.avg_loss. rewrite streamlit_loss_eq.
  apply rolling_mean_defined; [done| |done]. by rewrite where_losses_length.
Qed.

(** From position [p] on the window holds [p] true deltas. *)
Lemma streamlit_avg_gain_defined (closes : list Q) (p i : nat) :
  (0 < p)%nat → (i < length closes)%nat → (p ≤ i)%nat →
  Streamlit.avg_gain p (of_reals closes) !! i
  = Some (Num (arith_mean
                 (between (where_gain <$> deltasQ closes) (i - p) (i - 1)))).
Proof.
  intros Hp Hi Hpi. rewrite streamlit_avg_gain_window by lia.
  destruct closes as [|q l]; [cbn in Hi; lia|]. unfold where_gains.
  replace (S i - p)%nat with (S (i - p)) by lia.
  replace i with (S (i - 1)) at 2 by lia. by rewrite between_cons.
Qed.

Lemma streamlit_avg_loss_defined (closes : list Q) (p i : nat) :
  (0 < p)%nat → (i < length closes)%nat → (p ≤ i)%nat →
  Streamlit.avg_loss p (of_reals closes) !! i
  = Some (Num (arith_mean
                 (between (where_loss <$> deltasQ closes) (i - p) (i - 1)))).
Proof.
  intros Hp Hi Hpi. rewrite streamlit_avg_loss_window by lia.
  destruct closes as [|q l]; [cbn in Hi; lia|]. unfold where_losses.
  replace (S i - p)%nat with (S (i - p)) by lia.
  replace i with (S (i - 1)) at 2 by lia. by rewrite between_cons.
Qed.

Lemma deltas_slice_length (f : Q → Q) (closes : list Q) (p i : nat) :
  (0 < p)%nat → (i < length closes)%nat → (p ≤ i)%nat →
  length (between (f <$> deltasQ closes) (i - p) (i - 1)) = p.
Proof.
  intros Hp Hi Hpi. rewrite between_length.
  - lia.
  - rewrite length_fmap, deltasQ_length. lia.
Qed.

(** The other script: position 0 is NaN, position [k+1] is the [k]-th
    value of the pass over the true gains. *)
Lemma dashboard_avg_gain_0 (closes : list Q) (p : nat) :
  (0 < length closes)%nat →
  Dashboard.avg_gain p (of_reals closes) !! 0%nat = Some NaN.
Proof.
  intros H. destruct closes as [|q l]; [cbn in H; lia|].
  unfold Dashboard.avg_gain. by rewrite dashboard_gain_reals.
Qed.

Lemma dashboard_avg_loss_0 (closes : list Q) (p : nat) :
  (0 < length closes)%nat →
  Dashboard.avg_loss p (of_reals closes) !! 0%nat = Some NaN.
Proof.
  intros H. destruct closes as [|q l]; [cbn in H; lia|].
  unfold Dashboard.avg_loss. by rewrite dashboard_loss_reals.
Qed.

Lemma dashboard_avg_gain_S (closes : list Q) (p k : nat) :
  (1 ≤ p)%nat →
  Dashboard.avg_gain p (of_reals closes) !! S k
  = Num <$> ewm_reals (old_wt_factor p) (clip_gain <$> deltasQ closes) !! k.
Proof.
  intros Hp. destruct closes as [|q l]; [done|].
  rewrite dashboard_avg_gain_reals by done.
  change ((?y :: ?ys) !! S k) with (ys !! k). apply of_reals_lookup.
Qed.

Lemma dashboard_avg_loss_S (closes : list Q) (p k : nat) :
  (1 ≤ p)%nat →
  Dashboard.avg_loss p (of_reals closes) !! S k
  = Num <$> ewm_reals (old_wt_factor p) (clip_loss <$> deltasQ closes) !! k.
Proof.
  intros Hp. destruct closes as [|q l]; [done|].
  rewrite dashboard_avg_loss_reals by done.
  change ((?y :: ?ys) !! S k) with (ys !! k). apply of_reals_lookup.
Qed.

Lemma dashboard_gain_S (closes : list Q) (k : nat) :
  Dashboard.gain (of_reals closes) !! S k
  = Num <$> (clip_gain <$> deltasQ closes) !! k.
Proof.
  destruct closes as [|q l]; [done|]. rewrite dashboard_gain_reals.
  change ((?y :: ?ys) !! S k) with (ys !! k). apply of_reals_lookup.
Qed.

Lemma dashboard_loss_S (closes : list Q) (k : nat) :
  Dashboard.loss (of_reals closes) !! S k
  = Num <$> (clip_loss <$> deltasQ closes) !! k.
Proof.
  destruct closes as [|q l]; [done|]. rewrite dashboard_loss_reals.
  change ((?y :: ?ys) !! S k) with (ys !! k). apply of_reals_lookup.
Qed.

Lemma ewm_reals_length (f : Q) (xs : list Q) :
  length (ewm_reals f xs) = length xs.
Proof.
  destruct xs as [|x xs]; [done|]. cbn [ewm_reals length].
  by rewrite ewmQ_length.
Qed.

(** ** The moving averages *)

(** C4. For a window [w > 0] and a position [i] of a series of finite
    prices, the moving average is undefined (NaN) when [i < w-1] and is
    the arithmetic mean of [Close[i-w+1 .. i]] when [i >= w-1]; on a
    constant series of value [k] every defined value equals [k]. *)
Theorem sma_window_mean (closes : list Q) (w i : nat) :
  (0 < w)%nat → (i < length closes)%nat →
  ((i < w - 1)%nat → sma w (of_reals closes) !! i = Some NaN)
  ∧ ((w - 1 ≤ i)%nat →
     sma w (of_reals closes) !! i
     = Some (Num (arith_mean (between closes (i + 1 - w) i))))
  ∧ (∀ k, Forall (fun c => c == k) closes → (w - 1 ≤ i)%nat →
     ∃ m, sma w (of_reals closes) !! i = Some (Num m) ∧ m == k).
Proof.
  intros Hw Hi. unfold sma. split; [|split].
  - intros Hlt. apply rolling_mean_undefined.
    + by rewrite of_reals_length.
    + lia.
  - intros Hge. replace (i + 1 - w)%nat with (S i - w)%nat by lia.
    apply rolling_mean_defined; [done|done|lia].
  - intros k Hk Hge. eexists. split.
    + apply rolling_mean_defined; [done|done|lia].
    + apply arith_mean_const.
      * rewrite between_length by done. lia.
      * by apply between_Forall_all.
Qed.

Lemma sma_window_mean_witness :
  sma 3 (of_reals scenario) !! 1%nat = Some NaN
  ∧ sma 3 (of_reals scenario) !! 2%nat
    = Some (Num (arith_mean (between scenario 0 2)))
  ∧ arith_mean (between scenario 0 2) == 11
  ∧ ∃ m, sma 3 (of_reals [7; 7; 7; 7]) !! 3%nat = Some (Num m) ∧ m == 7.
Proof.
  split; [|split; [|split]].
  - apply (sma_window_mean scenario 3 1); simpl; lia.
  - apply (sma_window_mean scenario 3 2); simpl; lia.
  - reflexivity.
  - apply (sma_window_mean [7; 7; 7; 7] 3 3); simpl; try lia.
    repeat constructor.
Defined.

(** ** The RSI stays between 0 and 100 *)

(** On finite prices each smoothed average is NaN or a non-negative
    number, under either rule. *)
Lemma streamlit_avg_gain_range (closes : list Q) (p i : nat) (v : Float) :
  (0 < p)%nat → Streamlit.avg_gain p (of_reals closes) !! i = Some v →
  v = NaN ∨ ∃ g, v = Num g ∧ 0 <= g.
Proof.
  intros Hp Hv.
  assert (i < length closes)%nat as Hi.
  { apply lookup_lt_Some in Hv. unfold Streamlit.avg_gain in Hv.
    by rewrite rolling_mean_length, streamlit_gain_eq, of_reals_length,
      where_gains_length in Hv. }
  destruct (Nat.lt_ge_cases (S i) p) as [Hlt|Hge].
  - rewrite streamlit_avg_gain_early in Hv by done. left. congruence.
  - rewrite streamlit_avg_gain_window in Hv by done. right.
    eexists. split; [by inversion Hv|]. apply arith_mean_nonneg.
    + rewrite between_length by (by rewrite where_gains_length). lia.
    + apply between_Forall_all, where_gains_nonneg.
Qed.

Lemma streamlit_avg_loss_range (closes : list Q) (p i : nat) (v : Float) :
  (0 < p)%nat → Streamlit.avg_loss p (of_reals closes) !! i = Some v →
  v = NaN ∨ ∃ l, v = Num l ∧ 0 <= l.
Proof.
  intros Hp Hv.
  assert (i < length closes)%nat as Hi.
  { apply lookup_lt_Some in Hv. unfold Streamlit.avg_loss in Hv.
    by rewrite rolling_mean_length, streamlit_loss_eq, of_reals_length,
      where_losses_length in Hv. }
  destruct (Nat.lt_ge_cases (S i) p) as [Hlt|Hge].
  - rewrite streamlit_avg_loss_early in Hv by done. left. congruence.
  - rewrite streamlit_avg_loss_window in Hv by done. right.
    eexists. split; [by inversion Hv|]. apply arith_mean_nonneg.
    + rewrite between_length by (by rewrite where_losses_length). lia.
    + apply between_Forall_all, where_losses_nonneg.
Qed.

Lemma dashboard_avg_gain_range (closes : list Q) (p i : nat) (v : Float) :
  (0 < p)%nat → Dashboard.avg_gain p (of_reals closes) !! i = Some v →
  v = NaN ∨ ∃ g, v = Num g ∧ 0 <= g.
Proof.
  intros Hp Hv. destruct i as [|k].
  - rewrite dashboard_avg_gain_0 in Hv.
    + left. congruence.
    + destruct closes; [done|cbn; lia].
  - rewrite dashboard_avg_gain_S in Hv by lia.
    destruct (ewm_reals _ _ !! k) as [g|] eqn:Hg; [|done].
    right. exists g. split; [by inversion Hv|].
    pose proof (ewm_reals_nonneg (old_wt_factor p)
                  (old_wt_factor_nonneg p ltac:(lia)) _
                  (fmap_nonneg clip_gain (deltasQ closes) clip_gain_nonneg))
      as Hall.
    rewrite Forall_lookup in Hall. by apply (Hall k).
Qed.

Lemma dashboard_avg_loss_range (closes : list Q) (p i : nat) (v : Float) :
  (0 < p)%nat → Dashboard.avg_loss p (of_reals closes) !! i = Some v →
  v = NaN ∨ ∃ l, v = Num l ∧ 0 <= l.
Proof.
  intros Hp Hv. destruct i as [|k].
  - rewrite dashboard_avg_loss_0 in Hv.
    + left. congruence.
    + destruct closes; [done|cbn; lia].
  - rewrite dashboard_avg_loss_S in Hv by lia.
    destruct (ewm_reals _ _ !! k) as [l|] eqn:Hl; [|done].
    right. exists l. split; [by inversion Hv|].
    pose proof (ewm_reals_nonneg (old_wt_factor p)
                  (old_wt_factor_nonneg p ltac:(lia)) _
                  (fmap_nonneg clip_loss (deltasQ closes) clip_loss_nonneg))
      as Hall.
    rewrite Forall_lookup in Hall. by apply (Hall k).
Qed.

Lemma rsi_of_range (ag al : Series) (i : nat) (v : Float) :
  (∀ x, ag !! i = Some x → x = NaN ∨ ∃ g, x = Num g ∧ 0 <= g) →
  (∀ x, al !! i = Some x → x = NaN ∨ ∃ l, x = Num l ∧ 0 <= l) →
  rsi_of ag al !! i = Some v →
  v = NaN ∨ ∃ r, v = Num r ∧ 0 <= r <= 100.
Proof.
  intros Hg Hl Hv. rewrite rsi_of_lookup in Hv.
  destruct (ag !! i) as [x|]; [|done].
  destruct (al !! i) as [y|]; [|done].
  inversion Hv; subst v.
  destruct (Hg x eq_refl) as [->|(g & -> & Hg0)]; [by left|].
  destruct (Hl y eq_refl) as [->|(l & -> & Hl0)]; [by left|].
  by apply rsi_at_bounded.
Qed.

(** C5. On finite prices and for every lookback [p > 0], each value of
    the RSI column that is defined (not NaN) lies between 0 and 100, in
    [gold_dashboard.py] (exponential smoothing) as in
    [gold_dashboard_streamlit.py] (simple smoothing). *)
Theorem rsi_bounded (closes : list Q) (p i : nat) (v : Float) :
  (0 < p)%nat →
  Dashboard.RSI p (of_reals closes) !! i = Some v
  ∨ Streamlit.RSI p (of_reals closes) !! i = Some v →
  v = NaN ∨ ∃ r, v = Num r ∧ 0 <= r <= 100.
Proof.
  intros Hp [Hv|Hv]; revert Hv; apply rsi_of_range; intros x Hx.
  - by apply (dashboard_avg_gain_range closes p i).
  - by apply (dashboard_avg_loss_range closes p i).
  - by apply (streamlit_avg_gain_range closes p i).
  - by apply (streamlit_avg_loss_range closes p i).
Qed.

Lemma rsi_bounded_witness :
  ∃ v, Streamlit.RSI 3 (of_reals scenario) !! 3%nat = Some v
       ∧ (v = NaN ∨ ∃ r, v = Num r ∧ 0 <= r <= 100).
Proof.
  eexists. split; [reflexivity|].
  apply (rsi_bounded scenario 3 3); [lia|]. right. reflexivity.
Defined.

(** ** Saturation and floor of the RSI *)

Lemma rsi_of_saturated (ag al : Series) (i : nat) (g l : Q) :
  ag !! i = Some (Num g) → al !! i = Some (Num l) → 0 < g → l == 0 →
  ∃ r, rsi_of ag al !! i = Some (Num r) ∧ r == 100.
Proof.
  intros Hg Hl Hg0 Hl0. rewrite rsi_of_lookup, Hg, Hl.
  destruct (rsi_at_saturated g l Hg0 Hl0) as (r & Hr & Heq).
  exists r. by rewrite Hr.
Qed.

Lemma rsi_of_floor (ag al : Series) (i : nat) (g l : Q) :
  ag !! i = Some (Num g) → al !! i = Some (Num l) → g == 0 → 0 < l →
  ∃ r, rsi_of ag al !! i = Some (Num r) ∧ r == 0.
Proof.
  intros Hg Hl Hg0 Hl0. rewrite rsi_of_lookup, Hg, Hl.
  rewrite rsi_at_regular by lra. eexists. split; [done|].
  by apply rsi_value_floor.
Qed.

Lemma rsi_of_flat (ag al : Series) (i : nat) (g l : Q) :
  ag !! i = Some (Num g) → al !! i = Some (Num l) → g == 0 → l == 0 →
  rsi_of ag al !! i = Some NaN.
Proof.
  intros Hg Hl Hg0 Hl0. rewrite rsi_of_lookup, Hg, Hl.
  by rewrite rsi_at_flat.
Qed.

(** *** Simple smoothing: the window of the last [p] deltas *)

Section StreamlitWindow.
Variables (closes : list Q) (p i : nat).
Hypothesis p_pos : (0 < p)%nat.
Hypothesis i_range : (p ≤ i < length closes)%nat.

Lemma streamlit_no_fall :
  non_decreasing closes (i - p) i →
  arith_mean (between (where_loss <$> deltasQ closes) (i - p) (i - 1)) == 0.
Proof.
  intros Hmono. apply arith_mean_zero.
  - rewrite deltas_slice_length; lia.
  - apply between_deltas_Forall. intros j x y Hj Hx Hy.
    apply where_loss_no_fall.
    assert (x <= y) by (apply (Hmono j); [lia|done|done]). lra.
Qed.

Lemma streamlit_no_rise :
  non_increasing closes (i - p) i →
  arith_mean (between (where_gain <$> deltasQ closes) (i - p) (i - 1)) == 0.
Proof.
  intros Hmono. apply arith_mean_zero.
  - rewrite deltas_slice_length; lia.
  - apply between_deltas_Forall. intros j x y Hj Hx Hy.
    apply where_gain_no_rise.
    assert (y <= x) by (apply (Hmono j); [lia|done|done]). lra.
Qed.

Lemma streamlit_some_rise :
  rises_in closes (i - p) i →
  0 < arith_mean (between (where_gain <$> deltasQ closes) (i - p) (i - 1)).
Proof.
  intros (j & x & y & Hj & Hx & Hy & Hlt). apply arith_mean_pos.
  - apply between_Forall_all, fmap_nonneg, where_gain_nonneg.
  - apply (between_deltas_Exists _ _ _ _ _ j x y); [lia|done|done|].
    apply where_gain_rise. lra.
Qed.

Lemma streamlit_some_fall :
  falls_in closes (i - p) i →
  0 < arith_mean (between (where_loss <$> deltasQ closes) (i - p) (i - 1)).
Proof.
  intros (j & x & y & Hj & Hx & Hy & Hlt). apply arith_mean_pos.
  - apply between_Forall_all, fmap_nonneg, where_loss_nonneg.
  - apply (between_deltas_Exists _ _ _ _ _ j x y); [lia|done|done|].
    apply where_loss_fall. lra.
Qed.
End StreamlitWindow.

(** *** Exponential smoothing: every delta since the first bar counts *)

Section DashboardHistory.
Variables (closes : list Q) (p k : nat).
Hypothesis p_pos : (1 ≤ p)%nat.
Hypothesis k_range : (S k < length closes)%nat.

Lemma dashboard_avg_values :
  ∃ g l,
    Dashboard.avg_gain p (of_reals closes) !! S k = Some (Num g)
    ∧ Dashboard.avg_loss p (of_reals closes) !! S k = Some (Num l)
    ∧ ewm_reals (old_wt_factor p) (clip_gain <$> deltasQ closes) !! k = Some g
    ∧ ewm_reals (old_wt_factor p) (clip_loss <$> deltasQ closes) !! k = Some l.
Proof.
  destruct (lookup_lt_is_Some_2
              (ewm_reals (old_wt_factor p) (clip_gain <$> deltasQ closes)) k)
    as [g Hg].
  { rewrite ewm_reals_length, length_fmap, deltasQ_length. lia. }
  destruct (lookup_lt_is_Some_2
              (ewm_reals (old_wt_factor p) (clip_loss <$> deltasQ closes)) k)
    as [l Hl].
  { rewrite ewm_reals_length, length_fmap, deltasQ_length. lia. }
  exists g, l. rewrite dashboard_avg_gain_S, dashboard_avg_loss_S by done.
  by rewrite Hg, Hl.
Qed.

Lemma dashboard_no_fall (l : Q) :
  non_decreasing closes 0 (S k) →
  ewm_reals (old_wt_factor p) (clip_loss <$> deltasQ closes) !! k = Some l →
  l == 0.
Proof.
  intros Hmono. apply ewm_reals_zero; [by apply old_wt_factor_nonneg|].
  intros j v Hj Hv. rewrite list_lookup_fmap in Hv.
  destruct (deltasQ closes !! j) as [d|] eqn:Hd; [|done].
  inversion Hv; subst v.
  apply deltasQ_lookup_inv in Hd as (x & y & Hx & Hy & ->).
  apply clip_loss_no_fall.
  assert (x <= y) by (apply (Hmono j); [lia|done|done]). lra.
Qed.

Lemma dashboard_no_rise (g : Q) :
  non_increasing closes 0 (S k) →
  ewm_reals (old_wt_factor p) (clip_gain <$> deltasQ closes) !! k = Some g →
  g == 0.
Proof.
  intros Hmono. apply ewm_reals_zero; [by apply old_wt_factor_nonneg|].
  intros j v Hj Hv. rewrite list_lookup_fmap in Hv.
  destruct (deltasQ closes !! j) as [d|] eqn:Hd; [|done].
  inversion Hv; subst v.
  apply deltasQ_lookup_inv in Hd as (x & y & Hx & Hy & ->).
  apply clip_gain_no_rise.
  assert (y <= x) by (apply (Hmono j); [lia|done|done]). lra.
Qed.

Hypothesis p_ge2 : (2 ≤ p)%nat.

Lemma dashboard_some_rise (g : Q) :
  rises_in closes 0 (S k) →
  ewm_reals (old_wt_factor p) (clip_gain <$> deltasQ closes) !! k = Some g →
  0 < g.
Proof.
  intros (j & x & y & Hj & Hx & Hy & Hlt).
  apply (ewm_reals_pos _ (old_wt_factor_nonneg p p_pos)
           (old_wt_factor_pos p p_ge2) _ j k
           (clip_gain (y - x))).
  - apply fmap_nonneg, clip_gain_nonneg.
  - rewrite list_lookup_fmap. by rewrite (deltasQ_lookup _ _ _ _ Hx Hy).
  - apply clip_gain_rise. lra.
  - lia.
Qed.

Lemma dashboard_some_fall (l : Q) :
  falls_in closes 0 (S k) →
  ewm_reals (old_wt_factor p) (clip_loss <$> deltasQ closes) !! k = Some l →
  0 < l.
Proof.
  intros (j & x & y & Hj & Hx & Hy & Hlt).
  apply (ewm_reals_pos _ (old_wt_factor_nonneg p p_pos)
           (old_wt_factor_pos p p_ge2) _ j k
           (clip_loss (y - x))).
  - apply fmap_nonneg, clip_loss_nonneg.
  - rewrite list_lookup_fmap. by rewrite (deltasQ_lookup _ _ _ _ Hx Hy).
  - apply clip_loss_fall. lra.
  - lia.
Qed.
End DashboardHistory.

(** Monotonicity of a concrete list, position by position. *)
Ltac by_positions j Hj Hx Hy :=
  do 20 (destruct j as [|j];
         [try lia; try (inversion Hx; inversion Hy; subst; cbv; congruence)|]);
  lia.

Ltac solve_monotone :=
  let j := fresh "j" in let x := fresh "x" in let y := fresh "y" in
  let Hj := fresh "Hj" in let Hx := fresh "Hx" in let Hy := fresh "Hy" in
  intros j x y Hj Hx Hy; by_positions j Hj Hx Hy.

(** C2 (as amended). Let [p > 0].  At a position where the smoothed loss
    is 0 and the smoothed gain is positive, the RSI is 100, in both
    scripts.  With simple smoothing, prices that do not fall and rise at
    least once over the positions [i-p .. i] (with [i >= p]) give a zero
    smoothed loss and an RSI of 100 at [i]; with exponential smoothing
    (span at least 2) the same holds when the prices do not fall and rise
    at least once over all the positions [0 .. i]. *)
Theorem rsi_saturates (closes : list Q) (p i : nat) :
  (0 < p)%nat →
  (∀ g l, 0 < g → l == 0 →
     (Dashboard.avg_gain p (of_reals closes) !! i = Some (Num g) →
      Dashboard.avg_loss p (of_reals closes) !! i = Some (Num l) →
      ∃ r, Dashboard.RSI p (of_reals closes) !! i = Some (Num r) ∧ r == 100)
     ∧ (Streamlit.avg_gain p (of_reals closes) !! i = Some (Num g) →
        Streamlit.avg_loss p (of_reals closes) !! i = Some (Num l) →
        ∃ r, Streamlit.RSI p (of_reals closes) !! i = Some (Num r) ∧ r == 100))
  ∧ ((p ≤ i < length closes)%nat →
     non_decreasing closes (i - p) i → rises_in closes (i - p) i →
     ∃ l r, Streamlit.avg_loss p (of_reals closes) !! i = Some (Num l)
            ∧ l == 0
            ∧ Streamlit.RSI p (of_reals closes) !! i = Some (Num r)
            ∧ r == 100)
  ∧ ((2 ≤ p)%nat → (1 ≤ i < length closes)%nat →
     non_decreasing closes 0 i → rises_in closes 0 i →
     ∃ l r, Dashboard.avg_loss p (of_reals closes) !! i = Some (Num l)
            ∧ l == 0
            ∧ Dashboard.RSI p (of_reals closes) !! i = Some (Num r)
            ∧ r == 100).
Proof.
  intros Hp. split; [|split].
  - intros g l Hg Hl. split; intros Hag Hal.
    + by apply (rsi_of_saturated _ _ i g l).
    + by apply (rsi_of_saturated _ _ i g l).
  - intros Hi Hmono Hrise.
    pose proof (streamlit_avg_gain_defined closes p i Hp ltac:(lia) ltac:(lia))
      as Hag.
    pose proof (streamlit_avg_loss_defined closes p i Hp ltac:(lia) ltac:(lia))
      as Hal.
    assert (arith_mean (between (where_loss <$> deltasQ closes) (i - p) (i - 1))
            == 0) as Hl0 by (apply streamlit_no_fall; first [done|lia]).
    assert (0 < arith_mean
                  (between (where_gain <$> deltasQ closes) (i - p) (i - 1)))
      as Hg0 by (apply streamlit_some_rise; first [done|lia]).
    destruct (rsi_of_saturated _ _ i _ _ Hag Hal Hg0 Hl0) as (r & Hr & Heq).
    eexists _, r. done.
  - intros Hp2 Hi Hmono Hrise. destruct i as [|k]; [lia|].
    destruct (dashboard_avg_values closes p k ltac:(lia) ltac:(lia))
      as (g & l & Hag & Hal & Hg & Hl).
    assert (l == 0) as Hl0
      by (apply (dashboard_no_fall closes p k); first [done|lia]).
    assert (0 < g) as Hg0
      by (apply (dashboard_some_rise closes p k); first [done|lia]).
    destruct (rsi_of_saturated _ _ (S k) _ _ Hag Hal Hg0 Hl0) as (r & Hr & Heq).
    exists l, r. done.
Qed.

Lemma rsi_saturates_witness :
  (∃ l r, Streamlit.avg_loss 2 (of_reals short_rise) !! 3%nat = Some (Num l)
          ∧ l == 0
          ∧ Streamlit.RSI 2 (of_reals short_rise) !! 3%nat = Some (Num r)
          ∧ r == 100)
  ∧ (∃ l r, Dashboard.avg_loss 2 (of_reals short_rise) !! 3%nat = Some (Num l)
            ∧ l == 0
            ∧ Dashboard.RSI 2 (of_reals short_rise) !! 3%nat = Some (Num r)
            ∧ r == 100).
Proof.
  assert (non_decreasing short_rise 0 3) as Hall by solve_monotone.
  assert (non_decreasing short_rise (3 - 2) 3) as Hwin by solve_monotone.
  assert (rises_in short_rise 0 3) as Hrise0.
  { exists 2%nat, 3, 4. repeat split; (lia || done). }
  assert (rises_in short_rise (3 - 2) 3) as Hrise.
  { exists 2%nat, 3, 4. repeat split; (lia || done). }
  split.
  - apply (rsi_saturates short_rise 2 3); [lia|cbn; lia|done|done].
  - apply (rsi_saturates short_rise 2 3); [lia|lia|cbn; lia|done|done].
Defined.

(** On a flat window the smoothed loss is 0 and the RSI is NaN, not 100;
    with exponential smoothing a fall before the last 14 deltas keeps the
    RSI below 100 although the prices only rise over those deltas. *)
Lemma rsi_no_loss_not_100 :
  (∃ g l,
      Streamlit.avg_gain 14 (of_reals flat_closes) !! 14%nat = Some (Num g)
      ∧ Streamlit.avg_loss 14 (of_reals flat_closes) !! 14%nat = Some (Num l)
      ∧ l == 0
      ∧ non_decreasing flat_closes (14 - 14) 14
      ∧ Streamlit.RSI 14 (of_reals flat_closes) !! 14%nat = Some NaN)
  ∧ (non_decreasing dip_then_rise (16 - 14) 16
     ∧ ∃ r, Dashboard.RSI 14 (of_reals dip_then_rise) !! 16%nat = Some (Num r)
            ∧ r < 100).
Proof.
  split.
  - eexists _, _. split; [vm_compute; reflexivity|].
    split; [vm_compute; reflexivity|].
    split; [vm_compute; reflexivity|].
    split; [solve_monotone|]. vm_compute. reflexivity.
  - split; [solve_monotone|].
    eexists. split; [vm_compute; reflexivity|]. vm_compute. reflexivity.
Qed.

(** C8 (as amended). Let [p > 0].  With simple smoothing, prices that do
    not rise and fall at least once over the positions [i-p .. i] (with
    [i >= p]) give a zero smoothed gain and an RSI of 0 at [i]; with
    exponential smoothing (span at least 2) the same holds when the
    prices do not rise and fall at least once over all the positions
    [0 .. i]. *)
Theorem rsi_floor (closes : list Q) (p i : nat) :
  (0 < p)%nat →
  ((p ≤ i < length closes)%nat →
   non_increasing closes (i - p) i → falls_in closes (i - p) i →
   ∃ g r, Streamlit.avg_gain p (of_reals closes) !! i = Some (Num g)
          ∧ g == 0
          ∧ Streamlit.RSI p (of_reals closes) !! i = Some (Num r)
          ∧ r == 0)
  ∧ ((2 ≤ p)%nat → (1 ≤ i < length closes)%nat →
     non_increasing closes 0 i → falls_in closes 0 i →
     ∃ g r, Dashboard.avg_gain p (of_reals closes) !! i = Some (Num g)
            ∧ g == 0
            ∧ Dashboard.RSI p (of_reals closes) !! i = Some (Num r)
            ∧ r == 0).
Proof.
  intros Hp. split.
  - intros Hi Hmono Hfall.
    pose proof (streamlit_avg_gain_defined closes p i Hp ltac:(lia) ltac:(lia))
      as Hag.
    pose proof (streamlit_avg_loss_defined closes p i Hp ltac:(lia) ltac:(lia))
      as Hal.
    assert (arith_mean (between (where_gain <$> deltasQ closes) (i - p) (i - 1))
            == 0) as Hg0 by (apply streamlit_no_rise; first [done|lia]).
    assert (0 < arith_mean
                  (between (where_loss <$> deltasQ closes) (i - p) (i - 1)))
      as Hl0 by (apply streamlit_some_fall; first [done|lia]).
    destruct (rsi_of_floor _ _ i _ _ Hag Hal Hg0 Hl0) as (r & Hr & Heq).
    eexists _, r. done.
  - intros Hp2 Hi Hmono Hfall. destruct i as [|k]; [lia|].
    destruct (dashboard_avg_values closes p k ltac:(lia) ltac:(lia))
      as (g & l & Hag & Hal & Hg & Hl).
    assert (g == 0) as Hg0
      by (apply (dashboard_no_rise closes p k); first [done|lia]).
    assert (0 < l) as Hl0
      by (apply (dashboard_some_fall closes p k); first [done|lia]).
    destruct (rsi_of_floor _ _ (S k) _ _ Hag Hal Hg0 Hl0) as (r & Hr & Heq).
    exists g, r. done.
Qed.

Lemma rsi_floor_witness :
  (∃ g r, Streamlit.avg_gain 2 (of_reals short_fall) !! 3%nat = Some (Num g)
          ∧ g == 0
          ∧ Streamlit.RSI 2 (of_reals short_fall) !! 3%nat = Some (Num r)
          ∧ r == 0)
  ∧ (∃ g r, Dashboard.avg_gain 2 (of_reals short_fall) !! 3%nat = Some (Num g)
            ∧ g == 0
            ∧ Dashboard.RSI 2 (of_reals short_fall) !! 3%nat = Some (Num r)
            ∧ r == 0).
Proof.
  assert (non_increasing short_fall 0 3) as Hall by solve_monotone.
  assert (non_increasing short_fall (3 - 2) 3) as Hwin by solve_monotone.
  assert (falls_in short_fall 0 3) as Hfall0.
  { exists 2%nat, 2, 1. repeat split; (lia || done). }
  assert (falls_in short_fall (3 - 2) 3) as Hfall.
  { exists 2%nat, 2, 1. repeat split; (lia || done). }
  split.
  - apply (rsi_floor short_fall 2 3); [lia|cbn; lia|done|done].
  - apply (rsi_floor short_fall 2 3); [lia|lia|cbn; lia|done|done].
Defined.

(** On a flat window the smoothed gain is 0 and the RSI is NaN, not 0;
    with exponential smoothing a rise before the last 14 deltas keeps the
    RSI above 0 although the prices only fall over those deltas. *)
Lemma rsi_no_gain_not_0 :
  (∃ g l,
      Dashboard.avg_gain 14 (of_reals flat_closes) !! 14%nat = Some (Num g)
      ∧ Dashboard.avg_loss 14 (of_reals flat_closes) !! 14%nat = Some (Num l)
      ∧ g == 0
      ∧ non_increasing flat_closes (14 - 14) 14
      ∧ Dashboard.RSI 14 (of_reals flat_closes) !! 14%nat = Some NaN
      ∧ Streamlit.RSI 14 (of_reals flat_closes) !! 14%nat = Some NaN)
  ∧ (non_increasing bump_then_fall (16 - 14) 16
     ∧ ∃ r, Dashboard.RSI 14 (of_reals bump_then_fall) !! 16%nat = Some (Num r)
            ∧ 0 < r).
Proof.
  split.
  - eexists _, _. split; [vm_compute; reflexivity|].
    split; [vm_compute; reflexivity|].
    split; [vm_compute; reflexivity|].
    split; [solve_monotone|]. split; vm_compute; reflexivity.
  - split; [solve_monotone|].
    eexists. split; [vm_compute; reflexivity|]. vm_compute. reflexivity.
Qed.

(** ** Warm-up of the simple rule *)

Lemma rsi_at_nan_iff (g l : Q) :
  0 <= g → 0 <= l → (rsi_at (Num g) (Num l) = NaN ↔ g == 0 ∧ l == 0).
Proof.
  intros Hg Hl. split.
  - intros Hnan. destruct (Qlt_le_dec 0 l) as [Hpos|Hle].
    + rewrite rsi_at_regular in Hnan by done. done.
    + assert (l == 0) as Hl0 by lra.
      destruct (Qlt_le_dec 0 g) as [Hgpos|Hgle].
      * destruct (rsi_at_saturated g l Hgpos Hl0) as (r & Hr & _). congruence.
      * split; [lra|done].
  - intros [Hg0 Hl0]. by apply rsi_at_flat.
Qed.

Lemma streamlit_delta_0 (closes : list Q) :
  (0 < length closes)%nat →
  Streamlit.delta (of_reals closes) !! 0%nat = Some NaN.
Proof.
  intros H. destruct closes as [|q l]; [cbn in H; lia|].
  unfold Streamlit.delta. by rewrite diff_of_reals.
Qed.

Lemma streamlit_delta_S (closes : list Q) (j : nat) (x y : Q) :
  closes !! j = Some x → closes !! S j = Some y →
  Streamlit.delta (of_reals closes) !! S j = Some (Num (y - x)).
Proof.
  intros Hx Hy. destruct closes as [|q l]; [done|].
  unfold Streamlit.delta. rewrite diff_of_reals.
  change ((?a :: ?b) !! S j) with (b !! j).
  rewrite of_reals_lookup. by rewrite (deltasQ_lookup _ _ _ _ Hx Hy).
Qed.

(** C7 (as amended). Simple rule, lookback [p > 0], position [i] of a
    series of finite prices.  The delta at position 0 is undefined and
    the delta at a later position is the difference of the two closes.
    For [i < p-1] the smoothed gain, the smoothed loss and the RSI are
    undefined.  For [i >= p] the smoothed gain is the mean of the gains
    at the positions [i-p+1 .. i], likewise the loss, and the RSI is
    defined unless both means are 0. *)
Theorem simple_rsi_warmup (closes : list Q) (p i : nat) :
  (0 < p)%nat → (i < length closes)%nat →
  Streamlit.delta (of_reals closes) !! 0%nat = Some NaN
  ∧ (∀ j x y, closes !! j = Some x → closes !! S j = Some y →
       Streamlit.delta (of_reals closes) !! S j = Some (Num (y - x)))
  ∧ ((S i < p)%nat →
     Streamlit.avg_gain p (of_reals closes) !! i = Some NaN
     ∧ Streamlit.avg_loss p (of_reals closes) !! i = Some NaN
     ∧ Streamlit.RSI p (of_reals closes) !! i = Some NaN)
  ∧ ((p ≤ i)%nat →
     let g := arith_mean
                (between (where_gain <$> deltasQ closes) (i - p) (i - 1)) in
     let l := arith_mean
                (between (where_loss <$> deltasQ closes) (i - p) (i - 1)) in
     Streamlit.avg_gain p (of_reals closes) !! i = Some (Num g)
     ∧ Streamlit.avg_loss p (of_reals closes) !! i = Some (Num l)
     ∧ (Streamlit.RSI p (of_reals closes) !! i = Some NaN
        ↔ g == 0 ∧ l == 0)).
Proof.
  intros Hp Hi. split; [|split; [|split]].
  - apply streamlit_delta_0. lia.
  - apply streamlit_delta_S.
  - intros Hlt.
    pose proof (streamlit_avg_gain_early closes p i Hi Hlt) as Hg.
    pose proof (streamlit_avg_loss_early closes p i Hi Hlt) as Hl.
    split; [done|]. split; [done|].
    unfold Streamlit.RSI. by rewrite rsi_of_lookup, Hg, Hl.
  - intros Hge g l.
    pose proof (streamlit_avg_gain_defined closes p i Hp Hi Hge) as Hg.
    pose proof (streamlit_avg_loss_defined closes p i Hp Hi Hge) as Hl.
    split; [done|]. split; [done|].
    unfold Streamlit.RSI. rewrite rsi_of_lookup, Hg, Hl. fold g l.
    assert (0 <= g) as Hg0.
    { apply arith_mean_nonneg.
      - rewrite deltas_slice_length; lia.
      - apply between_Forall_all, fmap_nonneg, where_gain_nonneg. }
    assert (0 <= l) as Hl0.
    { apply arith_mean_nonneg.
      - rewrite deltas_slice_length; lia.
      - apply between_Forall_all, fmap_nonneg, where_loss_nonneg. }
    rewrite <- (rsi_at_nan_iff g l Hg0 Hl0). split; congruence.
Qed.

Lemma simple_rsi_warmup_witness :
  Streamlit.delta (of_reals scenario) !! 0%nat = Some NaN
  ∧ Streamlit.RSI 3 (of_reals scenario) !! 1%nat = Some NaN
  ∧ Streamlit.avg_gain 3 (of_reals scenario) !! 3%nat
    = Some (Num (arith_mean
                   (between (where_gain <$> deltasQ scenario) 0 2))).
Proof.
  split; [|split].
  - destruct (simple_rsi_warmup scenario 3 1 ltac:(lia) ltac:(simpl; lia))
      as (H & _).
    exact H.
  - destruct (simple_rsi_warmup scenario 3 1 ltac:(lia) ltac:(simpl; lia))
      as (_ & _ & H & _).
    apply H. lia.
  - destruct (simple_rsi_warmup scenario 3 3 ltac:(lia) ltac:(simpl; lia))
      as (_ & _ & _ & H).
    apply H. lia.
Defined.

(** With 14 bars the smoothed gain is already defined at position 13,
    before position [p = 14]; on a flat series the RSI at position 14 is
    still undefined. *)
Lemma simple_rsi_warmup_off :
  (∃ g, Streamlit.avg_gain 14 (of_reals (take 14 dip_then_rise)) !! 13%nat
        = Some (Num g))
  ∧ (∃ g l,
        Streamlit.avg_gain 14 (of_reals flat_closes) !! 14%nat = Some (Num g)
        ∧ Streamlit.avg_loss 14 (of_reals flat_closes) !! 14%nat = Some (Num l)
        ∧ Streamlit.RSI 14 (of_reals flat_closes) !! 14%nat = Some NaN).
Proof.
  split.
  - eexists. vm_compute. reflexivity.
  - eexists _, _. repeat split; vm_compute; reflexivity.
Qed.

(** What the first full window holds: position 0 of the gain column is
    the replacement value 0 of [where], so the mean at position [p-1] is
    taken over that 0 and the [p-1] deltas that exist. *)
Lemma simple_rsi_first_window (closes : list Q) (p : nat) :
  (0 < p)%nat → (p ≤ length closes)%nat →
  Streamlit.gain (of_reals closes) !! 0%nat = Some (Num 0)
  ∧ Streamlit.avg_gain p (of_reals closes) !! (p - 1)%nat
    = Some (Num (arith_mean (between (where_gains closes) 0 (p - 1)))).
Proof.
  intros Hp Hlen. split.
  - rewrite streamlit_gain_eq. destruct closes; [cbn in Hlen; lia|done].
  - rewrite streamlit_avg_gain_window by lia.
    by replace (S (p - 1) - p)%nat with 0%nat by lia.
Qed.

(** ** The recursion of the exponential rule *)

(** The share of the newest observation never falls below the smoothing
    factor [alpha] and never exceeds 1. *)
Lemma geom_alpha_le1 (f : Q) (n : nat) :
  0 <= f → f <= 1 → (1 - f) * geom f n <= 1.
Proof.
  intros Hf Hf1. induction n as [|n IH]; cbn [geom]; [lra|].
  pose proof (geom_nonneg f Hf n). nra.
Qed.

Lemma blend_share_range (p n : nat) :
  (1 ≤ p)%nat → (1 ≤ n)%nat → alpha p <= blend_share p n <= 1.
Proof.
  intros Hp Hn. destruct n as [|n]; [lia|].
  pose proof (alpha_range p Hp) as Ha.
  pose proof (old_wt_factor_nonneg p Hp) as Hf.
  pose proof (geom_ge1 _ Hf n) as Hg.
  pose proof (geom_alpha_le1 (old_wt_factor p) (S n) Hf) as Hle.
  unfold blend_share. split.
  - apply Qle_shift_div_l; [lra|].
    unfold old_wt_factor in *.
    assert (1 - (1 - alpha p) == alpha p) as E by ring.
    rewrite E in Hle. apply Hle. lra.
  - apply Qle_shift_div_r; lra.
Qed.

Lemma dashboard_blend (closes : list Q) (p i : nat) (a x a' : Q)
    (f : Q → Q) (avg col : Series) :
  (1 ≤ p)%nat → (1 ≤ i)%nat →
  (∀ k, avg !! S k = Num <$> ewm_reals (old_wt_factor p) (f <$> deltasQ closes) !! k) →
  (∀ k, col !! S k = Num <$> (f <$> deltasQ closes) !! k) →
  avg !! i = Some (Num a) → col !! S i = Some (Num x) →
  avg !! S i = Some (Num a') →
  a' == (1 - blend_share p (S i)) * a + blend_share p (S i) * x.
Proof.
  intros Hp Hi Havg Hcol Ha Hx Ha'. destruct i as [|k]; [lia|].
  rewrite Havg in Ha, Ha'. rewrite Hcol in Hx.
  destruct (ewm_reals _ _ !! k) as [b|] eqn:Eb; [|done].
  destruct (ewm_reals _ _ !! S k) as [b'|] eqn:Eb'; [|done].
  destruct ((f <$> deltasQ closes) !! S k) as [y|] eqn:Ey; [|done].
  inversion Ha; inversion Ha'; inversion Hx; subst.
  unfold blend_share.
  by apply (ewm_reals_blend _ (old_wt_factor_nonneg p Hp)
              (f <$> deltasQ closes) k).
Qed.

(** C6 (as amended). Exponential rule with span [p >= 1] in
    [gold_dashboard.py].  The smoothed gain is undefined at position 0
    and equals the first gain at position 1.  At each later position it
    is a blend of the previous average and the new gain,
    [avg[i+1] = (1-s)*avg[i] + s*gain[i+1]], whose factor [s] is not the
    constant [alpha = 2/(p+1)] but one over the total weight
    [1 + (1-alpha) + ... + (1-alpha)^i] of the [i+1] gains seen so far;
    [s] is at least [alpha] and at most 1.  The smoothed loss follows the
    same recursion. *)
Theorem ewm_seed_and_blend (closes : list Q) (p : nat) :
  (1 ≤ p)%nat →
  let c := of_reals closes in
  (∀ x, Dashboard.gain c !! 1%nat = Some x →
        Dashboard.avg_gain p c !! 0%nat = Some NaN
        ∧ Dashboard.avg_gain p c !! 1%nat = Some x)
  ∧ (∀ x, Dashboard.loss c !! 1%nat = Some x →
          Dashboard.avg_loss p c !! 0%nat = Some NaN
          ∧ Dashboard.avg_loss p c !! 1%nat = Some x)
  ∧ (∀ i a x a', (1 ≤ i)%nat →
       Dashboard.avg_gain p c !! i = Some (Num a) →
       Dashboard.gain c !! S i = Some (Num x) →
       Dashboard.avg_gain p c !! S i = Some (Num a') →
       a' == (1 - blend_share p (S i)) * a + blend_share p (S i) * x)
  ∧ (∀ i a x a', (1 ≤ i)%nat →
       Dashboard.avg_loss p c !! i = Some (Num a) →
       Dashboard.loss c !! S i = Some (Num x) →
       Dashboard.avg_loss p c !! S i = Some (Num a') →
       a' == (1 - blend_share p (S i)) * a + blend_share p (S i) * x)
  ∧ (∀ n, (1 ≤ n)%nat → alpha p == 2 / (inject_Z (Z.of_nat p) + 1)
                         ∧ alpha p <= blend_share p n <= 1).
Proof.
  intros Hp c. split; [|split; [|split; [|split]]].
  - intros x Hx. subst c. destruct closes as [|q [|q' l]]; [done|done|].
    split; [by apply dashboard_avg_gain_0; cbn; lia|].
    rewrite dashboard_gain_S in Hx. rewrite dashboard_avg_gain_S by done.
    cbn in Hx |- *. done.
  - intros x Hx. subst c. destruct closes as [|q [|q' l]]; [done|done|].
    split; [by apply dashboard_avg_loss_0; cbn; lia|].
    rewrite dashboard_loss_S in Hx. rewrite dashboard_avg_loss_S by done.
    cbn in Hx |- *. done.
  - intros i a x a' Hi. apply (dashboard_blend closes p i a x a' clip_gain);
      [done|done| |].
    + intros k. by apply dashboard_avg_gain_S.
    + intros k. apply dashboard_gain_S.
  - intros i a x a' Hi. apply (dashboard_blend closes p i a x a' clip_loss);
      [done|done| |].
    + intros k. by apply dashboard_avg_loss_S.
    + intros k. apply dashboard_loss_S.
  - intros n Hn. split; [by apply alpha_span|by apply blend_share_range].
Qed.

Lemma ewm_seed_and_blend_witness :
  Dashboard.avg_gain 14 (of_reals [10; 11; 13]) !! 1%nat = Some (Num 1)
  ∧ (645 # 420) == (1 - blend_share 14 2) * 1 + blend_share 14 2 * 2.
Proof.
  destruct (ewm_seed_and_blend [10; 11; 13] 14 ltac:(lia))
    as (Hseed & _ & Hblend & _).
  split.
  - apply (Hseed (Num 1)). reflexivity.
  - apply (Hblend 1%nat 1 2 (645 # 420)); [lia| | |]; reflexivity.
Defined.

(** The second smoothed gain of the prices 10, 11, 13 is 43/28; the
    recursion with the constant factor 2/15 would give 17/15. *)
Lemma ewm_not_constant_alpha :
  ∃ a x a',
    Dashboard.avg_gain 14 (of_reals [10; 11; 13]) !! 1%nat = Some (Num a)
    ∧ Dashboard.gain (of_reals [10; 11; 13]) !! 2%nat = Some (Num x)
    ∧ Dashboard.avg_gain 14 (of_reals [10; 11; 13]) !! 2%nat = Some (Num a')
    ∧ a' == 43 # 28
    ∧ (1 - alpha 14) * a + alpha 14 * x == 17 # 15
    ∧ ¬ a' == (1 - alpha 14) * a + alpha 14 * x.
Proof.
  eexists _, _, _. split; [vm_compute; reflexivity|].
  split; [vm_compute; reflexivity|]. split; [vm_compute; reflexivity|].
  split; [vm_compute; reflexivity|]. split; [vm_compute; reflexivity|].
  vm_compute. discriminate.
Qed.

(** ** Running the scripts *)

Lemma bind_run {A B} (m : M A) (k : A → M B) (h h' : heap) (a : A) :
  m h = Ret (a, h') → bind m k h = k a h'.
Proof. intros H. unfold bind. by rewrite H. Qed.

Lemma bind_raise {A B} (m : M A) (k : A → M B) (h : heap) (e : error) :
  m h = Raise e → bind m k h = Raise e.
Proof. intros H. unfold bind. by rewrite H. Qed.

Lemma read_frame_run (l : loc) (d : DataFrame) (h : heap) :
  h !! l = Some d → read_frame l h = Ret (d, h).
Proof. intros H. unfold read_frame. by rewrite H. Qed.

Lemma getitem_run (l : loc) (c : string) (d : DataFrame) (s : Series) (h : heap) :
  h !! l = Some d → columns d !! c = Some s → getitem l c h = Ret (s, h).
Proof.
  intros Hl Hc. unfold getitem.
  rewrite (bind_run _ _ _ _ _ (read_frame_run l d h Hl)). by rewrite Hc.
Qed.

Lemma setitem_run (l : loc) (c : string) (s : Series) (d : DataFrame) (h : heap) :
  h !! l = Some d →
  setitem l c s h = Ret (tt, <[l := Frame (index d) (<[c := s]> (columns d))]> h).
Proof.
  intros Hl. unfold setitem.
  by rewrite (bind_run _ _ _ _ _ (read_frame_run l d h Hl)).
Qed.

Lemma len_run (l : loc) (d : DataFrame) (h : heap) :
  h !! l = Some d → len l h = Ret (length (index d), h).
Proof.
  intros Hl. unfold len.
  by rewrite (bind_run _ _ _ _ _ (read_frame_run l d h Hl)).
Qed.

Lemma rolling_run (w : Z) (s : Series) (h : heap) :
  (0 ≤ w)%Z → rolling w s h = Ret (rolling_mean (Z.to_nat w) s, h).
Proof.
  intros Hw. unfold rolling. destruct (Z.ltb_spec w 0); [lia|done].
Qed.

Lemma ewm_run (span : Z) (s : Series) (h : heap) :
  (1 ≤ span)%Z → ewm span s h = Ret (ewm_mean (Z.to_nat span) s, h).
Proof.
  intros Hw. unfold ewm. destruct (Z.ltb_spec span 1); [lia|done].
Qed.

(** The three assignments of [gold_dashboard_streamlit.py] on the frame
    at [data]: the frame is extended where it is. *)
Lemma add_indicators_run (fast slow p : Z) (data : loc) (d : DataFrame)
    (close : Series) (h : heap) :
  (0 ≤ fast)%Z → (0 ≤ slow)%Z → (0 ≤ p)%Z →
  h !! data = Some d → columns d !! "Close" = Some close →
  StreamlitScript.add_indicators_with fast slow p data h
  = Ret (tt, <[data := with_indicators d
                         (sma (Z.to_nat fast) close)
                         (sma (Z.to_nat slow) close)
                         (Streamlit.RSI (Z.to_nat p) close)]> h).
Proof.
  intros Hfast Hslow Hp Hd Hclose. unfold StreamlitScript.add_indicators_with.
  rewrite (bind_run _ _ _ _ _ (getitem_run data "Close" d close h Hd Hclose)).
  rewrite (bind_run _ _ _ _ _ (rolling_run fast close h Hfast)).
  rewrite (bind_run _ _ _ _ _ (setitem_run data "SMA_20" _ d h Hd)).
  set (d1 := Frame (index d) (<["SMA_20" := _]> (columns d))).
  set (h1 := <[data := d1]> h).
  assert (h1 !! data = Some d1) as Hd1 by apply lookup_insert_eq.
  assert (columns d1 !! "Close" = Some close) as Hc1.
  { unfold d1. cbn [columns]. by rewrite lookup_insert_ne. }
  rewrite (bind_run _ _ _ _ _ (getitem_run data "Close" d1 close h1 Hd1 Hc1)).
  rewrite (bind_run _ _ _ _ _ (rolling_run slow close h1 Hslow)).
  rewrite (bind_run _ _ _ _ _ (setitem_run data "SMA_50" _ d1 h1 Hd1)).
  set (d2 := Frame (index d1) (<["SMA_50" := _]> (columns d1))).
  set (h2 := <[data := d2]> h1).
  assert (h2 !! data = Some d2) as Hd2 by apply lookup_insert_eq.
  assert (columns d2 !! "Close" = Some close) as Hc2.
  { unfold d2. cbn [columns]. by rewrite lookup_insert_ne. }
  rewrite (bind_run _ _ _ _ _ (getitem_run data "Close" d2 close h2 Hd2 Hc2)).
  cbv zeta.
  rewrite (bind_run _ _ _ _ _ (rolling_run p _ h2 Hp)).
  rewrite (bind_run _ _ _ _ _ (rolling_run p _ h2 Hp)).
  rewrite (setitem_run data "RSI" _ d2 h2 Hd2).
  unfold h2, h1. rewrite !insert_insert_eq. done.
Qed.

(** [get_data] of [gold_dashboard.py] on a non-empty download. *)
Lemma get_data_run (fast slow p : Z) (fetched : DataFrame)
    (close : Series) (h : heap) :
  (0 ≤ fast)%Z → (0 ≤ slow)%Z → (1 ≤ p)%Z →
  frame_empty fetched = false → columns fetched !! "Close" = Some close →
  DashboardScript.get_data_with fast slow p fetched h
  = Ret (fresh (dom h),
         <[fresh (dom h) := with_indicators fetched
                              (sma (Z.to_nat fast) close)
                              (sma (Z.to_nat slow) close)
                              (Dashboard.RSI (Z.to_nat p) close)]> h).
Proof.
  intros Hfast Hslow Hp Hne Hclose. unfold DashboardScript.get_data_with.
  set (df := fresh (dom h)).
  assert (new_frame fetched h = Ret (df, <[df := fetched]> h)) as Hnew by done.
  rewrite (bind_run _ _ _ _ _ Hnew).
  set (h0 := <[df := fetched]> h).
  assert (h0 !! df = Some fetched) as Hd0 by apply lookup_insert_eq.
  rewrite (bind_run _ _ _ _ _ (read_frame_run df fetched h0 Hd0)).
  rewrite Hne.
  rewrite (bind_run _ _ _ _ _ (getitem_run df "Close" _ close h0 Hd0 Hclose)).
  rewrite (bind_run _ _ _ _ _ (rolling_run fast close h0 Hfast)).
  rewrite (bind_run _ _ _ _ _ (setitem_run df "SMA_20" _ fetched h0 Hd0)).
  set (d1 := Frame (index fetched) (<["SMA_20" := _]> (columns fetched))).
  set (h1 := <[df := d1]> h0).
  assert (h1 !! df = Some d1) as Hd1 by apply lookup_insert_eq.
  assert (columns d1 !! "Close" = Some close) as Hc1.
  { unfold d1. cbn [columns]. by rewrite lookup_insert_ne. }
  rewrite (bind_run _ _ _ _ _ (getitem_run df "Close" d1 close h1 Hd1 Hc1)).
  rewrite (bind_run _ _ _ _ _ (rolling_run slow close h1 Hslow)).
  rewrite (bind_run _ _ _ _ _ (setitem_run df "SMA_50" _ d1 h1 Hd1)).
  set (d2 := Frame (index d1) (<["SMA_50" := _]> (columns d1))).
  set (h2 := <[df := d2]> h1).
  assert (h2 !! df = Some d2) as Hd2 by apply lookup_insert_eq.
  assert (columns d2 !! "Close" = Some close) as Hc2.
  { unfold d2. cbn [columns]. by rewrite lookup_insert_ne. }
  rewrite (bind_run _ _ _ _ _ (getitem_run df "Close" d2 close h2 Hd2 Hc2)).
  cbv zeta.
  rewrite (bind_run _ _ _ _ _ (ewm_run p _ h2 Hp)).
  rewrite (bind_run _ _ _ _ _ (ewm_run p _ h2 Hp)).
  rewrite (bind_run _ _ _ _ _ (setitem_run df "RSI" _ d2 h2 Hd2)).
  unfold ret, h2, h1, h0. rewrite !insert_insert_eq. done.
Qed.



(** ** One smoothing rule per script *)

Lemma with_indicators_rsi (d : DataFrame) (a b r : Series) :
  columns (with_indicators d a b r) !! "RSI" = Some r.
Proof. unfold with_indicators. cbn [columns]. apply lookup_insert_eq. Qed.

(** C1 (as amended). Neither script takes a smoothing-rule selector.
    [get_data] of [gold_dashboard.py] always stores the RSI of one pass
    under the exponential rule (span 14), and the indicator block of
    [gold_dashboard_streamlit.py] always stores the RSI of one pass under
    the simple rule (window 14); in each pass the one rule smooths both
    the gain and the loss. *)
Theorem one_rule_per_script (fetched : DataFrame) (close : Series) (h : heap) :
  columns fetched !! "Close" = Some close →
  (frame_empty fetched = false →
   ∃ d, DashboardScript.get_data fetched h
        = Ret (fresh (dom h), <[fresh (dom h) := d]> h)
        ∧ columns d !! "RSI"
          = Some (rsi_pass EXPONENTIAL 14
                    (Dashboard.gain close) (Dashboard.loss close)))
  ∧ (∀ data, h !! data = Some fetched →
     ∃ d, StreamlitScript.add_indicators_with 20 50 14 data h
          = Ret (tt, <[data := d]> h)
          ∧ columns d !! "RSI"
            = Some (rsi_pass SIMPLE 14
                      (Streamlit.gain close) (Streamlit.loss close))).
Proof.
  intros Hclose. split.
  - intros Hne. eexists. split.
    + apply (get_data_run 20 50 14 fetched close h); (lia || done).
    + by rewrite with_indicators_rsi.
  - intros data Hd. eexists. split.
    + apply (add_indicators_run 20 50 14 data fetched close h); (lia || done).
    + by rewrite with_indicators_rsi.
Qed.

Lemma one_rule_per_script_witness :
  ∃ d, DashboardScript.get_data (bars scenario) ∅
       = Ret (fresh (dom (∅ : heap)), <[fresh (dom (∅ : heap)) := d]> ∅)
       ∧ columns d !! "RSI"
         = Some (rsi_pass EXPONENTIAL 14
                   (Dashboard.gain (of_reals scenario))
                   (Dashboard.loss (of_reals scenario))).
Proof.
  apply (one_rule_per_script (bars scenario) (of_reals scenario) ∅);
    reflexivity.
Defined.

(** On the scenario prices [gold_dashboard.py] does not produce the RSI of
    the simple rule and [gold_dashboard_streamlit.py] does not produce
    that of the exponential rule: neither computation follows a selected
    rule. *)
Lemma no_rule_selector :
  let c := of_reals scenario in
  Dashboard.RSI 14 c ≠ rsi_pass SIMPLE 14 (Dashboard.gain c) (Dashboard.loss c)
  ∧ Streamlit.RSI 14 c
    ≠ rsi_pass EXPONENTIAL 14 (Streamlit.gain c) (Streamlit.loss c).
Proof.
  split; vm_compute; discriminate.
Qed.

(** ** Failures *)




Lemma bad_window_value_error :
  DashboardScript.get_data_with (-1) 50 14 (bars [1; 2; 3]) ∅ = Raise ValueError
  ∧ DashboardScript.get_data_with 20 50 0 (bars [1; 2; 3]) ∅ = Raise ValueError.
Proof. split; reflexivity. Qed.

(** ** The frame and the store *)

Lemma with_indicators_other (d : DataFrame) (a b r : Series) (c : string) :
  c ∉ indicator_names →
  columns (with_indicators d a b r) !! c = columns d !! c.
Proof.
  intros Hc. unfold indicator_names in Hc.
  rewrite !not_elem_of_cons in Hc. destruct Hc as (H1 & H2 & H3 & _).
  unfold with_indicators. cbn [columns].
  by rewrite !lookup_insert_ne.
Qed.

Lemma ohlcv_not_indicator (c : string) :
  c ∈ StreamlitScript.ohlcv → c ∉ indicator_names.
Proof.
  unfold StreamlitScript.ohlcv, indicator_names.
  rewrite !not_elem_of_cons, !elem_of_cons.
  intros [->|[->|[->|[->|[->|H]]]]]; [..|by apply elem_of_nil in H];
    repeat split; (done || apply not_elem_of_nil).
Qed.

Lemma with_indicators_new (d : DataFrame) (a b r : Series) (c : string) :
  c ∈ indicator_names → is_Some (columns (with_indicators d a b r) !! c).
Proof.
  unfold indicator_names. rewrite !elem_of_cons.
  unfold with_indicators. cbn [columns].
  intros [->|[->|[->|H]]]; [..|by apply elem_of_nil in H].
  - rewrite lookup_insert_ne, lookup_insert_ne, lookup_insert_eq by done. eauto.
  - rewrite lookup_insert_ne, lookup_insert_eq by done. eauto.
  - rewrite lookup_insert_eq. eauto.
Qed.

(** Reading leaves the store as it is. *)
Lemma read_frame_heap (l : loc) (h h' : heap) (d : DataFrame) :
  read_frame l h = Ret (d, h') → h' = h.
Proof.
  unfold read_frame. destruct (h !! l); [|done]. by inversion 1.
Qed.

Lemma getitem_heap (l : loc) (c : string) (h h' : heap) (s : Series) :
  getitem l c h = Ret (s, h') → h' = h.
Proof.
  unfold getitem, bind, read_frame. destruct (h !! l) as [d|]; [|done].
  destruct (columns d !! c); [|done]. by inversion 1.
Qed.

Lemma iloc_heap (s : Series) (k : Z) (h h' : heap) (x : Float) :
  iloc s k h = Ret (x, h') → h' = h.
Proof.
  unfold iloc.
  destruct (_ <? 0)%Z; [done|]. destruct (s !! _); [|done]. by inversion 1.
Qed.

Lemma len_heap (l : loc) (h h' : heap) (n : nat) :
  len l h = Ret (n, h') → h' = h.
Proof.
  unfold len, bind, read_frame. destruct (h !! l); [|done]. by inversion 1.
Qed.

Lemma py_truediv_heap (x y : Float) (h h' : heap) (q : Float) :
  py_truediv x y h = Ret (q, h') → h' = h.
Proof.
  unfold py_truediv. destruct (feqb y (Num 0)); [done|]. by inversion 1.
Qed.

Lemma current_values_heap (data : loc) (h h' : heap) (ch : StreamlitScript.change) :
  StreamlitScript.current_values data h = Ret (ch, h') → h' = h.
Proof.
  unfold StreamlitScript.current_values. unfold bind at 1.
  destruct (getitem data "Close" h) as [e|[close h1]] eqn:E1; [done|].
  apply getitem_heap in E1 as ->. unfold bind at 1.
  destruct (iloc close (-1) h) as [e|[cur h2]] eqn:E2; [done|].
  apply iloc_heap in E2 as ->. unfold bind at 1.
  destruct (len data h) as [e|[n h3]] eqn:E3; [done|].
  apply len_heap in E3 as ->. unfold bind at 1.
  destruct ((if (1 <? n)%nat
             then bind (getitem data "Close") (fun close0 => iloc close0 (-2))
             else ret cur) h) as [e|[prev h4]] eqn:E4; [done|].
  assert (h4 = h) as ->.
  { destruct (1 <? n)%nat.
    - unfold bind in E4.
      destruct (getitem data "Close" h) as [e|[close' h5]] eqn:E5; [done|].
      apply getitem_heap in E5 as ->. by apply iloc_heap in E4.
    - by inversion E4. }
  unfold bind.
  destruct (py_truediv (fsub cur prev) prev h) as [e|[q h6]] eqn:E6; [done|].
  apply py_truediv_heap in E6 as ->. by inversion 1.
Qed.


(** One more read in a chain of reads. *)
Lemma bind_reads {A B} (m : M A) (k : A → M B) (h h' : heap) (b : B) :
  (∀ a h1, m h = Ret (a, h1) → h1 = h) →
  (∀ a, k a h = Ret (b, h') → h' = h) →
  bind m k h = Ret (b, h') → h' = h.
Proof.
  intros Hm Hk. unfold bind.
  destruct (m h) as [e|[a h1]] eqn:E; [done|].
  rewrite (Hm a h1 eq_refl). apply Hk.
Qed.

Lemma ret_heap {A} (a b : A) (h h' : heap) : ret a h = Ret (b, h') → h' = h.
Proof. by inversion 1. Qed.

Lemma page_values_heap (data : loc) (h h' : heap) (m : DashboardPage.metrics) :
  DashboardPage.page_values data h = Ret (m, h') → h' = h.
Proof.
  unfold DashboardPage.page_values.
  apply bind_reads; [intros a h1; apply getitem_heap|intros close].
  apply bind_reads; [intros a h1; apply iloc_heap|intros cur].
  apply bind_reads; [intros a h1; apply getitem_heap|intros close'].
  apply bind_reads; [intros a h1; apply iloc_heap|intros prev].
  apply bind_reads; [intros a h1; apply py_truediv_heap|intros q].
  apply bind_reads; [intros a h1; apply getitem_heap|intros col].
  apply bind_reads; [intros a h1; apply iloc_heap|intros rsi].
  apply ret_heap.
Qed.

Lemma card_values_heap (data : loc) (ch : StreamlitScript.change)
    (h h' : heap) (cards : StreamlitPage.cards) :
  StreamlitPage.card_values data ch h = Ret (cards, h') → h' = h.
Proof.
  unfold StreamlitPage.card_values.
  apply bind_reads; [intros a h1; apply getitem_heap|intros col].
  apply bind_reads; [intros a h1; apply iloc_heap|intros rsi].
  apply bind_reads; [intros a h1; apply getitem_heap|intros low].
  apply bind_reads; [intros a h1; apply getitem_heap|intros high].
  apply ret_heap.
Qed.

(** C9 (as amended). Computing the indicators leaves the index and the
    Open, High, Low, Close and Volume columns of the frame as they were,
    and every column other than SMA_20, SMA_50 and RSI.  It does so by
    assigning the three indicator columns into the frame that holds the
    bars: the indicator frame is that same object, at the same location,
    and no other object of the store changes.  In [gold_dashboard.py] the
    object is the one just created for the download, which [get_data]
    returns.  After the RSI column is assigned the frame is only read:
    the current values and the card values of either script leave the
    store as the indicators left it. *)
Theorem indicators_extend_in_place (h : heap) (d : DataFrame) (close : Series) :
  columns d !! "Close" = Some close →
  (∀ data, h !! data = Some d →
     ∃ d', StreamlitScript.add_indicators_with 20 50 14 data h
           = Ret (tt, <[data := d']> h)
           ∧ index d' = index d
           ∧ (∀ c, c ∈ StreamlitScript.ohlcv →
                   columns d' !! c = columns d !! c)
           ∧ (∀ c, c ∉ indicator_names → columns d' !! c = columns d !! c)
           ∧ (∀ c, c ∈ indicator_names → is_Some (columns d' !! c))
           ∧ (∀ ch h', StreamlitScript.current_values data (<[data := d']> h)
                       = Ret (ch, h') →
                       h' = <[data := d']> h)
           ∧ (∀ ch cards h',
                StreamlitPage.card_values data ch (<[data := d']> h)
                = Ret (cards, h') →
                h' = <[data := d']> h))
  ∧ (frame_empty d = false →
     ∃ d', DashboardScript.get_data d h
           = Ret (fresh (dom h), <[fresh (dom h) := d']> h)
           ∧ h !! fresh (dom h) = None
           ∧ index d' = index d
           ∧ (∀ c, c ∈ StreamlitScript.ohlcv →
                   columns d' !! c = columns d !! c)
           ∧ (∀ c, c ∉ indicator_names → columns d' !! c = columns d !! c)
           ∧ (∀ c, c ∈ indicator_names → is_Some (columns d' !! c))
           ∧ (∀ m h',
                DashboardPage.page_values (fresh (dom h))
                  (<[fresh (dom h) := d']> h) = Ret (m, h') →
                h' = <[fresh (dom h) := d']> h)
           ∧ (∀ m h', DashboardPage.run d h = Ret (m, h') →
                      h' = <[fresh (dom h) := d']> h))
  ∧ (∀ (l : loc) (h0 h1 : heap),
       (∀ ch, StreamlitScript.current_values l h0 = Ret (ch, h1) → h1 = h0)
       ∧ (∀ ch cards,
            StreamlitPage.card_values l ch h0 = Ret (cards, h1) → h1 = h0)
       ∧ (∀ m, DashboardPage.page_values l h0 = Ret (m, h1) → h1 = h0)).
Proof.
  intros Hclose. split; [|split].
  - intros data Hd. eexists. split.
    { apply (add_indicators_run 20 50 14 data d close h); (lia || done). }
    split; [done|]. split.
    { intros c Hc. by apply with_indicators_other, ohlcv_not_indicator. }
    split; [intros c Hc; by apply with_indicators_other|].
    split; [intros c Hc; by apply with_indicators_new|].
    split.
    { intros ch h' Hrun. by apply current_values_heap in Hrun. }
    intros ch cards h' Hrun. by apply card_values_heap in Hrun.
  - intros Hne.
    pose proof (get_data_run 20 50 14 d close h ltac:(lia) ltac:(lia)
                  ltac:(lia) Hne Hclose) as Hget.
    eexists. split; [exact Hget|].
    split.
    { apply not_elem_of_dom. apply is_fresh. }
    split; [done|]. split.
    { intros c Hc. by apply with_indicators_other, ohlcv_not_indicator. }
    split; [intros c Hc; by apply with_indicators_other|].
    split; [intros c Hc; by apply with_indicators_new|].
    split.
    { intros m h' Hrun. by apply page_values_heap in Hrun. }
    intros m h' Hrun. unfold DashboardPage.run, DashboardScript.get_data in Hrun.
    rewrite (bind_run _ _ _ _ _ Hget) in Hrun.
    by apply page_values_heap in Hrun.
  - intros l h0 h1. split; [|split].
    + intros ch Hrun. by apply current_values_heap in Hrun.
    + intros ch cards Hrun. by apply card_values_heap in Hrun.
    + intros m Hrun. by apply page_values_heap in Hrun.
Qed.

Lemma indicators_extend_in_place_witness :
  ∃ d', StreamlitScript.add_indicators_with 20 50 14 0%nat
          {[ 0%nat := bars scenario ]}
        = Ret (tt, <[0%nat := d']> {[ 0%nat := bars scenario ]})
        ∧ index d' = index (bars scenario)
        ∧ columns d' !! "Close" = columns (bars scenario) !! "Close".
Proof.
  destruct (indicators_extend_in_place {[ 0%nat := bars scenario ]}
              (bars scenario) (of_reals scenario) eq_refl) as (Hs & _).
  destruct (Hs 0%nat eq_refl) as (d' & Hrun & Hidx & Hcols & _).
  exists d'. split; [done|]. split; [done|].
  apply Hcols. unfold StreamlitScript.ohlcv. set_solver.
Defined.

(** The frame that holds the bars is not left as it was: after the
    computation the object at the same location has an RSI column. *)
Lemma input_frame_mutated :
  let h0 : heap := {[ 0%nat := bars [1; 2; 3] ]} in
  ∃ h', StreamlitScript.add_indicators_with 20 50 14 0%nat h0 = Ret (tt, h')
        ∧ h' !! 0%nat ≠ h0 !! 0%nat
        ∧ (h0 !! 0%nat ≫= fun d => columns d !! "RSI") = None
        ∧ (h' !! 0%nat ≫= fun d => columns d !! "RSI")
          = Some [NaN; NaN; NaN].
Proof.
  intros h0. eexists. split.
  { apply (add_indicators_run 20 50 14 0%nat (bars [1; 2; 3])
             (of_reals [1; 2; 3])); (lia || reflexivity). }
  assert (∀ h' : heap,
            (h' !! 0%nat ≫= fun d => columns d !! "RSI") = Some [NaN; NaN; NaN] →
            h' !! 0%nat ≠ h0 !! 0%nat) as Hneq.
  { intros h' Hrsi Heq. rewrite Heq in Hrsi. vm_compute in Hrsi. done. }
  assert ((<[0%nat := with_indicators (bars [1; 2; 3])
                        (sma (Z.to_nat 20) (of_reals [1; 2; 3]))
                        (sma (Z.to_nat 50) (of_reals [1; 2; 3]))
                        (Streamlit.RSI (Z.to_nat 14) (of_reals [1; 2; 3]))]> h0
           : heap) !! 0%nat ≫= (fun d => columns d !! "RSI")
          = Some [NaN; NaN; NaN]) as Hrsi.
  { rewrite lookup_insert_eq. cbn [mbind option_bind].
    rewrite with_indicators_rsi. reflexivity. }
  split; [by apply Hneq|]. split; [reflexivity|done].
Qed.

(** ** The change on a single bar *)

(** C10 (as amended). In [gold_dashboard_streamlit.py], on a frame of
    exactly one bar with a finite close [c], whatever [c] is, the
    previous close falls back to the current price and position -2 is not
    read: the run comes down to the one division of the price change
    [c - c], which is 0, by the previous close [c], and it never ends
    with an index error.  When [c] is not zero the run returns and the
    percent change is 0 as well; when [c] is zero that division raises
    ZeroDivisionError. *)
Theorem single_bar_change (c : Q) (data : loc) (d : DataFrame) (h : heap) :
  h !! data = Some d →
  columns d !! "Close" = Some (of_reals [c]) →
  length (index d) = 1%nat →
  StreamlitScript.current_values data h
  = bind (py_truediv (Num (c - c)) (Num c))
      (fun q => ret (StreamlitScript.Change (Num c) (Num c) (Num (c - c))
                       (fmul q (Num 100)))) h
  ∧ c - c == 0
  ∧ StreamlitScript.current_values data h ≠ Raise IndexError
  ∧ (¬ c == 0 →
     ∃ ch, StreamlitScript.current_values data h = Ret (ch, h)
           ∧ StreamlitScript.current_price ch = Num c
           ∧ StreamlitScript.prev_close ch = StreamlitScript.current_price ch
           ∧ feq (StreamlitScript.price_change ch) (Num 0)
           ∧ feq (StreamlitScript.percent_change ch) (Num 0))
  ∧ (c == 0 →
     StreamlitScript.current_values data h = Raise ZeroDivisionError).
Proof.
  intros Hd Hclose Hlen.
  assert (StreamlitScript.current_values data h
          = bind (py_truediv (Num (c - c)) (Num c))
              (fun q => ret (StreamlitScript.Change (Num c) (Num c)
                               (Num (c - c)) (fmul q (Num 100)))) h) as Hcv.
  { unfold StreamlitScript.current_values.
    rewrite (bind_run _ _ _ _ _ (getitem_run data "Close" d _ h Hd Hclose)).
    assert (iloc (of_reals [c]) (-1) h = Ret (Num c, h)) as Hlast by done.
    rewrite (bind_run _ _ _ _ _ Hlast).
    rewrite (bind_run _ _ _ _ _ (len_run data d h Hd)).
    rewrite Hlen. cbn [Nat.ltb Nat.leb].
    assert (ret (Num c) h = Ret (Num c, h)) as Hprev by done.
    by rewrite (bind_run _ _ _ _ _ Hprev). }
  assert (¬ c == 0 →
          py_truediv (Num (c - c)) (Num c) h = Ret (Num ((c - c) / c), h))
    as Hdiv.
  { intros Hc. unfold py_truediv. cbn [feqb].
    rewrite (Qeq_bool_false c 0 Hc). unfold ret. by rewrite fdiv_num. }
  assert (c == 0 →
          py_truediv (Num (c - c)) (Num c) h = Raise ZeroDivisionError)
    as Hzero.
  { intros Hc. unfold py_truediv. cbn [feqb].
    by rewrite (Qeq_bool_true c 0 Hc). }
  split; [exact Hcv|]. split; [ring|]. rewrite Hcv. split; [|split].
  - destruct (Qeq_dec c 0) as [Hc|Hc].
    + by rewrite (bind_raise _ _ _ _ (Hzero Hc)).
    + by rewrite (bind_run _ _ _ _ _ (Hdiv Hc)).
  - intros Hc. rewrite (bind_run _ _ _ _ _ (Hdiv Hc)).
    eexists. split; [reflexivity|]. cbn.
    split; [done|]. split; [done|]. split.
    + ring.
    + field. done.
  - intros Hc. by rewrite (bind_raise _ _ _ _ (Hzero Hc)).
Qed.

Lemma single_bar_change_witness :
  (∃ ch, StreamlitScript.current_values 0%nat {[ 0%nat := bars [1850] ]}
         = Ret (ch, {[ 0%nat := bars [1850] ]})
         ∧ StreamlitScript.current_price ch = Num 1850
         ∧ StreamlitScript.prev_close ch = StreamlitScript.current_price ch
         ∧ feq (StreamlitScript.price_change ch) (Num 0)
         ∧ feq (StreamlitScript.percent_change ch) (Num 0))
  ∧ StreamlitScript.current_values 0%nat {[ 0%nat := bars [1850] ]}
    ≠ Raise IndexError.
Proof.
  destruct (single_bar_change 1850 0%nat (bars [1850])
              {[ 0%nat := bars [1850] ]})
    as (_ & _ & Hidx & Hret & _); [reflexivity|reflexivity|reflexivity|].
  split; [|exact Hidx]. apply Hret. intros H. discriminate H.
Defined.

(** A single bar with close 0: the fallback makes the divisor 0 and the
    Python division raises, so there is no percent change. *)
Lemma single_bar_zero_close :
  StreamlitScript.current_values 0%nat {[ 0%nat := bars [0] ]}
  = Raise ZeroDivisionError
  ∧ StreamlitScript.main (bars [0]) ∅ = Raise ZeroDivisionError.
Proof. split; reflexivity. Qed.

(** * Further properties of the two scripts *)

(** ** One value per bar *)

Lemma diff_length (s : Series) : length (diff s) = length s.
Proof.
  destruct s as [|x tl]; [done|]. cbn [diff length].
  rewrite length_zip_with. cbn [length]. lia.
Qed.

Lemma ewm_loop_length (p : nat) (st : ewm_state) (s : Series) :
  length (ewm_loop p st s) = length s.
Proof.
  revert st. induction s as [|x s IH]; intros st; [done|].
  cbn [ewm_loop length]. by rewrite IH.
Qed.

Lemma ewm_mean_length (p : nat) (s : Series) :
  length (ewm_mean p s) = length s.
Proof.
  destruct s as [|x s]; [done|]. cbn [ewm_mean length].
  by rewrite ewm_loop_length.
Qed.

Lemma rsi_of_length (ag al : Series) :
  length (rsi_of ag al) = Nat.min (length ag) (length al).
Proof.
  unfold rsi_of, scalar_sub, scalar_div, scalar_add, series_div.
  by rewrite !length_fmap, length_zip_with.
Qed.

Lemma dashboard_gain_length (s : Series) :
  length (Dashboard.gain s) = length s.
Proof.
  unfold Dashboard.gain, Dashboard.delta, clip_lower.
  by rewrite length_fmap, diff_length.
Qed.

Lemma dashboard_loss_length (s : Series) :
  length (Dashboard.loss s) = length s.
Proof.
  unfold Dashboard.loss, Dashboard.delta, series_neg, clip_upper.
  by rewrite !length_fmap, diff_length.
Qed.

Lemma streamlit_gain_length (s : Series) :
  length (Streamlit.gain s) = length s.
Proof.
  unfold Streamlit.gain, Streamlit.delta, series_where, gt_scalar.
  rewrite length_zip_with, length_fmap, diff_length. lia.
Qed.

Lemma streamlit_loss_length (s : Series) :
  length (Streamlit.loss s) = length s.
Proof.
  unfold Streamlit.loss, Streamlit.delta, series_neg, series_where, lt_scalar.
  rewrite length_fmap, length_zip_with, length_fmap, diff_length. lia.
Qed.

(** X1. Every indicator column has exactly one entry per bar, whatever
    the closes are (NaN included) and whatever the windows: the two
    moving averages and the RSI of either script are aligned with the
    Close column. *)
Theorem indicator_columns_aligned (close : Series) (w p : nat) :
  length (sma w close) = length close
  ∧ length (Dashboard.RSI p close) = length close
  ∧ length (Streamlit.RSI p close) = length close.
Proof.
  split; [apply rolling_mean_length|]. split.
  - unfold Dashboard.RSI, Dashboard.avg_gain, Dashboard.avg_loss.
    rewrite rsi_of_length, !ewm_mean_length.
    rewrite dashboard_gain_length, dashboard_loss_length. lia.
  - unfold Streamlit.RSI, Streamlit.avg_gain, Streamlit.avg_loss.
    rewrite rsi_of_length, !rolling_mean_length.
    rewrite streamlit_gain_length, streamlit_loss_length. lia.
Qed.

(** ** No look-ahead *)

Lemma diff_take (n : nat) (s : Series) : take n (diff s) = diff (take n s).
Proof.
  destruct s as [|x tl]; [by destruct n|].
  destruct n as [|n]; [done|]. cbn [diff take]. f_equal.
  revert x n. induction tl as [|y tl IH]; intros x n.
  - by destruct n.
  - destruct n as [|n]; [done|]. cbn [take zip_with]. f_equal. apply IH.
Qed.

Lemma zip_with_take {A B C} (f : A → B → C) (n : nat) (a : list A) (b : list B) :
  take n (zip_with f a b) = zip_with f (take n a) (take n b).
Proof.
  revert a b. induction n as [|n IH]; intros [|x a] [|y b]; try done.
  cbn [take zip_with]. f_equal. apply IH.
Qed.

Lemma window_take (w i n : nat) (s : Series) :
  (i < n)%nat → window w i (take n s) = window w i s.
Proof.
  intros Hi. unfold window. rewrite take_take.
  by replace (Nat.min (S i) n) with (S i) by lia.
Qed.

Lemma rolling_mean_take (w n : nat) (s : Series) :
  take n (rolling_mean w s) = rolling_mean w (take n s).
Proof.
  apply list_eq. intros i.
  destruct (Nat.lt_ge_cases i n) as [Hi|Hi].
  - rewrite lookup_take_lt by done.
    destruct (Nat.lt_ge_cases i (length s)) as [Hs|Hs].
    + rewrite !rolling_mean_lookup; [|rewrite length_take; lia|done].
      by rewrite window_take.
    + rewrite !rolling_mean_lookup_ge; [done|rewrite length_take; lia|done].
  - rewrite lookup_take_ge by done.
    rewrite rolling_mean_lookup_ge; [done|]. rewrite length_take. lia.
Qed.

Lemma ewm_loop_take (p n : nat) (st : ewm_state) (s : Series) :
  take n (ewm_loop p st s) = ewm_loop p st (take n s).
Proof.
  revert st n. induction s as [|x s IH]; intros st n.
  - by destruct n.
  - destruct n as [|n]; [done|]. cbn [take ewm_loop]. f_equal. apply IH.
Qed.

Lemma ewm_mean_take (p n : nat) (s : Series) :
  take n (ewm_mean p s) = ewm_mean p (take n s).
Proof.
  destruct s as [|x s]; [by destruct n|].
  destruct n as [|n]; [done|]. cbn [take ewm_mean]. f_equal.
  apply ewm_loop_take.
Qed.

Lemma rsi_of_take (n : nat) (ag al : Series) :
  take n (rsi_of ag al) = rsi_of (take n ag) (take n al).
Proof.
  unfold rsi_of, scalar_sub, scalar_div, scalar_add, series_div.
  by rewrite <- !fmap_take, zip_with_take.
Qed.

Lemma dashboard_rsi_take (p n : nat) (s : Series) :
  take n (Dashboard.RSI p s) = Dashboard.RSI p (take n s).
Proof.
  unfold Dashboard.RSI, Dashboard.avg_gain, Dashboard.avg_loss,
    Dashboard.gain, Dashboard.loss, Dashboard.delta,
    clip_lower, clip_upper, series_neg.
  rewrite rsi_of_take, !ewm_mean_take. by rewrite <- !fmap_take, diff_take.
Qed.

Lemma streamlit_rsi_take (p n : nat) (s : Series) :
  take n (Streamlit.RSI p s) = Streamlit.RSI p (take n s).
Proof.
  unfold Streamlit.RSI, Streamlit.avg_gain, Streamlit.avg_loss,
    Streamlit.gain, Streamlit.loss, Streamlit.delta,
    series_where, gt_scalar, lt_scalar, series_neg.
  rewrite rsi_of_take, !rolling_mean_take.
  by rewrite <- !fmap_take, !zip_with_take, <- !fmap_take, diff_take.
Qed.

Lemma lookup_of_take (F : Series → Series) (s t : Series) (i : nat) :
  (∀ n u, take n (F u) = F (take n u)) →
  (i < length s)%nat → F (s ++ t) !! i = F s !! i.
Proof.
  intros HF Hi.
  rewrite <- (lookup_take_lt (F (s ++ t)) (length s) i) by done.
  by rewrite HF, take_app_length.
Qed.

(** X2. An indicator value never depends on later bars: appending bars
    to the series leaves the moving average and the RSI of either script
    unchanged at every position that already existed. *)
Theorem no_look_ahead (s t : Series) (w p i : nat) :
  (i < length s)%nat →
  sma w (s ++ t) !! i = sma w s !! i
  ∧ Dashboard.RSI p (s ++ t) !! i = Dashboard.RSI p s !! i
  ∧ Streamlit.RSI p (s ++ t) !! i = Streamlit.RSI p s !! i.
Proof.
  intros Hi. split; [|split].
  - apply (lookup_of_take (sma w)); [|done].
    intros n u. apply rolling_mean_take.
  - apply (lookup_of_take (Dashboard.RSI p)); [|done].
    intros n u. apply dashboard_rsi_take.
  - apply (lookup_of_take (Streamlit.RSI p)); [|done].
    intros n u. apply streamlit_rsi_take.
Qed.

Lemma no_look_ahead_witness :
  sma 3 (of_reals scenario ++ [Num 99; NaN]) !! 10%nat
  = sma 3 (of_reals scenario) !! 10%nat
  ∧ Dashboard.RSI 3 (of_reals scenario ++ [Num 99; NaN]) !! 10%nat
    = Dashboard.RSI 3 (of_reals scenario) !! 10%nat
  ∧ Streamlit.RSI 3 (of_reals scenario ++ [Num 99; NaN]) !! 10%nat
    = Streamlit.RSI 3 (of_reals scenario) !! 10%nat.
Proof.
  apply (no_look_ahead (of_reals scenario) [Num 99; NaN] 3 3 10).
  cbn. lia.
Defined.

(** ** The moving average within its window *)

Lemma Qsum_bounds (lo hi : Q) (l : list Q) :
  Forall (fun x => lo <= x <= hi) l →
  inject_Z (Z.of_nat (length l)) * lo <= Qsum l
  <= inject_Z (Z.of_nat (length l)) * hi.
Proof.
  induction 1 as [|x l Hx _ IH].
  - cbn [Qsum foldr length]. change (inject_Z (Z.of_nat 0)) with 0. lra.
  - cbn [Qsum foldr length]. fold (Qsum l). rewrite Nat2Z.inj_succ.
    unfold Z.succ. rewrite inject_Z_plus. change (inject_Z 1) with 1.
    lra.
Qed.

Lemma arith_mean_bounds (lo hi : Q) (l : list Q) :
  (0 < length l)%nat → Forall (fun x => lo <= x <= hi) l →
  lo <= arith_mean l <= hi.
Proof.
  intros Hpos Hall. unfold arith_mean.
  pose proof (inject_nat_pos _ Hpos) as Hn.
  pose proof (Qsum_bounds lo hi l Hall) as [H1 H2]. split.
  - apply Qle_shift_div_l; [done|]. lra.
  - apply Qle_shift_div_r; [done|]. lra.
Qed.

(** X3. A defined moving average lies between the lowest and the
    highest close of its window: if every close at the positions
    [i-w+1 .. i] is between [lo] and [hi], so is the average at [i]. *)
Theorem sma_within_window (closes : list Q) (w i : nat) (lo hi : Q) :
  (0 < w)%nat → (w - 1 ≤ i < length closes)%nat →
  (∀ j c, (i + 1 - w ≤ j ≤ i)%nat → closes !! j = Some c → lo <= c <= hi) →
  ∃ m, sma w (of_reals closes) !! i = Some (Num m) ∧ lo <= m <= hi.
Proof.
  intros Hw Hi Hwin. eexists. split.
  - apply rolling_mean_defined; [done|lia|lia].
  - apply arith_mean_bounds.
    + rewrite between_length by lia. lia.
    + apply between_Forall. intros j c Hj Hc. apply (Hwin j); [lia|done].
Qed.

Lemma sma_within_window_witness :
  ∃ m, sma 3 (of_reals scenario) !! 4%nat = Some (Num m) ∧ 10 <= m <= 12.
Proof.
  apply (sma_within_window scenario 3 4 10 12); [lia|cbn; lia|].
  intros j c Hj Hc.
  do 5 (destruct j as [|j];
        [try lia; inversion Hc; subst; split; cbv; congruence|]).
  lia.
Defined.

(** ** A missing close *)

Lemma filter_length_lt {A} (P : A → Prop) `{∀ x, Decision (P x)}
    (l : list A) (k : nat) (x : A) :
  l !! k = Some x → ¬ P x → (length (filter P l) < length l)%nat.
Proof.
  revert k. induction l as [|y l IH]; intros k Hk Hx; [done|].
  destruct k as [|k].
  - inversion Hk; subst y. rewrite filter_cons_False by done.
    pose proof (length_filter P l). cbn [length]. lia.
  - pose proof (IH k Hk Hx).
    destruct (decide (P y)).
    + rewrite filter_cons_True by done. cbn [length]. lia.
    + rewrite filter_cons_False by done. cbn [length]. lia.
Qed.

Lemma window_lookup (w i k : nat) (s : Series) :
  (S i - w + k ≤ i)%nat → window w i s !! k = s !! (S i - w + k)%nat.
Proof.
  intros H. unfold window. rewrite lookup_drop, lookup_take_lt by lia. done.
Qed.

(** X4. A NaN close makes the moving average NaN at every position
    whose window contains it: [rolling(w)] wants [w] observations and a
    NaN is not one. *)
Theorem sma_missing_close (s : Series) (w i j : nat) :
  s !! j = Some NaN → (j ≤ i < j + w)%nat → (i < length s)%nat →
  sma w s !! i = Some NaN.
Proof.
  intros Hj Hji Hi. unfold sma. rewrite rolling_mean_lookup by done.
  f_equal. unfold window_mean.
  assert (length (filter (fun x => notna x = true) (window w i s))
          < length (window w i s))%nat as Hlt.
  { apply (filter_length_lt _ _ (j - (S i - w))%nat NaN); [|done].
    rewrite window_lookup by lia.
    by replace (S i - w + (j - (S i - w)))%nat with j by lia. }
  rewrite window_length in Hlt by done.
  destruct (Nat.leb_spec w
              (length (filter (fun x => notna x = true) (window w i s))));
    [lia|done].
Qed.

Lemma sma_missing_close_witness :
  sma 3 [Num 1; NaN; Num 3; Num 4; Num 5] !! 3%nat = Some NaN.
Proof.
  apply (sma_missing_close [Num 1; NaN; Num 3; Num 4; Num 5] 3 3 1);
    [reflexivity|lia|cbn; lia].
Defined.

(** ** The RSI as a share of the gain *)

Lemma rsi_at_share (g l : Q) :
  0 <= g → 0 <= l → 0 < g + l →
  ∃ r, rsi_at (Num g) (Num l) = Num r ∧ r == 100 * g / (g + l).
Proof.
  intros Hg Hl Hpos. destruct (Qlt_le_dec 0 l) as [Hlpos|Hle].
  - eexists. split; [by apply rsi_at_regular|]. field. split; lra.
  - assert (l == 0) as Hl0 by lra.
    destruct (rsi_at_saturated g l ltac:(lra) Hl0) as (r & Hr & Heq).
    exists r. split; [done|]. rewrite Heq, Hl0. field. lra.
Qed.

(** X5. Wherever the two smoothed averages are defined and not both 0,
    the RSI of either script is the gain's share of the total movement,
    100 * avg_gain / (avg_gain + avg_loss); the infinite [rs] of a zero
    loss falls under the same formula. *)
Theorem rsi_is_gain_share (closes : list Q) (p i : nat) (g l : Q) :
  (0 < p)%nat → 0 < g + l →
  (Dashboard.avg_gain p (of_reals closes) !! i = Some (Num g) →
   Dashboard.avg_loss p (of_reals closes) !! i = Some (Num l) →
   ∃ r, Dashboard.RSI p (of_reals closes) !! i = Some (Num r)
        ∧ r == 100 * g / (g + l))
  ∧ (Streamlit.avg_gain p (of_reals closes) !! i = Some (Num g) →
     Streamlit.avg_loss p (of_reals closes) !! i = Some (Num l) →
     ∃ r, Streamlit.RSI p (of_reals closes) !! i = Some (Num r)
          ∧ r == 100 * g / (g + l)).
Proof.
  intros Hp Hpos. split; intros Hg Hl.
  - destruct (dashboard_avg_gain_range closes p i _ Hp Hg)
      as [?|(g' & Eg & Hg0)]; [done|]. inversion Eg; subst g'.
    destruct (dashboard_avg_loss_range closes p i _ Hp Hl)
      as [?|(l' & El & Hl0)]; [done|]. inversion El; subst l'.
    destruct (rsi_at_share g l Hg0 Hl0 Hpos) as (r & Hr & Heq).
    exists r. split; [|done].
    unfold Dashboard.RSI. by rewrite rsi_of_lookup, Hg, Hl, Hr.
  - destruct (streamlit_avg_gain_range closes p i _ Hp Hg)
      as [?|(g' & Eg & Hg0)]; [done|]. inversion Eg; subst g'.
    destruct (streamlit_avg_loss_range closes p i _ Hp Hl)
      as [?|(l' & El & Hl0)]; [done|]. inversion El; subst l'.
    destruct (rsi_at_share g l Hg0 Hl0 Hpos) as (r & Hr & Heq).
    exists r. split; [|done].
    unfold Streamlit.RSI. by rewrite rsi_of_lookup, Hg, Hl, Hr.
Qed.

Lemma rsi_is_gain_share_witness :
  ∃ r, Streamlit.RSI 3 (of_reals scenario) !! 3%nat = Some (Num r)
       ∧ r == 100 * (2 # 3) / ((2 # 3) + (1 # 3)).
Proof.
  destruct (rsi_is_gain_share scenario 3 3 (2 # 3) (1 # 3) ltac:(lia)
              ltac:(reflexivity)) as (_ & H).
  apply H; reflexivity.
Defined.

(** ** Where the RSI is undefined *)

Lemma flat_on_monotone (l : list Q) (a b : nat) :
  flat_on l a b → non_decreasing l a b ∧ non_increasing l a b.
Proof.
  intros Hflat. split; intros j x y Hj Hx Hy;
    pose proof (Hflat j x y Hj Hx Hy); lra.
Qed.

Lemma not_flat_moves (l : list Q) (a b : nat) (j : nat) (x y : Q) :
  (a ≤ j < b)%nat → l !! j = Some x → l !! S j = Some y → ¬ x == y →
  rises_in l a b ∨ falls_in l a b.
Proof.
  intros Hj Hx Hy Hne. destruct (Q_dec x y) as [[Hlt|Hgt]|Heq]; [| |done].
  - left. by exists j, x, y.
  - right. by exists j, x, y.
Qed.

(** X6. In [gold_dashboard.py] (span at least 2) the RSI at a position
    [i >= 1] is NaN exactly when all the closes from position 0 to [i]
    are equal: any move since the first bar, however old, defines it. *)
Theorem dashboard_rsi_nan_iff_flat (closes : list Q) (p i : nat) :
  (2 ≤ p)%nat → (1 ≤ i < length closes)%nat →
  Dashboard.RSI p (of_reals closes) !! i = Some NaN ↔ flat_on closes 0 i.
Proof.
  intros Hp Hi. destruct i as [|k]; [lia|].
  destruct (dashboard_avg_values closes p k ltac:(lia) ltac:(lia))
    as (g & l & Hag & Hal & Hg & Hl).
  assert (0 <= g) as Hg0.
  { destruct (dashboard_avg_gain_range closes p (S k) _ ltac:(lia) Hag)
      as [?|(g' & Eg & H)]; [done|]. by inversion Eg; subst g'. }
  assert (0 <= l) as Hl0.
  { destruct (dashboard_avg_loss_range closes p (S k) _ ltac:(lia) Hal)
      as [?|(l' & El & H)]; [done|]. by inversion El; subst l'. }
  unfold Dashboard.RSI. rewrite rsi_of_lookup, Hag, Hal. split.
  - intros Hnan. assert (rsi_at (Num g) (Num l) = NaN) as Hat by congruence.
    apply (rsi_at_nan_iff g l Hg0 Hl0) in Hat as [Hgz Hlz].
    intros j x y Hj Hx Hy.
    destruct (Qeq_dec x y) as [Heq|Hne]; [done|]. exfalso.
    destruct (not_flat_moves closes 0 (S k) j x y Hj Hx Hy Hne) as [Hr|Hf].
    + assert (0 < g)
        by (apply (dashboard_some_rise closes p k); first [done|lia]).
      lra.
    + assert (0 < l)
        by (apply (dashboard_some_fall closes p k); first [done|lia]).
      lra.
  - intros Hflat. apply flat_on_monotone in Hflat as [Hup Hdown].
    assert (g == 0)
      by (apply (dashboard_no_rise closes p k); first [done|lia]).
    assert (l == 0)
      by (apply (dashboard_no_fall closes p k); first [done|lia]).
    by rewrite rsi_at_flat.
Qed.

Lemma dashboard_rsi_nan_iff_flat_witness :
  Dashboard.RSI 14 (of_reals scenario) !! 5%nat = Some NaN
  ↔ flat_on scenario 0 5.
Proof.
  apply (dashboard_rsi_nan_iff_flat scenario 14 5); [lia|cbn; lia].
Defined.

Lemma arith_mean_zero_inv (l : list Q) :
  Forall (fun x => 0 <= x) l → arith_mean l == 0 →
  Forall (fun x => x == 0) l.
Proof.
  intros Hall Hz. apply Forall_forall. intros x Hx.
  destruct (Qlt_le_dec 0 x) as [Hpos|Hle].
  - assert (0 < arith_mean l); [|lra]. apply arith_mean_pos; [done|].
    apply Exists_exists. by exists x.
  - rewrite Forall_forall in Hall. specialize (Hall x Hx). lra.
Qed.

(** X7. In [gold_dashboard_streamlit.py] the RSI at a position [i >= p]
    is NaN exactly when the closes are all equal over the positions
    [i-p .. i] of its window. *)
Theorem streamlit_rsi_nan_iff_flat (closes : list Q) (p i : nat) :
  (0 < p)%nat → (p ≤ i < length closes)%nat →
  Streamlit.RSI p (of_reals closes) !! i = Some NaN
  ↔ flat_on closes (i - p) i.
Proof.
  intros Hp Hi.
  pose proof (streamlit_avg_gain_defined closes p i Hp ltac:(lia) ltac:(lia))
    as Hag.
  pose proof (streamlit_avg_loss_defined closes p i Hp ltac:(lia) ltac:(lia))
    as Hal.
  set (g := arith_mean _) in Hag. set (l := arith_mean _) in Hal.
  assert (0 <= g) as Hg0.
  { apply arith_mean_nonneg.
    - rewrite deltas_slice_length; lia.
    - apply between_Forall_all, fmap_nonneg, where_gain_nonneg. }
  assert (0 <= l) as Hl0.
  { apply arith_mean_nonneg.
    - rewrite deltas_slice_length; lia.
    - apply between_Forall_all, fmap_nonneg, where_loss_nonneg. }
  unfold Streamlit.RSI. rewrite rsi_of_lookup, Hag, Hal. split.
  - intros Hnan. assert (rsi_at (Num g) (Num l) = NaN) as Hat by congruence.
    apply (rsi_at_nan_iff g l Hg0 Hl0) in Hat as [Hgz Hlz].
    intros j x y Hj Hx Hy.
    destruct (Qeq_dec x y) as [Heq|Hne]; [done|]. exfalso.
    destruct (not_flat_moves closes (i - p) i j x y Hj Hx Hy Hne) as [Hr|Hf].
    + assert (0 < g)
        by (apply streamlit_some_rise; first [done|lia]).
      lra.
    + assert (0 < l)
        by (apply streamlit_some_fall; first [done|lia]).
      lra.
  - intros Hflat. apply flat_on_monotone in Hflat as [Hup Hdown].
    assert (g == 0) by (apply streamlit_no_rise; first [done|lia]).
    assert (l == 0) by (apply streamlit_no_fall; first [done|lia]).
    by rewrite rsi_at_flat.
Qed.

Lemma streamlit_rsi_nan_iff_flat_witness :
  Streamlit.RSI 3 (of_reals scenario) !! 5%nat = Some NaN
  ↔ flat_on scenario (5 - 3) 5.
Proof.
  apply (streamlit_rsi_nan_iff_flat scenario 3 5); [lia|cbn; lia].
Defined.

(** ** The first RSI of the exponential rule *)

(** X8. In [gold_dashboard.py] the RSI at position 1 rests on the first
    delta alone: it is 100 after a rise, 0 after a fall and NaN when the
    first two closes are equal, whatever the span. *)
Theorem dashboard_first_rsi (q0 q1 : Q) (rest : list Q) (p : nat) :
  (1 ≤ p)%nat →
  let rsi1 := Dashboard.RSI p (of_reals (q0 :: q1 :: rest)) !! 1%nat in
  (q0 < q1 → ∃ r, rsi1 = Some (Num r) ∧ r == 100)
  ∧ (q1 < q0 → ∃ r, rsi1 = Some (Num r) ∧ r == 0)
  ∧ (q0 == q1 → rsi1 = Some NaN).
Proof.
  intros Hp rsi1.
  assert (Dashboard.avg_gain p (of_reals (q0 :: q1 :: rest)) !! 1%nat
          = Some (Num (clip_gain (q1 - q0)))) as Hag
    by (by rewrite dashboard_avg_gain_S).
  assert (Dashboard.avg_loss p (of_reals (q0 :: q1 :: rest)) !! 1%nat
          = Some (Num (clip_loss (q1 - q0)))) as Hal
    by (by rewrite dashboard_avg_loss_S).
  split; [|split]; intros Hq; subst rsi1.
  - apply (rsi_of_saturated _ _ 1 _ _ Hag Hal).
    + apply clip_gain_rise. lra.
    + apply clip_loss_no_fall. lra.
  - apply (rsi_of_floor _ _ 1 _ _ Hag Hal).
    + apply clip_gain_no_rise. lra.
    + apply clip_loss_fall. lra.
  - apply (rsi_of_flat _ _ 1 _ _ Hag Hal).
    + apply clip_gain_no_rise. lra.
    + apply clip_loss_no_fall. lra.
Qed.

Lemma dashboard_first_rsi_witness :
  ∃ r, Dashboard.RSI 14 (of_reals scenario) !! 1%nat = Some (Num r)
       ∧ r == 100.
Proof.
  destruct (dashboard_first_rsi 10 11 (drop 2 scenario) 14 ltac:(lia))
    as (H & _).
  apply H. reflexivity.
Defined.

(** ** The exponential mean as a weighted average *)

Section EwmAverage.
Variable f : Q.
Hypothesis f_nonneg : 0 <= f.

Lemma decay_fold_proper (xs : list Q) (s s' : Q) :
  s == s' →
  foldl (fun acc x => f * acc + x) s xs
  == foldl (fun acc x => f * acc + x) s' xs.
Proof.
  revert s s'. induction xs as [|x xs IH]; intros s s' Hs; [done|].
  cbn [foldl]. apply IH. by rewrite Hs.
Qed.

(** The running mean times the running weight is the running decayed
    sum. *)
Lemma ewmQ_weighted_sum (xs : list Q) (a w : Q) (k : nat) (r : Q) :
  0 <= w → ewmQ f a w xs !! k = Some r →
  r * past_weight f w (S k)
  == foldl (fun acc x => f * acc + x) (a * w) (take (S k) xs).
Proof.
  revert a w k. induction xs as [|x xs IH]; intros a w k Hw Hr; [done|].
  assert (0 <= w * f) as Hd by nra.
  pose proof (ewm_blend f f_nonneg a w x Hw) as Hb.
  cbn [ewmQ] in Hr. cbn [take foldl].
  set (a' := if negb (Qeq_bool a x) then _ else a) in *.
  assert (a' * (w * f + 1) == f * (a * w) + x) as Hstep.
  { rewrite Hb. field. lra. }
  destruct k as [|k].
  - inversion Hr; subst r. cbn [past_weight take foldl]. done.
  - change ((?y :: ?ys) !! S k) with (ys !! k) in Hr.
    change (past_weight f w (S (S k)))
      with (past_weight f (w * f + 1) (S k)).
    rewrite (IH a' (w * f + 1) k ltac:(lra) Hr).
    by apply decay_fold_proper.
Qed.

Lemma ewm_reals_weighted_sum (xs : list Q) (k : nat) (r : Q) :
  ewm_reals f xs !! k = Some r →
  r * geom f (S k) == decayed_sum f (take (S k) xs).
Proof.
  intros Hr. destruct xs as [|x0 xs]; [done|].
  cbn [ewm_reals] in Hr. unfold decayed_sum. cbn [take foldl].
  destruct k as [|k].
  - inversion Hr; subst r. rewrite take_0. cbn [geom foldl]. ring.
  - change ((?y :: ?ys) !! S k) with (ys !! k) in Hr.
    rewrite <- (past_weight_seed f (S k)).
    rewrite (ewmQ_weighted_sum xs x0 1 k r ltac:(lra) Hr).
    apply decay_fold_proper. ring.
Qed.
End EwmAverage.

(** X9. In [gold_dashboard.py] the smoothed gain at a position [k+1] is
    the weighted average of all the gains so far with weights 1, f, f^2,
    ... from the newest back, where f = 1 - 2/(p+1): the smoothed gain
    times the total weight 1 + f + ... + f^k equals the decayed sum of
    the gains.  The smoothed loss likewise. *)
Theorem ewm_is_weighted_average (closes : list Q) (p k : nat) (a : Q) :
  (1 ≤ p)%nat →
  (Dashboard.avg_gain p (of_reals closes) !! S k = Some (Num a) →
   a * geom (old_wt_factor p) (S k)
   == decayed_sum (old_wt_factor p)
        (take (S k) (clip_gain <$> deltasQ closes)))
  ∧ (Dashboard.avg_loss p (of_reals closes) !! S k = Some (Num a) →
     a * geom (old_wt_factor p) (S k)
     == decayed_sum (old_wt_factor p)
          (take (S k) (clip_loss <$> deltasQ closes))).
Proof.
  intros Hp. pose proof (old_wt_factor_nonneg p Hp) as Hf. split; intros Ha.
  - rewrite dashboard_avg_gain_S in Ha by done.
    destruct (ewm_reals _ _ !! k) as [r|] eqn:Hr; [|done].
    inversion Ha; subst r. by apply ewm_reals_weighted_sum.
  - rewrite dashboard_avg_loss_S in Ha by done.
    destruct (ewm_reals _ _ !! k) as [r|] eqn:Hr; [|done].
    inversion Ha; subst r. by apply ewm_reals_weighted_sum.
Qed.

Lemma ewm_is_weighted_average_witness :
  (645 # 420) * geom (old_wt_factor 14) 2
  == decayed_sum (old_wt_factor 14)
       (take 2 (clip_gain <$> deltasQ [10; 11; 13])).
Proof.
  destruct (ewm_is_weighted_average [10; 11; 13] 14 1 (645 # 420)
              ltac:(lia)) as (H & _).
  apply H. reflexivity.
Defined.

(** ** Fetching the bars *)

Lemma frame_empty_false (d : DataFrame) :
  frame_empty d = false ↔ index d ≠ [] ∧ columns d ≠ ∅.
Proof.
  unfold frame_empty. rewrite orb_false_iff, !bool_decide_eq_false. done.
Qed.

Lemma frame_not_empty (idx : list Z) (cols : gmap string Series)
    (c : string) (s : Series) :
  idx ≠ [] → cols !! c = Some s → frame_empty (Frame idx cols) = false.
Proof.
  intros Hidx Hc. apply frame_empty_false. split; [done|].
  cbn [columns]. intros ->. by rewrite lookup_empty in Hc.
Qed.

Lemma names_present (df : DataFrame) (names : list string) :
  forallb (fun c => bool_decide (is_Some (columns df !! c))) names = true
  ↔ ∀ c, c ∈ names → is_Some (columns df !! c).
Proof.
  rewrite forallb_forall. split.
  - intros H c Hc. apply list_elem_of_In in Hc.
    specialize (H c Hc). by apply bool_decide_eq_true in H.
  - intros H c Hc. apply list_elem_of_In in Hc.
    apply bool_decide_eq_true. by apply H.
Qed.

Lemma select_run (l : loc) (names : list string) (df : DataFrame) (h : heap) :
  h !! l = Some df →
  (∀ c, c ∈ names → is_Some (columns df !! c)) →
  StreamlitScript.select l names h
  = Ret (fresh (dom h),
         <[fresh (dom h) :=
             Frame (index df)
               (filter (fun kv => kv.1 ∈ names) (columns df))]> h).
Proof.
  intros Hl Hnames. unfold StreamlitScript.select.
  rewrite (bind_run _ _ _ _ _ (read_frame_run l df h Hl)).
  by rewrite (proj2 (names_present df names) Hnames).
Qed.

Lemma select_missing (l : loc) (names : list string) (df : DataFrame)
    (h : heap) (c : string) :
  h !! l = Some df → c ∈ names → columns df !! c = None →
  StreamlitScript.select l names h = Raise KeyError.
Proof.
  intros Hl Hc Hnone. unfold StreamlitScript.select.
  rewrite (bind_run _ _ _ _ _ (read_frame_run l df h Hl)).
  destruct (forallb _ names) eqn:E; [|done].
  destruct (proj1 (names_present df names) E c Hc) as [s Hs]. congruence.
Qed.

Lemma selected_lookup (names : list string) (cols : gmap string Series)
    (c : string) :
  filter (fun kv : string * Series => kv.1 ∈ names) cols !! c
  = if decide (c ∈ names) then cols !! c else None.
Proof.
  destruct (decide (c ∈ names)) as [Hin|Hout].
  - destruct (cols !! c) as [s|] eqn:Hs.
    + by apply map_lookup_filter_Some.
    + apply map_lookup_filter_None. left. done.
  - apply map_lookup_filter_None. right. intros s _. done.
Qed.

Lemma get_gold_data_run (fetched : DataFrame) (h : heap) :
  frame_empty fetched = false →
  (∀ c, c ∈ StreamlitScript.ohlcv → is_Some (columns fetched !! c)) →
  let l0 := fresh (dom h) in
  let h0 : heap := <[l0 := fetched]> h in
  StreamlitScript.get_gold_data fetched h
  = Ret (fresh (dom h0),
         <[fresh (dom h0) :=
             Frame (index fetched)
               (filter (fun kv => kv.1 ∈ StreamlitScript.ohlcv)
                  (columns fetched))]> h0).
Proof.
  intros Hne Hcols l0 h0. unfold StreamlitScript.get_gold_data.
  assert (new_frame fetched h = Ret (l0, h0)) as Hnew by done.
  assert (h0 !! l0 = Some fetched) as Hd0 by apply lookup_insert_eq.
  rewrite (bind_run _ _ _ _ _ Hnew).
  rewrite (bind_run _ _ _ _ _ (read_frame_run l0 fetched h0 Hd0)).
  rewrite Hne. by apply select_run.
Qed.

(** X10. On a non-empty download that has the five OHLCV columns,
    [get_gold_data] returns a new frame object: the downloaded frame
    stays in the store as it was, and the new frame has the same index,
    the same five columns with the same values, and no other column. *)
Theorem get_gold_data_selects (fetched : DataFrame) (h : heap) :
  frame_empty fetched = false →
  (∀ c, c ∈ StreamlitScript.ohlcv → is_Some (columns fetched !! c)) →
  ∃ data d h',
    StreamlitScript.get_gold_data fetched h = Ret (data, h')
    ∧ h' !! data = Some d
    ∧ data ≠ fresh (dom h)
    ∧ h' !! fresh (dom h) = Some fetched
    ∧ (∀ l, l ∈ dom h → h' !! l = h !! l)
    ∧ index d = index fetched
    ∧ (∀ c, c ∈ StreamlitScript.ohlcv → columns d !! c = columns fetched !! c)
    ∧ (∀ c, c ∉ StreamlitScript.ohlcv → columns d !! c = None).
Proof.
  intros Hne Hcols.
  set (l0 := fresh (dom h)). set (h0 := (<[l0 := fetched]> h : heap)).
  set (l1 := fresh (dom h0)).
  assert (l1 ∉ dom h0) as Hfresh1 by apply is_fresh.
  assert (l0 ∉ dom h) as Hfresh0 by apply is_fresh.
  assert (l1 ≠ l0) as Hneq.
  { intros Heq. apply Hfresh1. rewrite Heq. unfold h0.
    rewrite dom_insert_L. set_solver. }
  eexists l1, _, _. split; [by apply get_gold_data_run|].
  split; [apply lookup_insert_eq|]. split; [done|]. split.
  { rewrite lookup_insert_ne by done. apply lookup_insert_eq. }
  split.
  { intros l Hl. rewrite lookup_insert_ne.
    - unfold h0. rewrite lookup_insert_ne; [done|]. intros Heq. by subst l.
    - intros Heq. subst l. apply Hfresh1. unfold h0. rewrite dom_insert_L.
      set_solver. }
  split; [done|]. cbn [columns]. split.
  - intros c Hc. rewrite selected_lookup. by rewrite decide_True.
  - intros c Hc. rewrite selected_lookup. by rewrite decide_False.
Qed.

Lemma get_gold_data_selects_witness :
  ∃ data d h',
    StreamlitScript.get_gold_data
      (Frame [1%Z; 2%Z]
         (<["Adj Close" := [Num 3; Num 4]]> (columns (bars [3; 4])))) ∅
    = Ret (data, h')
    ∧ h' !! data = Some d
    ∧ columns d !! "Close" = Some [Num 3; Num 4]
    ∧ columns d !! "Adj Close" = None.
Proof.
  assert ("Close" ∈ StreamlitScript.ohlcv) as Hclose by repeat constructor.
  assert ("Adj Close" ∉ StreamlitScript.ohlcv) as Hadj.
  { unfold StreamlitScript.ohlcv. rewrite !not_elem_of_cons.
    repeat split; (discriminate || apply not_elem_of_nil). }
  assert (∀ c, c ∈ StreamlitScript.ohlcv →
               is_Some (columns
                          (Frame [1%Z; 2%Z]
                             (<["Adj Close" := [Num 3; Num 4]]>
                                (columns (bars [3; 4])))) !! c)) as Hcols.
  { intros c Hc. unfold StreamlitScript.ohlcv in Hc.
    rewrite !elem_of_cons in Hc.
    destruct Hc as [->|[->|[->|[->|[->|Hc]]]]];
      [..|by apply elem_of_nil in Hc]; eexists; reflexivity. }
  assert (frame_empty
            (Frame [1%Z; 2%Z]
               (<["Adj Close" := [Num 3; Num 4]]> (columns (bars [3; 4]))))
          = false) as Hne.
  { apply (frame_not_empty _ _ "Close" [Num 3; Num 4]);
      [discriminate|reflexivity]. }
  destruct (get_gold_data_selects
              (Frame [1%Z; 2%Z]
                 (<["Adj Close" := [Num 3; Num 4]]> (columns (bars [3; 4]))))
              ∅ Hne Hcols)
    as (data & d & h' & Hrun & Hd & _ & _ & _ & _ & Hin & Hout).
  exists data, d, h'. split; [exact Hrun|]. split; [exact Hd|]. split.
  - rewrite (Hin "Close" Hclose). reflexivity.
  - exact (Hout "Adj Close" Hadj).
Defined.

(** X11. A non-empty download that lacks a needed column ends the run
    with a KeyError: any of the five OHLCV columns in
    [gold_dashboard_streamlit.py], the Close column in
    [gold_dashboard.py]. *)
Theorem missing_column_key_error (fetched : DataFrame) (h : heap) :
  frame_empty fetched = false →
  (∀ c, c ∈ StreamlitScript.ohlcv → columns fetched !! c = None →
        StreamlitScript.get_gold_data fetched h = Raise KeyError
        ∧ StreamlitScript.main fetched h = Raise KeyError)
  ∧ (columns fetched !! "Close" = None →
     DashboardScript.get_data fetched h = Raise KeyError).
Proof.
  intros Hne. split.
  - intros c Hc Hnone.
    assert (StreamlitScript.get_gold_data fetched h = Raise KeyError) as Hget.
    { unfold StreamlitScript.get_gold_data.
      set (l0 := fresh (dom h)). set (h0 := (<[l0 := fetched]> h : heap)).
      assert (new_frame fetched h = Ret (l0, h0)) as Hnew by done.
      assert (h0 !! l0 = Some fetched) as Hd0 by apply lookup_insert_eq.
      rewrite (bind_run _ _ _ _ _ Hnew).
      rewrite (bind_run _ _ _ _ _ (read_frame_run l0 fetched h0 Hd0)).
      rewrite Hne. by apply (select_missing l0 _ fetched h0 c). }
    split; [done|]. unfold StreamlitScript.main, StreamlitScript.main_with.
    by rewrite (bind_raise _ _ _ _ Hget).
  - intros Hnone. unfold DashboardScript.get_data, DashboardScript.get_data_with.
    set (df := fresh (dom h)). set (h0 := (<[df := fetched]> h : heap)).
    assert (new_frame fetched h = Ret (df, h0)) as Hnew by done.
    assert (h0 !! df = Some fetched) as Hd0 by apply lookup_insert_eq.
    rewrite (bind_run _ _ _ _ _ Hnew).
    rewrite (bind_run _ _ _ _ _ (read_frame_run df fetched h0 Hd0)).
    rewrite Hne. apply bind_raise. unfold getitem.
    rewrite (bind_run _ _ _ _ _ (read_frame_run df fetched h0 Hd0)).
    by rewrite Hnone.
Qed.

Lemma missing_column_key_error_witness :
  StreamlitScript.main
    (Frame [1%Z] (delete "Volume" (columns (bars [3])))) ∅ = Raise KeyError
  ∧ DashboardScript.get_data
      (Frame [1%Z] (delete "Close" (columns (bars [3])))) ∅ = Raise KeyError.
Proof.
  assert ("Volume" ∈ StreamlitScript.ohlcv) as Hvol by repeat constructor.
  assert (frame_empty (Frame [1%Z] (delete "Volume" (columns (bars [3]))))
          = false) as Hne1.
  { apply (frame_not_empty _ _ "Open" [Num 3]); [discriminate|reflexivity]. }
  assert (frame_empty (Frame [1%Z] (delete "Close" (columns (bars [3]))))
          = false) as Hne2.
  { apply (frame_not_empty _ _ "Open" [Num 3]); [discriminate|reflexivity]. }
  split.
  - destruct (missing_column_key_error
                (Frame [1%Z] (delete "Volume" (columns (bars [3])))) ∅
                Hne1) as (H & _).
    apply (H "Volume" Hvol). reflexivity.
  - destruct (missing_column_key_error
                (Frame [1%Z] (delete "Close" (columns (bars [3])))) ∅
                Hne2) as (_ & H).
    apply H. reflexivity.
Defined.

(** ** The Streamlit run end to end *)

Lemma with_indicators_sma20 (d : DataFrame) (a b r : Series) :
  columns (with_indicators d a b r) !! "SMA_20" = Some a.
Proof.
  unfold with_indicators. cbn [columns].
  by rewrite lookup_insert_ne, lookup_insert_ne, lookup_insert_eq.
Qed.

Lemma with_indicators_sma50 (d : DataFrame) (a b r : Series) :
  columns (with_indicators d a b r) !! "SMA_50" = Some b.
Proof.
  unfold with_indicators. cbn [columns].
  by rewrite lookup_insert_ne, lookup_insert_eq.
Qed.

Lemma in_ohlcv_cases (P : string → Prop) :
  P "Open" → P "High" → P "Low" → P "Close" → P "Volume" →
  ∀ c, c ∈ StreamlitScript.ohlcv → P c.
Proof.
  intros H1 H2 H3 H4 H5 c Hc. unfold StreamlitScript.ohlcv in Hc.
  rewrite !elem_of_cons in Hc.
  destruct Hc as [->|[->|[->|[->|[->|Hc]]]]]; try done.
  by apply elem_of_nil in Hc.
Qed.

(** The store after the download, the selection and the three
    assignments, whatever the rest of the run does. *)
Lemma main_run (fetched : DataFrame) (close : Series) (h : heap) :
  frame_empty fetched = false →
  (∀ c, c ∈ StreamlitScript.ohlcv → is_Some (columns fetched !! c)) →
  columns fetched !! "Close" = Some close →
  let l0 := fresh (dom h) in
  let h0 : heap := <[l0 := fetched]> h in
  let l1 := fresh (dom h0) in
  let sel := Frame (index fetched)
               (filter (fun kv => kv.1 ∈ StreamlitScript.ohlcv)
                  (columns fetched)) in
  let h2 : heap :=
    <[l1 := with_indicators sel (sma 20 close) (sma 50 close)
              (Streamlit.RSI 14 close)]> h0 in
  StreamlitScript.main fetched h
  = bind (StreamlitScript.current_values l1) (fun ch => ret (l1, ch)) h2.
Proof.
  intros Hne Hcols Hclose l0 h0 l1 sel h2.
  unfold StreamlitScript.main, StreamlitScript.main_with.
  rewrite (bind_run _ _ _ _ _ (get_gold_data_run fetched h Hne Hcols)).
  fold l0 h0 l1 sel. set (h1 := (<[l1 := sel]> h0 : heap)).
  assert (h1 !! l1 = Some sel) as Hd1 by apply lookup_insert_eq.
  assert (columns sel !! "Close" = Some close) as Hc1.
  { unfold sel. cbn [columns]. rewrite selected_lookup.
    rewrite decide_True; [done|]. repeat constructor. }
  assert (frame_empty sel = false) as Hne1.
  { apply (frame_not_empty _ _ "Close" close); [|done].
    by apply frame_empty_false in Hne as [? _]. }
  rewrite (bind_run _ _ _ _ _ (read_frame_run l1 sel h1 Hd1)).
  rewrite Hne1.
  rewrite (bind_run _ _ _ _ _
             (add_indicators_run 20 50 14 l1 sel close h1
                ltac:(lia) ltac:(lia) ltac:(lia) Hd1 Hc1)).
  unfold h1. rewrite insert_insert_eq. done.
Qed.

(** X12. When the Streamlit run gets past the change computation, the
    frame it works on is the selected copy, not the download: the
    downloaded frame is still in the store unchanged, every object that
    was in the store before is unchanged, and the copy holds the five
    OHLCV columns as downloaded plus SMA_20, SMA_50 and RSI computed from
    the Close column. *)
Theorem streamlit_run_frame (fetched : DataFrame) (close : Series) (h h' : heap)
    (data : loc) (ch : StreamlitScript.change) :
  frame_empty fetched = false →
  (∀ c, c ∈ StreamlitScript.ohlcv → is_Some (columns fetched !! c)) →
  columns fetched !! "Close" = Some close →
  StreamlitScript.main fetched h = Ret ((data, ch), h') →
  h' !! fresh (dom h) = Some fetched
  ∧ data ≠ fresh (dom h)
  ∧ (∀ l, l ∈ dom h → h' !! l = h !! l)
  ∧ ∃ d, h' !! data = Some d
         ∧ index d = index fetched
         ∧ (∀ c, c ∈ StreamlitScript.ohlcv →
                 columns d !! c = columns fetched !! c)
         ∧ columns d !! "SMA_20" = Some (sma 20 close)
         ∧ columns d !! "SMA_50" = Some (sma 50 close)
         ∧ columns d !! "RSI" = Some (Streamlit.RSI 14 close).
Proof.
  intros Hne Hcols Hclose Hrun.
  rewrite (main_run fetched close h Hne Hcols Hclose) in Hrun.
  cbv zeta in Hrun.
  set (l0 := fresh (dom h)) in *. set (h0 := (<[l0 := fetched]> h : heap)) in *.
  set (l1 := fresh (dom h0)) in *.
  set (d2 := with_indicators _ _ _ _) in Hrun.
  set (h2 := (<[l1 := d2]> h0 : heap)) in *.
  unfold bind in Hrun.
  destruct (StreamlitScript.current_values l1 h2) as [e|[ch' h3]] eqn:Hcv;
    [done|].
  apply current_values_heap in Hcv as ->.
  inversion Hrun; subst data ch' h'.
  assert (l1 ∉ dom h0) as Hfresh1 by apply is_fresh.
  assert (l0 ∉ dom h) as Hfresh0 by apply is_fresh.
  assert (l1 ≠ l0) as Hneq.
  { intros Heq. apply Hfresh1. rewrite Heq. unfold h0.
    rewrite dom_insert_L. set_solver. }
  split.
  { unfold h2. rewrite lookup_insert_ne by done. apply lookup_insert_eq. }
  split; [done|]. split.
  { intros l Hl. unfold h2. rewrite lookup_insert_ne.
    - unfold h0. rewrite lookup_insert_ne; [done|]. intros Heq. by subst l.
    - intros Heq. subst l. apply Hfresh1. unfold h0. rewrite dom_insert_L.
      set_solver. }
  exists d2. split; [apply lookup_insert_eq|]. split; [done|]. split.
  { intros c Hc. unfold d2.
    rewrite with_indicators_other by (by apply ohlcv_not_indicator).
    cbn [columns]. rewrite selected_lookup. by rewrite decide_True. }
  unfold d2. split; [apply with_indicators_sma20|].
  split; [apply with_indicators_sma50|apply with_indicators_rsi].
Qed.

Lemma bars_columns (closes : list Q) :
  ∀ c, c ∈ StreamlitScript.ohlcv → columns (bars closes) !! c = Some (of_reals closes).
Proof. apply in_ohlcv_cases; reflexivity. Qed.

Lemma bars_not_empty (q : Q) (closes : list Q) :
  frame_empty (bars (q :: closes)) = false.
Proof.
  apply (frame_not_empty _ _ "Close" (of_reals (q :: closes)));
    [discriminate|reflexivity].
Qed.

Lemma streamlit_run_frame_witness :
  ∃ data ch h' d,
    StreamlitScript.main (bars [5; 6; 8]) ∅ = Ret ((data, ch), h')
    ∧ h' !! fresh (dom (∅ : heap)) = Some (bars [5; 6; 8])
    ∧ h' !! data = Some d
    ∧ columns d !! "RSI" = Some (Streamlit.RSI 14 (of_reals [5; 6; 8])).
Proof.
  assert (∀ c, c ∈ StreamlitScript.ohlcv →
               is_Some (columns (bars [5; 6; 8]) !! c)) as Hcols.
  { intros c Hc. rewrite (bars_columns [5; 6; 8] c Hc). by eexists. }
  assert (∃ data ch h',
            StreamlitScript.main (bars [5; 6; 8]) ∅ = Ret ((data, ch), h'))
    as (data & ch & h' & Hrun).
  { eexists _, _, _. vm_compute. reflexivity. }
  destruct (streamlit_run_frame (bars [5; 6; 8]) (of_reals [5; 6; 8]) ∅ h'
              data ch (bars_not_empty 5 [6; 8]) Hcols eq_refl Hrun)
    as (Hl0 & _ & _ & d & Hd & _ & _ & _ & _ & Hrsi).
  exists data, ch, h', d.
  split; [exact Hrun|]. split; [exact Hl0|]. split; [exact Hd|exact Hrsi].
Defined.

(** ** The change cards *)

Lemma iloc_last (s : Series) (x : Float) (h : heap) :
  iloc (s ++ [x]) (-1) h = Ret (x, h).
Proof.
  unfold iloc. rewrite length_app. cbn [length].
  destruct (Z.ltb_spec (-1) 0); [|lia].
  destruct (Z.ltb_spec (Z.of_nat (length s + 1) + -1) 0); [lia|].
  replace (Z.to_nat (Z.of_nat (length s + 1) + -1)) with (length s + 0)%nat
    by lia.
  by rewrite lookup_app_r, Nat.add_comm, Nat.add_sub by lia.
Qed.

Lemma iloc_second_last (s : Series) (x y : Float) (h : heap) :
  iloc (s ++ [x; y]) (-2) h = Ret (x, h).
Proof.
  unfold iloc. rewrite length_app. cbn [length].
  destruct (Z.ltb_spec (-2) 0); [|lia].
  destruct (Z.ltb_spec (Z.of_nat (length s + 2) + -2) 0); [lia|].
  replace (Z.to_nat (Z.of_nat (length s + 2) + -2)) with (length s + 0)%nat
    by lia.
  by rewrite lookup_app_r, Nat.add_comm, Nat.add_sub by lia.
Qed.

Lemma iloc_single_second_last (x : Float) (h : heap) :
  iloc [x] (-2) h = Raise IndexError.
Proof. done. Qed.

Lemma of_reals_app (l1 l2 : list Q) :
  of_reals (l1 ++ l2) = of_reals l1 ++ of_reals l2.
Proof. apply fmap_app. Qed.

Lemma iloc_last_lookup (s : Series) (h : heap) :
  s ≠ [] →
  ∃ x, s !! (length s - 1)%nat = Some x ∧ iloc s (-1) h = Ret (x, h).
Proof.
  intros Hs. destruct (decide (s = [])) as [|_]; [done|].
  assert (∃ s' x, s = s' ++ [x]) as (s' & x & ->).
  { destruct s as [|y s] using rev_ind; [done|]. by exists s, y. }
  exists x. split; [|apply iloc_last].
  rewrite length_app. cbn [length].
  replace (length s' + 1 - 1)%nat with (length s' + 0)%nat by lia.
  by rewrite lookup_app_r, Nat.add_comm, Nat.add_sub by lia.
Qed.

(** X13. In [gold_dashboard_streamlit.py], on a frame of two bars or
    more with finite closes, the previous close is the close before the
    last, the price change is their difference and the percent change is
    that difference over the previous close, times 100; when the
    previous close is 0 the division raises. *)
Theorem streamlit_change_two_bars (l : list Q) (a b : Q) (data : loc)
    (d : DataFrame) (h : heap) :
  h !! data = Some d →
  columns d !! "Close" = Some (of_reals (l ++ [a; b])) →
  (1 < length (index d))%nat →
  (¬ a == 0 →
   StreamlitScript.current_values data h
   = Ret (StreamlitScript.Change (Num b) (Num a) (Num (b - a))
            (Num ((b - a) / a * 100)), h))
  ∧ (a == 0 →
     StreamlitScript.current_values data h = Raise ZeroDivisionError).
Proof.
  intros Hd Hclose Hlen.
  assert (iloc (of_reals (l ++ [a; b])) (-1) h = Ret (Num b, h)) as Hlast.
  { replace (l ++ [a; b]) with ((l ++ [a]) ++ [b]) by by rewrite <- app_assoc.
    rewrite of_reals_app. apply iloc_last. }
  assert (iloc (of_reals (l ++ [a; b])) (-2) h = Ret (Num a, h)) as Hprev.
  { rewrite of_reals_app. apply iloc_second_last. }
  assert ((if (1 <? length (index d))%nat
           then bind (getitem data "Close") (fun close => iloc close (-2))
           else ret (Num b)) h = Ret (Num a, h)) as Hsel.
  { destruct (Nat.ltb_spec 1 (length (index d))); [|lia].
    by rewrite (bind_run _ _ _ _ _ (getitem_run data "Close" d _ h Hd Hclose)). }
  assert (StreamlitScript.current_values data h
          = bind (py_truediv (fsub (Num b) (Num a)) (Num a))
              (fun q => ret (StreamlitScript.Change (Num b) (Num a)
                               (fsub (Num b) (Num a)) (fmul q (Num 100)))) h)
    as Hcv.
  { unfold StreamlitScript.current_values.
    rewrite (bind_run _ _ _ _ _ (getitem_run data "Close" d _ h Hd Hclose)).
    rewrite (bind_run _ _ _ _ _ Hlast).
    rewrite (bind_run _ _ _ _ _ (len_run data d h Hd)).
    by rewrite (bind_run _ _ _ _ _ Hsel). }
  rewrite Hcv. split; intros Ha.
  - assert (py_truediv (fsub (Num b) (Num a)) (Num a) h
            = Ret (Num ((b - a) / a), h)) as Hdiv.
    { unfold py_truediv. cbn [feqb fsub fneg fadd].
      rewrite (Qeq_bool_false a 0 Ha). unfold ret. by rewrite fdiv_num. }
    by rewrite (bind_run _ _ _ _ _ Hdiv).
  - apply bind_raise. unfold py_truediv. cbn [feqb].
    by rewrite (Qeq_bool_true a 0 Ha).
Qed.

Lemma streamlit_change_two_bars_witness :
  StreamlitScript.current_values 0%nat {[ 0%nat := bars [1800; 2000; 2100] ]}
  = Ret (StreamlitScript.Change (Num 2100) (Num 2000) (Num (2100 - 2000))
           (Num ((2100 - 2000) / 2000 * 100)),
         {[ 0%nat := bars [1800; 2000; 2100] ]}).
Proof.
  destruct (streamlit_change_two_bars [1800] 2000 2100 0%nat
              (bars [1800; 2000; 2100]) {[ 0%nat := bars [1800; 2000; 2100] ]})
    as (H & _); [reflexivity|reflexivity|cbn; lia|].
  apply H. intros Hz. discriminate Hz.
Defined.

(** ** The cards of [gold_dashboard.py] *)

Lemma with_indicators_close (d : DataFrame) (a b r : Series) :
  columns (with_indicators d a b r) !! "Close" = columns d !! "Close".
Proof.
  apply with_indicators_other, ohlcv_not_indicator. repeat constructor.
Qed.

(** The run up to the card values: the frame of [get_data] sits at a
    fresh location with its three new columns. *)
Lemma dashboard_run_frame (fetched : DataFrame) (close : Series) (h : heap) :
  frame_empty fetched = false → columns fetched !! "Close" = Some close →
  let df := fresh (dom h) in
  let d := with_indicators fetched (sma 20 close) (sma 50 close)
             (Dashboard.RSI 14 close) in
  DashboardPage.run fetched h
  = DashboardPage.page_values df (<[df := d]> h)
  ∧ (<[df := d]> h : heap) !! df = Some d
  ∧ columns d !! "Close" = Some close
  ∧ columns d !! "RSI" = Some (Dashboard.RSI 14 close).
Proof.
  intros Hne Hclose df d. split; [|split; [|split]].
  - unfold DashboardPage.run, DashboardScript.get_data.
    by rewrite (bind_run _ _ _ _ _
                  (get_data_run 20 50 14 fetched close h ltac:(lia) ltac:(lia)
                     ltac:(lia) Hne Hclose)).
  - apply lookup_insert_eq.
  - unfold d. by rewrite with_indicators_close.
  - apply with_indicators_rsi.
Qed.

Lemma rsi_lengths (close : Series) (p : nat) :
  length (Dashboard.RSI p close) = length close
  ∧ length (Streamlit.RSI p close) = length close.
Proof.
  split.
  - unfold Dashboard.RSI, Dashboard.avg_gain, Dashboard.avg_loss.
    rewrite rsi_of_length, !ewm_mean_length.
    rewrite dashboard_gain_length, dashboard_loss_length. lia.
  - unfold Streamlit.RSI, Streamlit.avg_gain, Streamlit.avg_loss.
    rewrite rsi_of_length, !rolling_mean_length.
    rewrite streamlit_gain_length, streamlit_loss_length. lia.
Qed.

(** X14. [gold_dashboard.py] has no fallback for the previous close: on
    a download of exactly one bar the run ends with an IndexError at
    [iloc[-2]], after the indicators were computed. *)
Theorem dashboard_single_bar_index_error (fetched : DataFrame) (x : Float)
    (h : heap) :
  frame_empty fetched = false → columns fetched !! "Close" = Some [x] →
  DashboardPage.run fetched h = Raise IndexError.
Proof.
  intros Hne Hclose.
  destruct (dashboard_run_frame fetched [x] h Hne Hclose)
    as (Hrun & Hd & Hc & _).
  rewrite Hrun. unfold DashboardPage.page_values.
  rewrite (bind_run _ _ _ _ _ (getitem_run _ "Close" _ _ _ Hd Hc)).
  rewrite (bind_run _ _ _ _ _ (iloc_last [] x _)).
  rewrite (bind_run _ _ _ _ _ (getitem_run _ "Close" _ _ _ Hd Hc)).
  apply bind_raise. apply iloc_single_second_last.
Qed.

Lemma dashboard_single_bar_index_error_witness :
  DashboardPage.run (bars [1850]) ∅ = Raise IndexError.
Proof.
  apply (dashboard_single_bar_index_error (bars [1850]) (Num 1850) ∅).
  - apply bars_not_empty.
  - reflexivity.
Defined.

Lemma fge_diff_zero (a b : Q) :
  fge (fsub (Num b) (Num a)) (Num 0) = true ↔ a <= b.
Proof.
  cbn [fsub fneg fadd fge flt]. rewrite negb_true_iff, Qltb_ge. split; lra.
Qed.

(** X15. In [gold_dashboard.py], on a download of two bars or more with
    finite closes, the price change is the last close minus the one
    before, the percent change is that difference over the last close
    (not over the previous one), times 100, the change card is
    "positive" exactly when the last close is not below the one before,
    and the RSI card shows the last entry of the RSI column; a last close
    of 0 makes the division raise. *)
Theorem dashboard_page_values (fetched : DataFrame) (l : list Q) (a b : Q)
    (h : heap) :
  frame_empty fetched = false →
  columns fetched !! "Close" = Some (of_reals (l ++ [a; b])) →
  (b == 0 → DashboardPage.run fetched h = Raise ZeroDivisionError)
  ∧ (¬ b == 0 →
     ∃ m h', DashboardPage.run fetched h = Ret (m, h')
             ∧ DashboardPage.current_price m = Num b
             ∧ DashboardPage.price_change m = Num (b - a)
             ∧ DashboardPage.pct_change m = Num ((b - a) / b * 100)
             ∧ (DashboardPage.change_class m = "positive" ↔ a <= b)
             ∧ Dashboard.RSI 14 (of_reals (l ++ [a; b])) !! (length l + 1)%nat
               = Some (DashboardPage.rsi m)).
Proof.
  intros Hne Hclose.
  destruct (dashboard_run_frame fetched _ h Hne Hclose)
    as (Hrun & Hd & Hc & Hrsi).
  set (h1 := (<[fresh (dom h) := _]> h : heap)) in *.
  assert (iloc (of_reals (l ++ [a; b])) (-1) h1 = Ret (Num b, h1)) as Hlast.
  { replace (l ++ [a; b]) with ((l ++ [a]) ++ [b]) by by rewrite <- app_assoc.
    rewrite of_reals_app. apply iloc_last. }
  assert (iloc (of_reals (l ++ [a; b])) (-2) h1 = Ret (Num a, h1)) as Hprev.
  { rewrite of_reals_app. apply iloc_second_last. }
  rewrite Hrun. unfold DashboardPage.page_values.
  rewrite (bind_run _ _ _ _ _ (getitem_run _ "Close" _ _ _ Hd Hc)).
  rewrite (bind_run _ _ _ _ _ Hlast).
  rewrite (bind_run _ _ _ _ _ (getitem_run _ "Close" _ _ _ Hd Hc)).
  rewrite (bind_run _ _ _ _ _ Hprev).
  split; intros Hb.
  - apply bind_raise. unfold py_truediv. cbn [feqb].
    by rewrite (Qeq_bool_true b 0 Hb).
  - assert (py_truediv (fsub (Num b) (Num a)) (Num b) h1
            = Ret (Num ((b - a) / b), h1)) as Hdiv.
    { unfold py_truediv. cbn [feqb fsub fneg fadd].
      rewrite (Qeq_bool_false b 0 Hb). unfold ret. by rewrite fdiv_num. }
    rewrite (bind_run _ _ _ _ _ Hdiv).
    rewrite (bind_run _ _ _ _ _ (getitem_run _ "RSI" _ _ _ Hd Hrsi)).
    destruct (iloc_last_lookup (Dashboard.RSI 14 (of_reals (l ++ [a; b]))) h1)
      as (r & Hr & Hiloc).
    { intros Hnil. apply (f_equal length) in Hnil.
      destruct (rsi_lengths (of_reals (l ++ [a; b])) 14) as [Hlen _].
      rewrite Hlen, of_reals_length, length_app in Hnil. cbn in Hnil. lia. }
    rewrite (bind_run _ _ _ _ _ Hiloc).
    eexists _, _. split; [reflexivity|].
    cbn [DashboardPage.current_price DashboardPage.price_change
         DashboardPage.pct_change DashboardPage.change_class
         DashboardPage.rsi].
    split; [done|]. split; [done|]. split; [done|]. split.
    + rewrite <- (fge_diff_zero a b).
      destruct (fge (fsub (Num b) (Num a)) (Num 0)); split; done.
    + rewrite <- Hr. f_equal.
      destruct (rsi_lengths (of_reals (l ++ [a; b])) 14) as [Hlen _].
      rewrite Hlen, of_reals_length, length_app. cbn. lia.
Qed.

Lemma dashboard_page_values_witness :
  ∃ m h', DashboardPage.run (bars [1800; 2000; 2100]) ∅ = Ret (m, h')
          ∧ DashboardPage.current_price m = Num 2100
          ∧ DashboardPage.price_change m = Num (2100 - 2000)
          ∧ DashboardPage.pct_change m = Num ((2100 - 2000) / 2100 * 100)
          ∧ (DashboardPage.change_class m = "positive" ↔ 2000 <= 2100)
          ∧ Dashboard.RSI 14 (of_reals ([1800] ++ [2000; 2100]))
            !! (length [1800] + 1)%nat
            = Some (DashboardPage.rsi m).
Proof.
  destruct (dashboard_page_values (bars [1800; 2000; 2100]) [1800] 2000 2100 ∅
              (bars_not_empty 1800 [2000; 2100]) eq_refl) as (_ & H).
  apply H. intros Hz. discriminate Hz.
Defined.

(** ** The cards of [gold_dashboard_streamlit.py] *)

(** A run that returns went through the selected copy at [l1]; the card
    values are computed on the store as the indicators left it. *)
Lemma streamlit_page_run (fetched : DataFrame) (close : Series) (h h' : heap)
    (cards : StreamlitPage.cards) :
  frame_empty fetched = false →
  (∀ c, c ∈ StreamlitScript.ohlcv → is_Some (columns fetched !! c)) →
  columns fetched !! "Close" = Some close →
  StreamlitPage.run fetched h = Ret (cards, h') →
  ∃ data d ch h2,
    h2 !! data = Some d
    ∧ (∀ c, c ∈ StreamlitScript.ohlcv → columns d !! c = columns fetched !! c)
    ∧ columns d !! "RSI" = Some (Streamlit.RSI 14 close)
    ∧ StreamlitPage.card_values data ch h2 = Ret (cards, h').
Proof.
  intros Hne Hcols Hclose Hrun. unfold StreamlitPage.run in Hrun.
  unfold bind at 1 in Hrun.
  rewrite (main_run fetched close h Hne Hcols Hclose) in Hrun.
  cbv zeta in Hrun.
  set (l1 := fresh (dom (<[fresh (dom h) := fetched]> h))) in *.
  set (d2 := with_indicators _ _ _ _) in Hrun.
  set (h2 := (<[l1 := d2]> _ : heap)) in *.
  unfold bind at 1 in Hrun.
  destruct (StreamlitScript.current_values l1 h2) as [e|[ch h3]] eqn:Hcv;
    [done|].
  apply current_values_heap in Hcv as ->. cbn [ret fst snd] in Hrun.
  exists l1, d2, ch, h2. split; [apply lookup_insert_eq|]. split.
  { intros c Hc. unfold d2.
    rewrite with_indicators_other by (by apply ohlcv_not_indicator).
    cbn [columns]. rewrite selected_lookup. by rewrite decide_True. }
  split; [apply with_indicators_rsi|done].
Qed.

Lemma card_values_inv (data : loc) (d : DataFrame) (ch : StreamlitScript.change)
    (rsi_col low high : Series) (h h' : heap) (cards : StreamlitPage.cards) :
  h !! data = Some d →
  columns d !! "RSI" = Some rsi_col →
  columns d !! "Low" = Some low → columns d !! "High" = Some high →
  StreamlitPage.card_values data ch h = Ret (cards, h') →
  rsi_col !! (length rsi_col - 1)%nat = Some (StreamlitPage.rsi_value cards)
  ∧ StreamlitPage.rsi_class cards
    = (if fgt (StreamlitPage.rsi_value cards) (Num 70) then "negative"
       else if flt (StreamlitPage.rsi_value cards) (Num 30) then "positive"
       else "neutral")
  ∧ StreamlitPage.range_low cards = series_min low
  ∧ StreamlitPage.range_high cards = series_max high.
Proof.
  intros Hd Hrsi Hlow Hhigh Hrun. unfold StreamlitPage.card_values in Hrun.
  rewrite (bind_run _ _ _ _ _ (getitem_run _ "RSI" _ _ _ Hd Hrsi)) in Hrun.
  destruct (decide (rsi_col = [])) as [->|Hne]; [done|].
  destruct (iloc_last_lookup rsi_col h Hne) as (r & Hr & Hiloc).
  rewrite (bind_run _ _ _ _ _ Hiloc) in Hrun.
  rewrite (bind_run _ _ _ _ _ (getitem_run _ "Low" _ _ _ Hd Hlow)) in Hrun.
  rewrite (bind_run _ _ _ _ _ (getitem_run _ "High" _ _ _ Hd Hhigh)) in Hrun.
  inversion Hrun; subst cards h'. done.
Qed.

Lemma streamlit_rsi_early (closes : list Q) (p i : nat) :
  (i < length closes)%nat → (S i < p)%nat →
  Streamlit.RSI p (of_reals closes) !! i = Some NaN.
Proof.
  intros Hi Hp. unfold Streamlit.RSI.
  by rewrite rsi_of_lookup, (streamlit_avg_gain_early closes p i Hi Hp),
    (streamlit_avg_loss_early closes p i Hi Hp).
Qed.

(** X16. When the Streamlit run returns, the RSI card shows the last
    entry of the RSI column; with fewer than 14 bars that entry is NaN
    and the card gets the class "neutral", since NaN is neither above 70
    nor below 30. *)
Theorem streamlit_rsi_card (fetched : DataFrame) (closes : list Q)
    (h h' : heap) (cards : StreamlitPage.cards) :
  frame_empty fetched = false →
  (∀ c, c ∈ StreamlitScript.ohlcv → is_Some (columns fetched !! c)) →
  columns fetched !! "Close" = Some (of_reals closes) →
  StreamlitPage.run fetched h = Ret (cards, h') →
  Streamlit.RSI 14 (of_reals closes) !! (length closes - 1)%nat
  = Some (StreamlitPage.rsi_value cards)
  ∧ ((length closes < 14)%nat →
     StreamlitPage.rsi_value cards = NaN
     ∧ StreamlitPage.rsi_class cards = "neutral").
Proof.
  intros Hne Hcols Hclose Hrun.
  destruct (streamlit_page_run fetched _ h h' cards Hne Hcols Hclose Hrun)
    as (data & d & ch & h2 & Hd & Hsame & Hrsi & Hcards).
  destruct (Hcols "Low" ltac:(repeat constructor)) as [low Hlow].
  destruct (Hcols "High" ltac:(repeat constructor)) as [high Hhigh].
  rewrite <- (Hsame "Low") in Hlow by repeat constructor.
  rewrite <- (Hsame "High") in Hhigh by repeat constructor.
  destruct (card_values_inv data d ch _ low high h2 h' cards Hd Hrsi Hlow
              Hhigh Hcards) as (Hlast & Hclass & _).
  destruct (rsi_lengths (of_reals closes) 14) as [_ Hlen].
  rewrite Hlen, of_reals_length in Hlast. split; [done|].
  intros Hshort.
  assert (0 < length closes)%nat as Hpos.
  { apply lookup_lt_Some in Hlast. rewrite Hlen, of_reals_length in Hlast.
    lia. }
  rewrite streamlit_rsi_early in Hlast by lia.
  assert (StreamlitPage.rsi_value cards = NaN) as Hnan by congruence.
  rewrite Hnan in Hclass. done.
Qed.

Lemma streamlit_rsi_card_witness :
  ∃ cards h',
    StreamlitPage.run (bars [5; 6; 8]) ∅ = Ret (cards, h')
    ∧ StreamlitPage.rsi_value cards = NaN
    ∧ StreamlitPage.rsi_class cards = "neutral".
Proof.
  assert (∀ c, c ∈ StreamlitScript.ohlcv →
               is_Some (columns (bars [5; 6; 8]) !! c)) as Hcols.
  { intros c Hc. rewrite (bars_columns [5; 6; 8] c Hc). by eexists. }
  assert (∃ cards h', StreamlitPage.run (bars [5; 6; 8]) ∅ = Ret (cards, h'))
    as (cards & h' & Hrun).
  { eexists _, _. vm_compute. reflexivity. }
  destruct (streamlit_rsi_card (bars [5; 6; 8]) [5; 6; 8] ∅ h' cards
              (bars_not_empty 5 [6; 8]) Hcols eq_refl Hrun) as (_ & Hshort).
  exists cards, h'. split; [exact Hrun|]. apply Hshort. cbn. lia.
Defined.

(** *** Today's range *)

Lemma fold_fmin2_reals (l : list Q) (x : Q) :
  ∃ m, foldl fmin2 (Num x) (of_reals l) = Num m
       ∧ m ∈ x :: l ∧ Forall (fun y => m <= y) (x :: l).
Proof.
  revert x. induction l as [|y l IH]; intros x.
  - exists x. split; [done|]. split; [by left|]. constructor; [lra|constructor].
  - change (of_reals (y :: l)) with (Num y :: of_reals l). cbn [foldl].
    unfold fmin2 at 2. cbn [flt].
    destruct (Qltb y x) eqn:E.
    + apply Qltb_lt in E. destruct (IH y) as (m & Hm & Hin & Hall).
      exists m. split; [done|]. split; [by right|].
      apply Forall_cons in Hall as [Hmy Hall].
      constructor; [lra|]. by constructor.
    + apply Qltb_ge in E. destruct (IH x) as (m & Hm & Hin & Hall).
      exists m. split; [done|]. split.
      * apply elem_of_cons in Hin as [->|Hin]; [by left|by right; right].
      * apply Forall_cons in Hall as [Hmx Hall].
        constructor; [done|]. constructor; [lra|done].
Qed.

Lemma fold_fmax2_reals (l : list Q) (x : Q) :
  ∃ m, foldl fmax2 (Num x) (of_reals l) = Num m
       ∧ m ∈ x :: l ∧ Forall (fun y => y <= m) (x :: l).
Proof.
  revert x. induction l as [|y l IH]; intros x.
  - exists x. split; [done|]. split; [by left|]. constructor; [lra|constructor].
  - change (of_reals (y :: l)) with (Num y :: of_reals l). cbn [foldl].
    unfold fmax2 at 2. cbn [flt].
    destruct (Qltb x y) eqn:E.
    + apply Qltb_lt in E. destruct (IH y) as (m & Hm & Hin & Hall).
      exists m. split; [done|]. split; [by right|].
      apply Forall_cons in Hall as [Hmy Hall].
      constructor; [lra|]. by constructor.
    + apply Qltb_ge in E. destruct (IH x) as (m & Hm & Hin & Hall).
      exists m. split; [done|]. split.
      * apply elem_of_cons in Hin as [->|Hin]; [by left|by right; right].
      * apply Forall_cons in Hall as [Hmx Hall].
        constructor; [done|]. constructor; [lra|done].
Qed.

Lemma series_min_reals (l : list Q) :
  l ≠ [] →
  ∃ m, series_min (of_reals l) = Num m
       ∧ m ∈ l ∧ Forall (fun y => m <= y) l.
Proof.
  intros Hl. destruct l as [|x l]; [done|]. unfold series_min.
  rewrite filter_notna_of_reals.
  change (of_reals (x :: l)) with (Num x :: of_reals l).
  apply fold_fmin2_reals.
Qed.

Lemma series_max_reals (l : list Q) :
  l ≠ [] →
  ∃ m, series_max (of_reals l) = Num m
       ∧ m ∈ l ∧ Forall (fun y => y <= m) l.
Proof.
  intros Hl. destruct l as [|x l]; [done|]. unfold series_max.
  rewrite filter_notna_of_reals.
  change (of_reals (x :: l)) with (Num x :: of_reals l).
  apply fold_fmax2_reals.
Qed.

(** X17. When the Streamlit run returns on finite lows and highs, the
    range card shows the lowest low and the highest high of the frame:
    each is attained by a bar, no low is below the first, no high above
    the second, and if every bar has its low at most its high the range
    is well ordered. *)
Theorem streamlit_range_card (fetched : DataFrame) (close : Series)
    (lows highs : list Q) (h h' : heap) (cards : StreamlitPage.cards) :
  frame_empty fetched = false →
  (∀ c, c ∈ StreamlitScript.ohlcv → is_Some (columns fetched !! c)) →
  columns fetched !! "Close" = Some close →
  columns fetched !! "Low" = Some (of_reals lows) →
  columns fetched !! "High" = Some (of_reals highs) →
  lows ≠ [] → length highs = length lows →
  StreamlitPage.run fetched h = Ret (cards, h') →
  ∃ lo hi,
    StreamlitPage.range_low cards = Num lo
    ∧ StreamlitPage.range_high cards = Num hi
    ∧ lo ∈ lows ∧ hi ∈ highs
    ∧ Forall (fun y => lo <= y) lows
    ∧ Forall (fun y => y <= hi) highs
    ∧ ((∀ i x y, lows !! i = Some x → highs !! i = Some y → x <= y) →
       lo <= hi).
Proof.
  intros Hne Hcols Hclose Hlow Hhigh Hlows Hlen Hrun.
  destruct (streamlit_page_run fetched _ h h' cards Hne Hcols Hclose Hrun)
    as (data & d & ch & h2 & Hd & Hsame & Hrsi & Hcards).
  rewrite <- (Hsame "Low") in Hlow by repeat constructor.
  rewrite <- (Hsame "High") in Hhigh by repeat constructor.
  destruct (card_values_inv data d ch _ _ _ h2 h' cards Hd Hrsi Hlow
              Hhigh Hcards) as (_ & _ & Hmin & Hmax).
  assert (highs ≠ []) as Hhighs.
  { intros ->. destruct lows; [done|]. cbn in Hlen. lia. }
  destruct (series_min_reals lows Hlows) as (lo & Elo & Hlo_in & Hlo_all).
  destruct (series_max_reals highs Hhighs) as (hi & Ehi & Hhi_in & Hhi_all).
  exists lo, hi. rewrite Hmin, Hmax.
  split; [done|]. split; [done|]. split; [done|]. split; [done|].
  split; [done|]. split; [done|].
  intros Hbars.
  apply list_elem_of_lookup in Hlo_in as [i Hi].
  destruct (lookup_lt_is_Some_2 highs i) as [y Hy].
  { rewrite Hlen. by apply lookup_lt_Some in Hi. }
  pose proof (Hbars i lo y Hi Hy).
  rewrite Forall_lookup in Hhi_all. pose proof (Hhi_all i y Hy). lra.
Qed.

Lemma streamlit_range_card_witness :
  ∃ cards h' lo hi,
    StreamlitPage.run
      (ohlcv_frame [5; 6] [7; 9] [4; 3] [6; 8] [1; 1]) ∅ = Ret (cards, h')
    ∧ StreamlitPage.range_low cards = Num lo
    ∧ StreamlitPage.range_high cards = Num hi
    ∧ lo <= hi.
Proof.
  set (f := ohlcv_frame [5; 6] [7; 9] [4; 3] [6; 8] [1; 1]).
  assert (∀ c, c ∈ StreamlitScript.ohlcv → is_Some (columns f !! c)) as Hcols.
  { apply in_ohlcv_cases; eexists; reflexivity. }
  assert (frame_empty f = false) as Hne.
  { apply (frame_not_empty _ _ "Close" (of_reals [6; 8]));
      [discriminate|reflexivity]. }
  assert (∃ cards h', StreamlitPage.run f ∅ = Ret (cards, h'))
    as (cards & h' & Hrun).
  { eexists _, _. vm_compute. reflexivity. }
  destruct (streamlit_range_card f (of_reals [6; 8]) [4; 3] [7; 9] ∅ h' cards
              Hne Hcols eq_refl eq_refl eq_refl ltac:(discriminate) eq_refl
              Hrun) as (lo & hi & Hlo & Hhi & _ & _ & _ & _ & Hle).
  exists cards, h', lo, hi. split; [exact Hrun|]. split; [exact Hlo|].
  split; [exact Hhi|]. apply Hle.
  intros i x y Hx Hy.
  do 2 (destruct i as [|i];
        [inversion Hx; inversion Hy; subst; cbv; congruence|]).
  discriminate Hx.
Defined.

(** ** The news list *)

Lemma lstrip_spec (s : pystr) :
  ∃ ws, s = ws ++ lstrip s
        ∧ Forall (fun c => py_isspace c = true) ws
        ∧ (∀ c, head (lstrip s) = Some c → py_isspace c = false).
Proof.
  induction s as [|c s IH].
  - exists []. split; [done|]. split; [constructor|done].
  - cbn [lstrip]. destruct (py_isspace c) eqn:E.
    + destruct IH as (ws & Hs & Hws & Hhead). exists (c :: ws).
      split; [cbn; by f_equal|]. split; [by constructor|done].
    + exists []. split; [done|]. split; [constructor|].
      intros c' Hc'. by inversion Hc'; subst c'.
Qed.

Lemma lstrip_id (s : pystr) :
  (∀ c, head s = Some c → py_isspace c = false) → lstrip s = s.
Proof.
  intros H. destruct s as [|c s]; [done|]. cbn [lstrip].
  by rewrite (H c eq_refl).
Qed.

Lemma rstrip_spec (s : pystr) :
  ∃ ws, s = rstrip s ++ ws
        ∧ Forall (fun c => py_isspace c = true) ws
        ∧ (∀ c, last (rstrip s) = Some c → py_isspace c = false).
Proof.
  destruct (lstrip_spec (reverse s)) as (ws & Hs & Hws & Hhead).
  exists (reverse ws). unfold rstrip. split; [|split].
  - rewrite <- reverse_app, <- Hs. by rewrite reverse_involutive.
  - by apply Forall_reverse.
  - intros c Hc. rewrite last_reverse in Hc. by apply Hhead.
Qed.

Lemma rstrip_id (s : pystr) :
  (∀ c, last s = Some c → py_isspace c = false) → rstrip s = s.
Proof.
  intros H. unfold rstrip. rewrite lstrip_id.
  - apply reverse_involutive.
  - intros c Hc. rewrite head_reverse in Hc. by apply H.
Qed.

Lemma rstrip_head (s : pystr) (c : N) :
  head (rstrip s) = Some c → head s = Some c.
Proof.
  destruct (rstrip_spec s) as (ws & Hs & _ & _). intros Hc.
  rewrite Hs. by destruct (rstrip s).
Qed.

(** What [strip] returns: the text without the whitespace at its two
    ends, and nothing else removed. *)
Lemma strip_spec (s : pystr) :
  (∃ ws1 ws2, s = ws1 ++ strip s ++ ws2
              ∧ Forall (fun c => py_isspace c = true) ws1
              ∧ Forall (fun c => py_isspace c = true) ws2)
  ∧ (∀ c, head (strip s) = Some c → py_isspace c = false)
  ∧ (∀ c, last (strip s) = Some c → py_isspace c = false)
  ∧ strip (strip s) = strip s.
Proof.
  destruct (lstrip_spec s) as (ws1 & Hs1 & Hws1 & Hhead).
  destruct (rstrip_spec (lstrip s)) as (ws2 & Hs2 & Hws2 & Hlast).
  assert (∀ c, head (strip s) = Some c → py_isspace c = false) as Hh.
  { intros c Hc. apply Hhead. by apply rstrip_head. }
  split; [|split; [done|split; [done|]]].
  - exists ws1, ws2. unfold strip. by rewrite <- Hs2.
  - unfold strip at 1. rewrite (lstrip_id (strip s) Hh).
    by apply rstrip_id.
Qed.

Lemma news_entry_Some (a : anchor) (item : news_item) :
  news_entry a = Some item →
  ∃ href, attrs a !! "href" = Some href
          ∧ item = NewsItem (strip (text a)) (kitco ++ href).
Proof.
  unfold news_entry. destruct (attrs a !! "href") as [href|]; [|done].
  intros H. exists href. split; [done|]. by inversion H.
Qed.

Lemma get_news_items (anchors : list anchor) (items : list news_item) :
  mapM news_entry (take 5 anchors) = Some items →
  get_news (Some anchors) = items.
Proof. intros H. unfold get_news. by rewrite H. Qed.

Lemma get_news_except (anchors : list anchor) :
  mapM news_entry (take 5 anchors) = None → get_news (Some anchors) = [].
Proof. intros H. unfold get_news. by rewrite H. Qed.

(** X18. [get_news] returns at most five items and looks at the first
    five matched anchors only.  It is all or nothing: when the request
    or the parser fails, or when one of those five anchors has no href,
    the bare [except] turns the run into the empty list. *)
Theorem get_news_bounded (selected : option (list anchor)) :
  (length (get_news selected) ≤ 5)%nat
  ∧ (selected = None → get_news selected = [])
  ∧ (∀ anchors more,
       selected = Some (anchors ++ more) → (5 ≤ length anchors)%nat →
       get_news selected = get_news (Some anchors))
  ∧ (∀ anchors i a,
       selected = Some anchors → (i < 5)%nat → anchors !! i = Some a →
       attrs a !! "href" = None → get_news selected = []).
Proof.
  split; [|split; [|split]].
  - destruct selected as [anchors|]; [|cbn; lia].
    destruct (mapM news_entry (take 5 anchors)) as [items|] eqn:E.
    + rewrite (get_news_items anchors items E).
      apply mapM_Some_1, Forall2_length in E.
      rewrite <- E, length_take. lia.
    + rewrite (get_news_except anchors E). cbn. lia.
  - by intros ->.
  - intros anchors more -> Hlen. unfold get_news.
    by rewrite take_app_le by done.
  - intros anchors i a -> Hi Ha Hnone. apply get_news_except.
    apply mapM_None_2, Exists_exists. exists a. split.
    + apply list_elem_of_lookup. exists i. by rewrite lookup_take_lt.
    + unfold news_entry. by rewrite Hnone.
Qed.

Lemma get_news_bounded_witness :
  get_news (Some [Anchor (pystr_of "Gold up") {[ "href" := pystr_of "/a" ]};
                  Anchor (pystr_of "Gold down") ∅]) = [].
Proof.
  destruct (get_news_bounded
              (Some [Anchor (pystr_of "Gold up") {[ "href" := pystr_of "/a" ]};
                     Anchor (pystr_of "Gold down") ∅]))
    as (_ & _ & _ & H).
  apply (H [Anchor (pystr_of "Gold up") {[ "href" := pystr_of "/a" ]};
            Anchor (pystr_of "Gold down") ∅]
           1%nat (Anchor (pystr_of "Gold down") ∅));
    [reflexivity|lia|reflexivity|reflexivity].
Defined.

(** X19. When each of the first five matched anchors has an href,
    [get_news] returns one item per such anchor, in order: the title is
    the anchor's text without the whitespace at its two ends (nothing
    inside is removed, and stripping it again changes nothing) and the
    url is the site prefix followed by the href as it stands. *)
Theorem get_news_entries (anchors : list anchor) :
  Forall (fun a => is_Some (attrs a !! "href")) (take 5 anchors) →
  length (get_news (Some anchors)) = Nat.min 5 (length anchors)
  ∧ ∀ i a, (i < 5)%nat → anchors !! i = Some a →
      ∃ item href,
        get_news (Some anchors) !! i = Some item
        ∧ attrs a !! "href" = Some href
        ∧ url item = kitco ++ href
        ∧ title item = strip (text a)
        ∧ (∃ ws1 ws2, text a = ws1 ++ title item ++ ws2
                      ∧ Forall (fun c => py_isspace c = true) ws1
                      ∧ Forall (fun c => py_isspace c = true) ws2)
        ∧ (∀ c, head (title item) = Some c → py_isspace c = false)
        ∧ (∀ c, last (title item) = Some c → py_isspace c = false)
        ∧ strip (title item) = title item.
Proof.
  intros Hall.
  destruct (mapM news_entry (take 5 anchors)) as [items|] eqn:E.
  2:{ apply mapM_None_1, Exists_exists in E as (a & Ha & Hnone).
      rewrite Forall_forall in Hall. destruct (Hall a Ha) as [href Hhref].
      unfold news_entry in Hnone. by rewrite Hhref in Hnone. }
  rewrite (get_news_items anchors items E).
  apply mapM_Some_1 in E. split.
  - rewrite <- (Forall2_length _ _ _ E), length_take. lia.
  - intros i a Hi Ha.
    assert (take 5 anchors !! i = Some a) as Ha' by by rewrite lookup_take_lt.
    destruct (Forall2_lookup_l _ _ _ _ _ E Ha') as (item & Hitem & Hentry).
    apply news_entry_Some in Hentry as (href & Hhref & ->).
    exists (NewsItem (strip (text a)) (kitco ++ href)), href.
    cbn [title url]. destruct (strip_spec (text a)) as (H1 & H2 & H3 & H4).
    done.
Qed.

Lemma get_news_entries_witness :
  ∃ item,
    get_news (Some [Anchor (pystr_of "  Gold up ")
                      {[ "href" := pystr_of "/news/1" ]}]) !! 0%nat
    = Some item
    ∧ title item = pystr_of "Gold up"
    ∧ url item = pystr_of "https://www.kitco.com/news/1".
Proof.
  destruct (get_news_entries
              [Anchor (pystr_of "  Gold up ") {[ "href" := pystr_of "/news/1" ]}])
    as (_ & H).
  { repeat constructor. by eexists. }
  destruct (H 0%nat _ ltac:(lia) eq_refl)
    as (item & href & Hitem & Hhref & Hurl & Htitle & _).
  exists item. split; [exact Hitem|]. split.
  - rewrite Htitle. reflexivity.
  - rewrite Hurl. inversion Hhref. reflexivity.
Defined.

(** ** Gains and losses of the Streamlit script on any closes *)

Lemma where_gt_entry (x : Float) :
  let g := if fgt x (Num 0) then x else Num 0 in
  g ≠ NaN ∧ fge g (Num 0) = true.
Proof.
  destruct x as [| | |q]; cbn; try done.
  unfold Qltb. destruct (Qle_bool q 0) eqn:E; cbn; [done|].
  split; [done|]. unfold Qltb. rewrite negb_true_iff, negb_false_iff.
  apply Qle_bool_iff. destruct (Qlt_le_dec 0 q) as [H|H]; [lra|].
  apply Qle_bool_iff in H. congruence.
Qed.

Lemma where_lt_entry (x : Float) :
  let l := fneg (if flt x (Num 0) then x else Num 0) in
  l ≠ NaN ∧ fge l (Num 0) = true.
Proof.
  destruct x as [| | |q]; cbn; try done.
  unfold Qltb. destruct (Qle_bool 0 q) eqn:E; cbn; [done|].
  split; [done|]. unfold Qltb. rewrite negb_true_iff, negb_false_iff.
  apply Qle_bool_iff. destruct (Qlt_le_dec q 0) as [H|H]; [lra|].
  apply Qle_bool_iff in H. congruence.
Qed.

Lemma streamlit_gain_lookup (close : Series) (i : nat) (g : Float) :
  Streamlit.gain close !! i = Some g →
  ∃ x, Streamlit.delta close !! i = Some x
       ∧ g = if fgt x (Num 0) then x else Num 0.
Proof.
  unfold Streamlit.gain, series_where, gt_scalar.
  rewrite lookup_zip_with, list_lookup_fmap.
  destruct (Streamlit.delta close !! i) as [x|]; [|done].
  cbn. intros H. exists x. split; [done|]. by inversion H.
Qed.

Lemma streamlit_loss_lookup (close : Series) (i : nat) (l : Float) :
  Streamlit.loss close !! i = Some l →
  ∃ x, Streamlit.delta close !! i = Some x
       ∧ l = fneg (if flt x (Num 0) then x else Num 0).
Proof.
  unfold Streamlit.loss, series_neg, series_where, lt_scalar.
  rewrite list_lookup_fmap, lookup_zip_with, list_lookup_fmap.
  destruct (Streamlit.delta close !! i) as [x|]; [|done].
  cbn. intros H. exists x. split; [done|]. by inversion H.
Qed.

(** X20. In [gold_dashboard_streamlit.py] the gain and loss columns never
    hold a NaN, whatever the closes are: [where(..., 0)] puts 0 wherever
    the delta is NaN, so the first position and every missing close
    count as no move, and each entry is at least 0.  In
    [gold_dashboard.py], [clip] keeps the NaN of position 0. *)
Theorem streamlit_gain_loss_never_nan (close : Series) (i : nat) (x : Float) :
  (Streamlit.gain close !! i = Some x ∨ Streamlit.loss close !! i = Some x →
   x ≠ NaN ∧ fge x (Num 0) = true)
  ∧ (Streamlit.delta close !! i = Some NaN →
     Streamlit.gain close !! i = Some (Num 0))
  ∧ ((0 < length close)%nat →
     Dashboard.gain close !! 0%nat = Some NaN
     ∧ Dashboard.loss close !! 0%nat = Some NaN).
Proof.
  split; [|split].
  - intros [Hg|Hl].
    + apply streamlit_gain_lookup in Hg as (d & _ & ->).
      apply where_gt_entry.
    + apply streamlit_loss_lookup in Hl as (d & _ & ->).
      apply where_lt_entry.
  - intros Hd. unfold Streamlit.gain, series_where, gt_scalar.
    rewrite lookup_zip_with, list_lookup_fmap. by rewrite Hd.
  - intros Hlen. destruct close as [|c tl]; [cbn in Hlen; lia|]. done.
Qed.

Lemma streamlit_gain_loss_never_nan_witness :
  Streamlit.gain [Num 5; NaN; Num 7] !! 1%nat = Some (Num 0)
  ∧ Dashboard.gain [Num 5; NaN; Num 7] !! 0%nat = Some NaN.
Proof.
  destruct (streamlit_gain_loss_never_nan [Num 5; NaN; Num 7] 1 NaN)
    as (_ & H & _).
  destruct (streamlit_gain_loss_never_nan [Num 5; NaN; Num 7] 0 NaN)
    as (_ & _ & H0).
  split; [apply H; reflexivity|]. apply H0. cbn. lia.
Defined.
